(** * Go-Calculator: the expression pipeline of calc.go

    A shallow embedding of the calculator's core (tokenize, infixToPostfix,
    evaluatePostfix, evaluateFunction, evaluateExpression) and of the loop
    of Run, and the properties its specification states about it.

    Go strings are byte sequences: they are [string]s here, one [ascii] per
    byte.  A [float64] is a primitive binary64 [float].  A Go result pair
    [(value, error)] is a [result]: [Ok v] for [(v, nil)], [Err e] for
    [(0, e)]. *)

From Stdlib Require Import Bool List Arith ZArith Lia Permutation.
From Stdlib Require Import Ascii String.
From Stdlib Require Import Uint63 PrimFloat FloatOps SpecFloat.
From Equations Require Import Equations.
Import ListNotations.

Local Open Scope string_scope.
Local Open Scope list_scope.

(** ** Byte strings *)

Module Str.

(** [s[n:]] *)
Fixpoint drop (n : nat) (s : string) : string :=
  match n, s with
  | S n', String _ s' => drop n' s'
  | _, _ => s
  end.

(** [s[:n]] *)
Fixpoint take (n : nat) (s : string) : string :=
  match n, s with
  | S n', String c s' => String c (take n' s')
  | _, _ => EmptyString
  end.

Definition of_char (c : ascii) : string := String c EmptyString.

Fixpoint filter (p : ascii -> bool) (s : string) : string :=
  match s with
  | EmptyString => EmptyString
  | String c s' => if p c then String c (filter p s') else filter p s'
  end.

Fixpoint forallb (p : ascii -> bool) (s : string) : bool :=
  match s with
  | EmptyString => true
  | String c s' => p c && forallb p s'
  end.

(** The last byte of [s] and what precedes it. *)
Fixpoint unsnoc (s : string) : option (string * ascii) :=
  match s with
  | EmptyString => None
  | String c s' =>
      match unsnoc s' with
      | None => Some (EmptyString, c)
      | Some (init, l) => Some (String c init, l)
      end
  end.

(** The bytes of [s] before the first [sep] and those after it. *)
Fixpoint cut (sep : ascii) (s : string) : option (string * string) :=
  match s with
  | EmptyString => None
  | String c s' =>
      if Ascii.eqb c sep then Some (EmptyString, s')
      else match cut sep s' with
           | None => None
           | Some (before, after) => Some (String c before, after)
           end
  end.

End Str.

(** ** The Go library calls of calc.go

    These are the standard-library functions the source calls, written out on
    the arguments the source gives them. *)

(** [unicode.IsDigit(rune(b))] for a byte [b]: below U+0100 the decimal digits
    are '0'..'9' only. *)
Definition unicode_IsDigit (c : ascii) : bool :=
  (48 <=? nat_of_ascii c)%nat && (nat_of_ascii c <=? 57)%nat.

(** [strings.ReplaceAll(input, " ", "")] *)
Definition strings_ReplaceAll_space (input : string) : string :=
  Str.filter (fun c => negb (Ascii.eqb c " ")) input.

(** [strings.HasPrefix(s, prefix)] *)
Definition strings_HasPrefix (s prefix : string) : bool := String.prefix prefix s.

(** [strings.SplitN(s, "(", 2)]: [inl s] is the one-element slice [{s}] (no
    separator in [s]), [inr (a, b)] the two-element slice [{a, b}]. *)
Definition strings_SplitN_paren_2 (s : string) : string + string * string :=
  match Str.cut "(" s with
  | None => inl s
  | Some p => inr p
  end.

(** [strings.TrimSuffix(s, ")")] *)
Definition strings_TrimSuffix_paren (s : string) : string :=
  match Str.unsnoc s with
  | Some (init, c) => if Ascii.eqb c ")" then init else s
  | None => s
  end.

(** [string(char)] for [char := rune(b)]: the UTF-8 encoding of the code point
    U+00[b], one byte below 0x80 and two bytes from there on. *)
Definition string_of_rune (c : ascii) : string :=
  let n := nat_of_ascii c in
  if (n <? 128)%nat then Str.of_char c
  else String (ascii_of_nat (192 + n / 64))
         (String (ascii_of_nat (128 + n mod 64)) EmptyString).

(** *** strconv.ParseFloat(s, 64)

    The program hands [ParseFloat] nothing but its own tokens: runs of digits
    and points, single operator or parenthesis characters, and function calls
    [name(...)].  On such strings [ParseFloat] accepts exactly the runs with at
    least one digit and at most one point, returns the binary64 nearest to the
    decimal value (ties to even), and reports a range error when that value
    rounds beyond the largest finite binary64.  [None] is a non-nil error.
    Signs, exponents, hexadecimal mantissas, digit separators, "Inf" and "NaN",
    which [ParseFloat] also reads, cannot occur in a token and are left out:
    on a string such as "-5" the function below is not Go's.  A property of
    [infixToPostfix] or [evaluatePostfix] on token lists given from outside
    therefore either confines its tokens to these shapes by a hypothesis, or
    holds whichever strings count as numbers. *)

Module strconv.

Local Open Scope Z_scope.

Record decimal := { digits : Z; scale : nat; ndigits : nat; npoints : nat }.

(** The decimal reading of a run of digits and points: the digits as one
    integer, the number of digits after the first point, and the counts of
    digits and points.  [None] on any other character. *)
Fixpoint scan (s : string) (d : decimal) : option decimal :=
  match s with
  | EmptyString => Some d
  | String c s' =>
      if unicode_IsDigit c then
        scan s' {| digits := 10 * digits d + (Z.of_nat (nat_of_ascii c) - 48);
                   scale := if (0 <? npoints d)%nat then S (scale d) else scale d;
                   ndigits := S (ndigits d);
                   npoints := npoints d |}
      else if Ascii.eqb c "." then
        scan s' {| digits := digits d; scale := scale d;
                   ndigits := ndigits d; npoints := S (npoints d) |}
      else None
  end.

(** [n / d] rounded to the nearest integer, ties to even ([0 < d]). *)
Definition div_nearest_even (n d : Z) : Z :=
  let q := n / d in
  let r := n mod d in
  if 2 * r <? d then q
  else if d <? 2 * r then q + 1
  else if Z.even q then q else q + 1.

(** The binary64 nearest to [n / d] for [0 <= n], [0 < d]; [None] when it is
    out of range. *)
Definition nearest_binary64 (n d : Z) : option float :=
  if n =? 0 then Some zero
  else
    (* l = floor (log2 (n / d)) *)
    let l0 := Z.log2 n - Z.log2 d in
    let l := if 0 <=? l0
             then (if n <? d * 2 ^ l0 then l0 - 1 else l0)
             else (if n * 2 ^ (- l0) <? d then l0 - 1 else l0) in
    (* the exponent of the last place: 53 significant bits, or the fixed
       exponent of the subnormals *)
    let e := Z.max (l - 52) (-1074) in
    let m := if 0 <=? e then div_nearest_even n (d * 2 ^ e)
             else div_nearest_even (n * 2 ^ (- e)) d in
    if 2 ^ 1024 <=? m * 2 ^ (Z.max e 0) then None
    else Some (Z.ldexp (of_uint63 (Uint63.of_Z m)) e).

Definition ParseFloat (s : string) : option float :=
  match scan s {| digits := 0; scale := 0; ndigits := 0; npoints := 0 |} with
  | Some d =>
      if (0 <? ndigits d)%nat && (npoints d <=? 1)%nat
      then nearest_binary64 (digits d) (10 ^ Z.of_nat (scale d))
      else None
  | None => None
  end.

End strconv.

(** *** Package math

    [math.Sqrt] is the correctly rounded IEEE 754 square root, which is the
    primitive [sqrt].  [math.Sin], [math.Cos], [math.Tan] and [math.Pow] are
    library routines with no counterpart here: the evaluator takes them as
    parameters. *)

Definition math_Sqrt (x : float) : float := PrimFloat.sqrt x.

Class MathLib : Type := {
  math_Sin : float -> float;
  math_Cos : float -> float;
  math_Tan : float -> float;
  math_Pow : float -> float -> float
}.

(** ** Errors and results *)

(** The error values of calc.go: the four package-level errors and one
    constructor per [fmt.Errorf] call, with the arguments of its format. *)
Inductive error : Type :=
| errInvalidOperator
| errDivideByZero
| errInsufficientValues
| errMismatchedParens
| errUnmatchedFunctionParens
| errInvalidCharacter (char : ascii)
| errInvalidToken (token : string)
| errInvalidNumber (token : string)
| errEvaluatingExpression
| errInvalidFunctionFormat (token : string)
| errInvalidFunctionArgument (argStr : string)
| errUnsupportedFunction (funcName : string).

(** [err.Error()]: the message of each error value. *)
Definition Error (e : error) : string :=
  match e with
  | errInvalidOperator => "invalid operator. Use +, -, *, /, or ^"
  | errDivideByZero => "cannot divide by zero"
  | errInsufficientValues => "insufficient values for operation"
  | errMismatchedParens => "mismatched parentheses"
  | errUnmatchedFunctionParens => "unmatched function parentheses"
  | errInvalidCharacter char => "invalid character: " ++ string_of_rune char
  | errInvalidToken token => "invalid token: " ++ token
  | errInvalidNumber token => "invalid number: " ++ token
  | errEvaluatingExpression => "error evaluating expression"
  | errInvalidFunctionFormat token => "invalid function format: " ++ token
  | errInvalidFunctionArgument argStr => "invalid function argument: " ++ argStr
  | errUnsupportedFunction funcName => "unsupported function: " ++ funcName
  end.

Inductive result (A : Type) : Type :=
| Ok (a : A)
| Err (e : error).
Arguments Ok {A} a.
Arguments Err {A} e.

Definition bind {A B : Type} (r : result A) (k : A -> result B) : result B :=
  match r with
  | Ok a => k a
  | Err e => Err e
  end.

Notation "x <- r ;; k" := (bind r (fun x => k))
  (at level 61, r at next level, right associativity).

(** ** Constants and tables *)

Definition addOperator := "+".
Definition subtractOperator := "-".
Definition multiplyOperator := "*".
Definition divideOperator := "/".
Definition powerOperator := "^".
Definition leftParen := "(".
Definition rightParen := ")".

(** A Go map lookup [m[key]]: the value stored under [key], or the zero value
    of the value type when there is none. *)
Fixpoint lookup {V : Type} (zero : V) (m : list (string * V)) (key : string) : V :=
  match m with
  | [] => zero
  | (k, v) :: m' => if String.eqb k key then v else lookup zero m' key
  end.

Definition precedence_table : list (string * Z) :=
  [(addOperator, 1%Z); (subtractOperator, 1%Z); (multiplyOperator, 2%Z);
   (divideOperator, 2%Z); (powerOperator, 3%Z)].

Definition associativity_table : list (string * string) :=
  [(addOperator, "L"); (subtractOperator, "L"); (multiplyOperator, "L");
   (divideOperator, "L"); (powerOperator, "R")].

Definition precedence (token : string) : Z := lookup 0%Z precedence_table token.
Definition associativity (token : string) : string := lookup "" associativity_table token.

(** ** Token classes *)

Definition isOperatorOrParen (token : string) : bool :=
  String.eqb token addOperator || String.eqb token subtractOperator
  || String.eqb token multiplyOperator || String.eqb token divideOperator
  || String.eqb token powerOperator || String.eqb token leftParen
  || String.eqb token rightParen.

Definition isNumber (token : string) : bool :=
  match strconv.ParseFloat token with
  | Some _ => true
  | None => false
  end.

Definition isOperator (token : string) : bool :=
  isOperatorOrParen token && negb (String.eqb token leftParen)
  && negb (String.eqb token rightParen).

Definition isFunction (token : string) : bool :=
  strings_HasPrefix token "sin(" || strings_HasPrefix token "cos("
  || strings_HasPrefix token "tan(" || strings_HasPrefix token "sqrt(".

(** ** tokenize *)

(** [functionRegex.FindString(s)] for the pattern [^(sin|cos|tan|sqrt)\(]:
    the matched prefix, or the empty string when there is no match. *)
Definition functionRegex_FindString (s : string) : string :=
  if String.prefix "sin(" s then "sin("
  else if String.prefix "cos(" s then "cos("
  else if String.prefix "tan(" s then "tan("
  else if String.prefix "sqrt(" s then "sqrt("
  else "".

(** The inner loop [for count > 0 && j < len(input)] on [s = input[j:]]: the
    values of [count] and [j] when it stops. *)
Fixpoint scanParens (s : string) (count j : nat) : nat * nat :=
  match count, s with
  | S _, String c s' =>
      scanParens s'
        (if Ascii.eqb c "(" then S count
         else if Ascii.eqb c ")" then Nat.pred count
         else count)
        (S j)
  | _, _ => (count, j)
  end.

(** [if number.Len() > 0 { tokens = append(tokens, number.String()) }] *)
Definition flushNumber (number : string) (tokens : list string) : list string :=
  if (0 <? String.length number)%nat then tokens ++ [number] else tokens.

(** [inspect x] is [x] with the proof that it is the value matched on. *)
Definition inspect {A : Type} (x : A) : {y : A | x = y} := exist _ x eq_refl.

(** The main loop of [tokenize] on [rest = input[i:]], with the number under
    construction and the tokens emitted so far.  [i] advances at every turn,
    so the loop is a recursion on the length of [input[i:]]. *)
Equations? tokenize_loop (rest number : string) (tokens : list string)
  : result (list string) by wf (String.length rest) lt :=
  tokenize_loop EmptyString number tokens := Ok (flushNumber number tokens);
  tokenize_loop (String char rest') number tokens
    with unicode_IsDigit char || Ascii.eqb char "." => {
    | true := tokenize_loop rest' (number ++ Str.of_char char) tokens;
    | false with isOperatorOrParen (string_of_rune char) => {
      | true := tokenize_loop rest' ""
                  (flushNumber number tokens ++ [string_of_rune char]);
      | false with inspect (functionRegex_FindString (String char rest')) => {
        | exist _ EmptyString _ := Err (errInvalidCharacter char);
        | exist _ (String m0 m') Hmatch
            with inspect (scanParens
                            (Str.drop (String.length (String m0 m')) (String char rest'))
                            1 (String.length (String m0 m'))) => {
          | exist _ (0%nat, j) Hscan :=
              tokenize_loop (Str.drop j (String char rest')) ""
                (flushNumber number tokens ++ [Str.take j (String char rest')]);
          | exist _ (S _, _) _ := Err errUnmatchedFunctionParens } } } }.
Proof.
  assert (Hoffset : forall s count j0, (j0 <= snd (scanParens s count j0))%nat).
  { induction s as [|c s IH]; intros count j0; destruct count; simpl; try lia.
    specialize (IH (if Ascii.eqb c "(" then S (S count)
                    else if Ascii.eqb c ")" then count else S count) (S j0)).
    lia. }
  assert (Hdrop : forall n s, (String.length (Str.drop n s) <= String.length s)%nat).
  { induction n as [|n IH]; intros [|c s]; simpl; auto. }
  pose proof (Hoffset (Str.drop (String.length m') rest') 1 (S (String.length m'))) as Hle.
  simpl in Hscan. rewrite Hscan in Hle. simpl in Hle.
  destruct j as [|j]; [lia|].
  simpl. pose proof (Hdrop j rest'). lia.
Qed.

Definition tokenize (input : string) : result (list string) :=
  tokenize_loop input "" [].

(** ** infixToPostfix

    The operator stack is a list whose head is the top of the stack
    ([stack[len(stack)-1]]); the output is appended to at its end. *)

(** The loop of the operator case: pop to the output while the top of the
    stack is not a left parenthesis and binds at least as tightly as [token]
    (tighter, for a right-associative [token]). *)
Fixpoint popOperators (token : string) (postfix stack : list string)
  : list string * list string :=
  match stack with
  | top :: stack' =>
      if negb (String.eqb top leftParen)
         && ((String.eqb (associativity token) "L"
              && (precedence token <=? precedence top)%Z)
             || (String.eqb (associativity token) "R"
                 && (precedence token <? precedence top)%Z))
      then popOperators token (postfix ++ [top]) stack'
      else (postfix, stack)
  | [] => (postfix, stack)
  end.

(** The loop of the right-parenthesis case: pop to the output until the top
    of the stack is a left parenthesis or the stack is empty. *)
Fixpoint popToLeftParen (postfix stack : list string) : list string * list string :=
  match stack with
  | top :: stack' =>
      if negb (String.eqb top leftParen)
      then popToLeftParen (postfix ++ [top]) stack'
      else (postfix, stack)
  | [] => (postfix, stack)
  end.

(** The loop over the tokens: the output and the stack when it ends. *)
Fixpoint infixToPostfix_loop (tokens postfix stack : list string)
  : result (list string * list string) :=
  match tokens with
  | [] => Ok (postfix, stack)
  | token :: tokens' =>
      if isNumber token then
        infixToPostfix_loop tokens' (postfix ++ [token]) stack
      else if isFunction token then
        infixToPostfix_loop tokens' postfix (token :: stack)
      else if isOperator token then
        let (postfix, stack) := popOperators token postfix stack in
        infixToPostfix_loop tokens' postfix (token :: stack)
      else if String.eqb token leftParen then
        infixToPostfix_loop tokens' postfix (token :: stack)
      else if String.eqb token rightParen then
        let (postfix, stack) := popToLeftParen postfix stack in
        match stack with
        | [] => Err errMismatchedParens
        | _ :: top :: stack' =>
            if isFunction top
            then infixToPostfix_loop tokens' (postfix ++ [top]) stack'
            else infixToPostfix_loop tokens' postfix (top :: stack')
        | [_] => infixToPostfix_loop tokens' postfix []
        end
      else Err (errInvalidToken token)
  end.

(** The final loop: pop what is left to the output; a left parenthesis is an
    error. *)
Fixpoint drainStack (postfix stack : list string) : result (list string) :=
  match stack with
  | [] => Ok postfix
  | top :: stack' =>
      if String.eqb top leftParen then Err errMismatchedParens
      else drainStack (postfix ++ [top]) stack'
  end.

Definition infixToPostfix (tokens : list string) : result (list string) :=
  ps <- infixToPostfix_loop tokens [] [] ;;
  drainStack (fst ps) (snd ps).

(** ** Arithmetic *)

Section Calculator.

Context {M : MathLib}.

Definition add (a b : float) : float := (a + b)%float.
Definition subtract (a b : float) : float := (a - b)%float.
Definition multiply (a b : float) : float := (a * b)%float.

Definition divide (a b : float) : result float :=
  if (b =? 0)%float then Err errDivideByZero else Ok (a / b)%float.

Definition power (a b : float) : float := math_Pow a b.

(** The [switch token] of [evaluatePostfix]. *)
Definition applyOperator (token : string) (a b : float) : result float :=
  if String.eqb token addOperator then Ok (add a b)
  else if String.eqb token subtractOperator then Ok (subtract a b)
  else if String.eqb token multiplyOperator then Ok (multiply a b)
  else if String.eqb token divideOperator then divide a b
  else if String.eqb token powerOperator then Ok (power a b)
  else Err errInvalidOperator.

(** ** evaluateFunction and evaluatePostfix

    [evaluateExpression] calls [evaluatePostfix], which calls
    [evaluateFunction], which calls [evaluateExpression] on the argument of
    the function token.  The recursion is cut at that call: the two inner
    methods take the evaluator of arguments as [recur], and
    [evaluateExpression_fuel] closes the knot with a bound on the depth of
    the calls.  [None] says that the bound was reached. *)

Section Recur.

Variable recur : string -> option (result float).

Definition evaluateFunction (token : string) : option (result float) :=
  match strings_SplitN_paren_2 token with
  | inl _ => Some (Err (errInvalidFunctionFormat token))
  | inr (funcName, after) =>
      let argStr := strings_TrimSuffix_paren after in
      match recur argStr with
      | None => None
      | Some (Err _) => Some (Err (errInvalidFunctionArgument argStr))
      | Some (Ok arg) =>
          if String.eqb funcName "sin" then Some (Ok (math_Sin arg))
          else if String.eqb funcName "cos" then Some (Ok (math_Cos arg))
          else if String.eqb funcName "tan" then Some (Ok (math_Tan arg))
          else if String.eqb funcName "sqrt" then Some (Ok (math_Sqrt arg))
          else Some (Err (errUnsupportedFunction funcName))
      end
  end.

(** The loop over the postfix tokens; the value stack is a list whose
    head is the top of the stack. *)
Fixpoint evaluatePostfix_loop (tokens : list string) (stack : list float)
  : option (result (list float)) :=
  match tokens with
  | [] => Some (Ok stack)
  | token :: tokens' =>
      if isNumber token then
        match strconv.ParseFloat token with
        | None => Some (Err (errInvalidNumber token))
        | Some value => evaluatePostfix_loop tokens' (value :: stack)
        end
      else if isFunction token then
        match evaluateFunction token with
        | None => None
        | Some (Err e) => Some (Err e)
        | Some (Ok r) => evaluatePostfix_loop tokens' (r :: stack)
        end
      else if isOperator token then
        match stack with
        | b :: a :: stack' =>
            match applyOperator token a b with
            | Err e => Some (Err e)
            | Ok r => evaluatePostfix_loop tokens' (r :: stack')
            end
        | _ => Some (Err errInsufficientValues)
        end
      else Some (Err (errInvalidToken token))
  end.

Definition evaluatePostfix (tokens : list string) : option (result float) :=
  match evaluatePostfix_loop tokens [] with
  | None => None
  | Some (Err e) => Some (Err e)
  | Some (Ok [v]) => Some (Ok v)
  | Some (Ok _) => Some (Err errEvaluatingExpression)
  end.

(** The body of [evaluateExpression]. *)
Definition evaluateExpression_body (input : string) : option (result float) :=
  let input := strings_ReplaceAll_space input in
  match tokenize input with
  | Err e => Some (Err e)
  | Ok tokens =>
      match infixToPostfix tokens with
      | Err e => Some (Err e)
      | Ok postfix => evaluatePostfix postfix
      end
  end.

End Recur.

(** ** evaluateExpression *)

Fixpoint evaluateExpression_fuel (fuel : nat) (input : string)
  : option (result float) :=
  match fuel with
  | O => None
  | S fuel' => evaluateExpression_body (evaluateExpression_fuel fuel') input
  end.

(** Every call on the argument of a function token is on a shorter string
    (see [evaluateExpression_fuel_enough]), so a bound above the length of
    the input is never reached; the error of the [None] branch is never
    returned. *)
Definition evaluateExpression (input : string) : result float :=
  match evaluateExpression_fuel (S (String.length input)) input with
  | Some r => r
  | None => Err errEvaluatingExpression
  end.

End Calculator.

(** ** Run

    The loop of [Run] reads a line, answers it and goes on, until a line is
    the exit command.  The reader, the two [strings] functions and the
    [%f] format of [fmt] are those of the Go library. *)

Class Console := {
  (** The state of [c.reader]. *)
  Reader : Type;
  (** [c.reader.ReadString('\n')]: the data read, the message of the
      error when there is one, and the reader afterwards. *)
  ReadString_newline : Reader -> string * option string * Reader;
  (** [strings.TrimSpace] *)
  strings_TrimSpace : string -> string;
  (** [strings.ToLower] *)
  strings_ToLower : string -> string;
  (** [fmt.Sprintf("%f", x)] *)
  fmt_f : float -> string
}.

Definition exitCommand : string := "exit".

Definition newline : string := String (ascii_of_nat 10) "".

(** What [Run] prints before the loop. *)
Definition banner : string :=
  ("Welcome to the Go Calculator!" ++ newline
   ++ "Please enter your calculation with multiple operations allowed, including parentheses."
   ++ newline
   ++ "Operators: + for addition, - for subtraction, * for multiplication, / for division, ^ for exponentiation"
   ++ newline
   ++ "Functions: sin(x), cos(x), tan(x), sqrt(x)" ++ newline
   ++ "Type 'exit' to quit the program." ++ newline)%string.

(** One turn of the loop: what it prints, and the reader for the next turn
    ([continue], or the end of the body) or the end of the loop
    ([break]). *)
Inductive turn {C : Console} : Type :=
| next (output : string) (reader : Reader)
| stop (output : string).

Section Loop.

Context {M : MathLib} {C : Console}.

Definition Run_turn (reader : Reader) : turn :=
  let prompt := "Enter calculation: " in
  match ReadString_newline reader with
  | (_, Some err, reader') =>
      next (prompt ++ "Error reading input: " ++ err ++ newline) reader'
  | (input, None, reader') =>
      let input := strings_TrimSpace input in
      if String.eqb (strings_ToLower input) exitCommand
      then stop (prompt ++ "Exiting the calculator. Goodbye!" ++ newline)
      else
        match evaluateExpression input with
        | Err err =>
            next (prompt ++ "Error: " ++ Error err ++ newline
                  ++ "Please check your input and try again." ++ newline) reader'
        | Ok result =>
            next (prompt ++ "Result: " ++ fmt_f result ++ newline) reader'
        end
  end.

(** The loop, for at most [fuel] turns: what it prints, and whether it has
    ended. *)
Fixpoint Run_loop (fuel : nat) (reader : Reader) : string * bool :=
  match fuel with
  | O => ("", false)
  | S fuel' =>
      match Run_turn reader with
      | stop output => (output, true)
      | next output reader' =>
          let (rest, ended) := Run_loop fuel' reader' in
          ((output ++ rest)%string, ended)
      end
  end.

Definition Run (fuel : nat) (reader : Reader) : string * bool :=
  let (output, ended) := Run_loop fuel reader in
  ((banner ++ output)%string, ended).

End Loop.

(** * Notions of the specification *)

Definition mapResult {A B : Type} (f : A -> B) (r : result A) : result B :=
  match r with
  | Ok a => Ok (f a)
  | Err e => Err e
  end.

(** The tokens of a list, one after the other. *)
Definition concatTokens (tokens : list string) : string :=
  fold_right String.append "" tokens.

(** [sub] occurs in [s]. *)
Definition isSubstring (sub s : string) : Prop :=
  exists before after, s = (before ++ sub ++ after)%string.

(** ** Places in the input *)

(** The bytes that go into a number token. *)
Definition isNumberChar (c : ascii) : bool := unicode_IsDigit c || Ascii.eqb c ".".

(** A non-empty run of digits and points. *)
Definition isNumberRun (num : string) : bool :=
  Str.forallb isNumberChar num && (0 <? String.length num)%nat.

(** [rest] is empty or starts with a byte that is no digit and no point. *)
Definition startsOther (rest : string) : bool :=
  match rest with
  | EmptyString => true
  | String c _ => negb (isNumberChar c)
  end.

Definition notSpace (c : ascii) : bool := negb (Ascii.eqb c " ").

(** The function-call branch of the loop of [tokenize], on [rest = input[i:]]
    and the tokens flushed so far. *)
Definition tokenize_call (rest : string) (tokens : list string) : result (list string) :=
  match rest, functionRegex_FindString rest with
  | EmptyString, _ => Ok tokens
  | String char _, EmptyString => Err (errInvalidCharacter char)
  | String _ _, found =>
      match scanParens (Str.drop (String.length found) rest) 1 (String.length found) with
      | (O, j) => tokenize_loop (Str.drop j rest) "" (tokens ++ [Str.take j rest])
      | (S _, _) => Err errUnmatchedFunctionParens
      end
  end.

(** What the converter still sends to the output from the tokens left and
    the stack. *)
Definition convertFrom (tokens stack : list string) : result (list string) :=
  ps <- infixToPostfix_loop tokens [] stack ;;
  drainStack (fst ps) (snd ps).

(** ** Expressions of numbers and + - * /

    An expression without parentheses and functions is a first number and a
    list of operator-number pairs.  Each number comes as its token and the
    value [ParseFloat] gives it. *)

Definition flatExpr : Type := list (string * string * float).

Fixpoint infixTokens (rest : flatExpr) : list string :=
  match rest with
  | [] => []
  | (o, t, _) :: rest' => o :: t :: infixTokens rest'
  end.

Definition operands (rest : flatExpr) : list (string * float) :=
  map (fun p => (fst (fst p), snd p)) rest.

Definition wellFormed (rest : flatExpr) : Prop :=
  Forall (fun p =>
            In (fst (fst p)) [addOperator; subtractOperator; multiplyOperator; divideOperator]
            /\ strconv.ParseFloat (snd (fst p)) = Some (snd p)) rest.

(** *** The reference evaluation

    Manual evaluation from left to right with the standard precedence.  The
    first pass carries out the multiplications and divisions: the current
    term takes up the operands of * and /, and a + or - closes it; a zero
    divisor is the DivisionByZero error.  The second pass adds and subtracts
    the terms. *)

Fixpoint reduceProducts (term : float) (rest : list (string * float))
  : result (float * list (string * float)) :=
  match rest with
  | [] => Ok (term, [])
  | (o, x) :: rest' =>
      if String.eqb o "*" then reduceProducts (term * x)%float rest'
      else if String.eqb o "/" then
        if (x =? 0)%float then Err errDivideByZero
        else reduceProducts (term / x)%float rest'
      else
        p <- reduceProducts x rest' ;;
        Ok (term, (o, fst p) :: snd p)
  end.

(** One step of the second pass: [acc o t] for [o] one of + and -. *)
Definition sumStep (o : string) (acc t : float) : float :=
  if String.eqb o "+" then (acc + t)%float else (acc - t)%float.

Fixpoint reduceSums (acc : float) (terms : list (string * float)) : float :=
  match terms with
  | [] => acc
  | (o, t) :: terms' => reduceSums (sumStep o acc t) terms'
  end.

Definition referenceEval (first : float) (rest : list (string * float)) : result float :=
  p <- reduceProducts first rest ;;
  Ok (reduceSums (fst p) (snd p)).

(** The reference evaluation of what follows a term, in a context [k] that
    takes the value of that term into the running sum. *)
Definition referenceFrom (k : float -> float) (term : float)
           (rest : list (string * float)) : result float :=
  p <- reduceProducts term rest ;;
  Ok (reduceSums (k (fst p)) (snd p)).

(** ** A sample instance of package math

    Integer powers by repeated multiplication and the first terms of the
    Taylor series.  It stands in for the Go library where a closed example
    has to compute; the theorems below hold for every instance. *)

Fixpoint powNat (x : float) (n : nat) : float :=
  match n with
  | O => 1%float
  | S n' => (x * powNat x n')%float
  end.

Definition samplePow (x y : float) : float :=
  match find (fun n => (of_uint63 (Uint63.of_Z (Z.of_nat n)) =? y)%float) (seq 0 64) with
  | Some n => powNat x n
  | None => nan
  end.

#[export] Instance SampleMath : MathLib := {|
  math_Sin := fun x => (x - x * x * x / 6)%float;
  math_Cos := fun x => (1 - x * x / 2)%float;
  math_Tan := fun x => (x + x * x * x / 3)%float;
  math_Pow := samplePow
|}.

(** A one followed by [n] zeros. *)
Fixpoint powerOfTen (n : nat) : string :=
  match n with
  | O => "1"
  | S n' => (powerOfTen n' ++ "0")%string
  end.

(** ** Notions of the further properties *)

(** The last byte of a token is a right parenthesis. *)
Definition endsWithParen (token : string) : bool :=
  match Str.unsnoc token with
  | Some (_, c) => Ascii.eqb c ")"
  | None => false
  end.

(** The three shapes of a token: a run of digits and points, one operator or
    parenthesis character, a function call closed by a parenthesis. *)
Definition tokenShape (token : string) : bool :=
  isNumberRun token || isOperatorOrParen token
  || (isFunction token && endsWithParen token).

(** The tokens [infixToPostfix] has a case for. *)
Definition validToken (token : string) : bool :=
  isNumber token || isFunction token || isOperator token
  || String.eqb token leftParen || String.eqb token rightParen.

Definition isParen (token : string) : bool :=
  String.eqb token leftParen || String.eqb token rightParen.

(** The number of left parentheses on the operator stack. *)
Definition openParens (stack : list string) : nat :=
  List.length (filter (String.eqb leftParen) stack).

(** The nesting depth after [tokens], from [depth]: a left parenthesis opens
    a level and a right one closes it; [None] when a right parenthesis has
    nothing to close. *)
Fixpoint parenDepth (tokens : list string) (depth : nat) : option nat :=
  match tokens with
  | [] => Some depth
  | token :: tokens' =>
      if String.eqb token leftParen then parenDepth tokens' (S depth)
      else if String.eqb token rightParen then
        match depth with
        | O => None
        | S depth' => parenDepth tokens' depth'
        end
      else parenDepth tokens' depth
  end.

(** The depth of the parentheses after the bytes of [s], from [count > 0];
    [None] when they close the level [count] started from. *)
Fixpoint parenScan (s : string) (count : nat) : option nat :=
  match s with
  | EmptyString => Some count
  | String c s' =>
      if Ascii.eqb c "(" then parenScan s' (S count)
      else if Ascii.eqb c ")" then
        match count with
        | S (S count') => parenScan s' (S count')
        | _ => None
        end
      else parenScan s' count
  end.

(** In [a o1 b o2 c] the left operator is applied first: it binds tighter,
    or as tightly and the operators associate to the left. *)
Definition groupsLeft (o1 o2 : string) : bool :=
  (precedence o2 <? precedence o1)%Z
  || ((precedence o1 =? precedence o2)%Z && String.eqb (associativity o1) "L").

(** The names [tokenize] and [isFunction] know. *)
Definition functionNames : list string := ["sin"; "cos"; "tan"; "sqrt"].

(** The function [evaluateFunction] applies for a name: its [switch]. *)
Definition mathFunction {M : MathLib} (funcName : string) : option (float -> float) :=
  if String.eqb funcName "sin" then Some math_Sin
  else if String.eqb funcName "cos" then Some math_Cos
  else if String.eqb funcName "tan" then Some math_Tan
  else if String.eqb funcName "sqrt" then Some math_Sqrt
  else None.

(** The text of a call: the name, the argument between parentheses. *)
Definition callText (funcName arg : string) : string :=
  (funcName ++ "(" ++ arg ++ ")")%string.

(** The tokens of a list that are no parentheses. *)
Definition withoutParens (tokens : list string) : list string :=
  filter (fun t => negb (isParen t)) tokens.

(** A byte [tokenize] reads without a look at what follows: a digit, a
    point, an operator or a parenthesis. *)
Definition isPlainChar (c : ascii) : bool :=
  isNumberChar c || isOperatorOrParen (string_of_rune c).

(** The errors a call of [evaluateExpression] can end with. *)
Definition reachableError (e : error) : bool :=
  match e with
  | errInvalidOperator | errInvalidNumber _
  | errInvalidFunctionFormat _ | errUnsupportedFunction _ => false
  | _ => true
  end.

(** No left parenthesis among the tokens. *)
Definition noLeftParen (tokens : list string) : Prop :=
  Forall (fun t => String.eqb t leftParen = false) tokens.

(** No right parenthesis among the tokens. *)
Definition noRightParen (tokens : list string) : Prop :=
  Forall (fun t => String.eqb t rightParen = false) tokens.

(** No number among the tokens. *)
Definition noNumber (tokens : list string) : Prop :=
  Forall (fun t => isNumber t = false) tokens.

(** The evaluator of function arguments inside [evaluateExpression]. *)
Definition self {M : MathLib} : string -> option (result float) :=
  fun s => Some (evaluateExpression s).

(** The tokens are tested in the order of the loop; this is the case each
    token falls in. *)
Inductive tokenCase (token : string) : Prop :=
| caseNumber : isNumber token = true -> tokenCase token
| caseFunction : isNumber token = false -> isFunction token = true -> tokenCase token
| caseOperator : isNumber token = false -> isFunction token = false ->
                 isOperator token = true -> tokenCase token
| caseLeft : isNumber token = false -> isFunction token = false ->
             isOperator token = false -> token = leftParen -> tokenCase token
| caseRight : isNumber token = false -> isFunction token = false ->
              isOperator token = false -> String.eqb token leftParen = false ->
              token = rightParen -> tokenCase token
| caseInvalid : validToken token = false -> tokenCase token.

(** One turn of the loop of [infixToPostfix] on [token], from the output
    [postfix] and the stack [stack]: the output and the stack after it, or
    the error it returns. *)
Inductive loopStep (token : string) (postfix stack : list string)
  : result (list string * list string) -> Prop :=
| stepNumber :
    isNumber token = true ->
    loopStep token postfix stack (Ok (postfix ++ [token], stack))
| stepFunction :
    isNumber token = false -> isFunction token = true ->
    loopStep token postfix stack (Ok (postfix, token :: stack))
| stepOperator (popped rest : list string) :
    isNumber token = false -> isOperator token = true ->
    stack = popped ++ rest -> noLeftParen popped ->
    loopStep token postfix stack (Ok (postfix ++ popped, token :: rest))
| stepLeftParen :
    token = leftParen ->
    loopStep token postfix stack (Ok (postfix, token :: stack))
| stepRightParenCall (popped rest : list string) (top : string) :
    token = rightParen ->
    stack = popped ++ leftParen :: top :: rest -> noLeftParen popped ->
    isFunction top = true ->
    loopStep token postfix stack (Ok ((postfix ++ popped) ++ [top], rest))
| stepRightParen (popped rest : list string) :
    token = rightParen ->
    stack = popped ++ leftParen :: rest -> noLeftParen popped ->
    loopStep token postfix stack (Ok (postfix ++ popped, rest))
| stepRightParenAlone :
    token = rightParen -> noLeftParen stack ->
    loopStep token postfix stack (Err errMismatchedParens)
| stepInvalid :
    validToken token = false ->
    loopStep token postfix stack (Err (errInvalidToken token)).

(** ** Tokens, expressions and counts *)

(** The last two stages of [evaluateExpression], from the tokens on. *)
Definition evaluateTokens {M : MathLib} (recur : string -> option (result float))
           (tokens : list string) : option (result float) :=
  match infixToPostfix tokens with
  | Err e => Some (Err e)
  | Ok postfix => evaluatePostfix recur postfix
  end.

(** An expression: a number, a call of a function on an expression, or an
    operator between two expressions. *)
Inductive expr : Type :=
| Num (t : string)
| Call (funcName : string) (arg : expr)
| Bin (op : string) (l r : expr).

(** An operand is written as it is when it is a number, and in parentheses
    otherwise. *)
Definition operandText (e : expr) (s : string) : string :=
  match e with
  | Num _ => s
  | _ => ("(" ++ s ++ ")")%string
  end.

Fixpoint exprText (e : expr) : string :=
  match e with
  | Num t => t
  | Call funcName arg => callText funcName (exprText arg)
  | Bin op l r => (operandText l (exprText l) ++ op ++ operandText r (exprText r))%string
  end.

Definition operandTokens (e : expr) (tokens : list string) : list string :=
  match e with
  | Num _ => tokens
  | _ => leftParen :: tokens ++ [rightParen]
  end.

Fixpoint exprTokens (e : expr) : list string :=
  match e with
  | Num t => [t]
  | Call funcName arg => [callText funcName (exprText arg)]
  | Bin op l r => operandTokens l (exprTokens l) ++ [op] ++ operandTokens r (exprTokens r)
  end.

Fixpoint exprPostfix (e : expr) : list string :=
  match e with
  | Num t => [t]
  | Call funcName arg => [callText funcName (exprText arg)]
  | Bin op l r => exprPostfix l ++ exprPostfix r ++ [op]
  end.

Fixpoint exprWellFormed (e : expr) : bool :=
  match e with
  | Num t => isNumber t
  | Call funcName arg =>
      existsb (String.eqb funcName) functionNames && exprWellFormed arg
  | Bin op l r => isOperator op && exprWellFormed l && exprWellFormed r
  end.

(** The value of an expression, from the values of its parts. *)
Fixpoint exprValue {M : MathLib} (e : expr) : result float :=
  match e with
  | Num t =>
      match strconv.ParseFloat t with
      | Some v => Ok v
      | None => Err (errInvalidToken t)
      end
  | Call funcName arg =>
      match exprValue arg, mathFunction funcName with
      | Ok v, Some f => Ok (f v)
      | Ok _, None => Err (errUnsupportedFunction funcName)
      | Err _, _ => Err (errInvalidFunctionArgument (exprText arg))
      end
  | Bin op l r =>
      a <- exprValue l ;; b <- exprValue r ;; applyOperator op a b
  end.

(** A number or a call: a token that puts a value on the stack. *)
Definition isOperand (token : string) : bool := isNumber token || isFunction token.

Definition operandCount (tokens : list string) : nat :=
  List.length (filter isOperand tokens).

Definition operatorCount (tokens : list string) : nat :=
  List.length (filter isOperator tokens).

(** ** The reads of [Run] *)

(** The reader after [n] reads. *)
Fixpoint readerAfter {C : Console} (n : nat) (reader : Reader) : Reader :=
  match n with
  | O => reader
  | S n' => readerAfter n' (snd (ReadString_newline reader))
  end.

(** The next read gives the exit command. *)
Definition readsExit {C : Console} (reader : Reader) : bool :=
  match ReadString_newline reader with
  | (input, None, _) => String.eqb (strings_ToLower (strings_TrimSpace input)) exitCommand
  | (_, Some _, _) => false
  end.

(** *** A console for the examples: the reader over a finite input, the two
    [strings] functions on ASCII text, and the [%f] format. *)

(** A read gives the bytes up to the first newline, the newline included;
    when there is none, what is left and the error [EOF]. *)
Definition readLine (stdin : string) : string * option string * string :=
  match Str.cut (ascii_of_nat 10) stdin with
  | Some (before, after) => ((before ++ newline)%string, None, after)
  | None => (stdin, Some "EOF", "")
  end.

Definition isSpaceByte (c : ascii) : bool :=
  let n := nat_of_ascii c in
  ((9 <=? n)%nat && (n <=? 13)%nat) || (n =? 32)%nat.

Fixpoint trimLeft (s : string) : string :=
  match s with
  | String c s' => if isSpaceByte c then trimLeft s' else s
  | EmptyString => EmptyString
  end.

Fixpoint trimRight (s : string) : string :=
  match s with
  | EmptyString => EmptyString
  | String c s' =>
      match trimRight s' with
      | EmptyString => if isSpaceByte c then EmptyString else String c EmptyString
      | t => String c t
      end
  end.

Fixpoint lowerCase (s : string) : string :=
  match s with
  | EmptyString => EmptyString
  | String c s' =>
      let n := nat_of_ascii c in
      String (if (65 <=? n)%nat && (n <=? 90)%nat then ascii_of_nat (n + 32) else c)
             (lowerCase s')
  end.

Fixpoint decimalDigits (fuel : nat) (n : Z) (acc : string) : string :=
  match fuel with
  | O => acc
  | S fuel' =>
      let acc' := String (ascii_of_nat (48 + Z.to_nat (n mod 10))) acc in
      if (n <? 10)%Z then acc' else decimalDigits fuel' (n / 10) acc'
  end.

Definition decimalOf (n : Z) : string :=
  decimalDigits (S (Z.to_nat (Z.log2 n))) n "".

(** The decimal notation with six digits after the point of the float
    nearest to it, ties to even. *)
Definition sixDecimals (x : float) : string :=
  match Prim2SF x with
  | S754_nan => "NaN"
  | S754_infinity false => "+Inf"
  | S754_infinity true => "-Inf"
  | S754_zero s => ((if s then "-" else "") ++ "0.000000")%string
  | S754_finite s m e =>
      let scaled := (Zpos m * 1000000)%Z in
      let q := if (0 <=? e)%Z then (scaled * 2 ^ e)%Z
               else strconv.div_nearest_even scaled (2 ^ (- e)) in
      ((if s then "-" else "") ++ decimalOf (q / 1000000) ++ "."
       ++ Str.drop 1 (decimalOf (1000000 + q mod 1000000)))%string
  end.

#[export] Instance SampleConsole : Console := {|
  Reader := string;
  ReadString_newline := readLine;
  strings_TrimSpace := fun s => trimRight (trimLeft s);
  strings_ToLower := lowerCase;
  fmt_f := sixDecimals
|}.

(** * Properties *)

(** ** The models on samples *)

Example ParseFloat_samples :
  strconv.ParseFloat "0.1" = Some 0x1.999999999999ap-4%float /\
  strconv.ParseFloat "3.14" = Some 0x1.91eb851eb851fp+1%float /\
  strconv.ParseFloat "512" = Some 512%float /\
  strconv.ParseFloat "1." = Some 1%float /\
  strconv.ParseFloat ".5" = Some 0.5%float /\
  strconv.ParseFloat "0" = Some 0%float /\
  strconv.ParseFloat "9007199254740993" = Some 9007199254740992%float /\
  strconv.ParseFloat "9007199254740995" = Some 9007199254740996%float /\
  strconv.ParseFloat (powerOfTen 308) = Some 0x1.1ccf385ebc8ap+1023%float /\
  strconv.ParseFloat (powerOfTen 309) = None /\
  strconv.ParseFloat "." = None /\
  strconv.ParseFloat "1.2.3" = None /\
  strconv.ParseFloat "" = None /\
  strconv.ParseFloat "+" = None /\
  strconv.ParseFloat "sin(0)" = None.
Proof. repeat split; vm_compute; reflexivity. Qed.

Example tokenize_samples :
  tokenize "sqrt(sin(0)+1)" = Ok ["sqrt(sin(0)+1)"] /\
  tokenize "sin(0)+1" = Ok ["sin(0)"; "+"; "1"] /\
  tokenize "3+5*(2-4)" = Ok ["3"; "+"; "5"; "*"; "("; "2"; "-"; "4"; ")"] /\
  tokenize "12.5/sin(3" = Err errUnmatchedFunctionParens /\
  tokenize "2x" = Err (errInvalidCharacter "x").
Proof. repeat split; vm_compute; reflexivity. Qed.

Example evaluateExpression_samples :
  evaluateExpression (M := SampleMath) "3 + 5 * (2 - 4)" = Ok (-7)%float /\
  evaluateExpression (M := SampleMath) "sqrt(16)/4" = Err errInsufficientValues /\
  evaluateExpression (M := SampleMath) "4/sqrt(16)" = Ok 1%float /\
  evaluateExpression (M := SampleMath) "" = Err errEvaluatingExpression /\
  evaluateExpression (M := SampleMath) "-5+3" = Err errInsufficientValues.
Proof. repeat split; vm_compute; reflexivity. Qed.

(** ** Strings *)

Lemma append_assoc (a b c : string) : ((a ++ b) ++ c = a ++ (b ++ c))%string.
Proof. induction a as [|x a IH]; simpl; [reflexivity | now rewrite IH]. Qed.

Lemma append_empty_r (a : string) : (a ++ "")%string = a.
Proof. induction a as [|x a IH]; simpl; [reflexivity | now rewrite IH]. Qed.

Lemma append_length (a b : string) :
  String.length (a ++ b)%string = String.length a + String.length b.
Proof. induction a as [|x a IH]; simpl; [reflexivity | now rewrite IH]. Qed.

Lemma take_drop (n : nat) (s : string) : (Str.take n s ++ Str.drop n s)%string = s.
Proof.
  revert s; induction n as [|n IH]; intros [|c s]; simpl; try reflexivity.
  now rewrite IH.
Qed.

Lemma concatTokens_app (l1 l2 : list string) :
  concatTokens (l1 ++ l2) = (concatTokens l1 ++ concatTokens l2)%string.
Proof.
  induction l1 as [|t l1 IH]; simpl; [reflexivity|].
  now rewrite IH, append_assoc.
Qed.

Lemma concatTokens_flushNumber (number : string) (tokens : list string) :
  concatTokens (flushNumber number tokens) = (concatTokens tokens ++ number)%string.
Proof.
  unfold flushNumber. destruct number as [|c number]; simpl.
  - now rewrite append_empty_r.
  - rewrite concatTokens_app. simpl. now rewrite append_empty_r.
Qed.

Lemma isOperatorOrParen_char (s : string) :
  isOperatorOrParen s = true ->
  In s [addOperator; subtractOperator; multiplyOperator; divideOperator;
        powerOperator; leftParen; rightParen].
Proof.
  unfold isOperatorOrParen. rewrite !orb_true_iff, !String.eqb_eq. simpl.
  intuition auto.
Qed.

Lemma string_of_rune_operator (c : ascii) :
  isOperatorOrParen (string_of_rune c) = true -> string_of_rune c = Str.of_char c.
Proof.
  intros H. unfold string_of_rune in *.
  destruct (nat_of_ascii c <? 128)%nat; [reflexivity|].
  apply isOperatorOrParen_char in H. simpl in H.
  repeat (destruct H as [H|H]; [discriminate H|]). contradiction.
Qed.

(** ** The tokenizer keeps every byte *)

Lemma tokenize_loop_concat (rest number : string) (tokens res : list string) :
  tokenize_loop rest number tokens = Ok res ->
  concatTokens res = (concatTokens tokens ++ number ++ rest)%string.
Proof.
  funelim (tokenize_loop rest number tokens); intros Hres.
  all: try rewrite <- Heqcall in Hres.
  - injection Hres as <-. rewrite concatTokens_flushNumber.
    now rewrite append_empty_r.
  - rewrite (H _ Hres), !append_assoc. reflexivity.
  - rewrite (H _ Hres), concatTokens_app, concatTokens_flushNumber.
    rewrite (string_of_rune_operator _ Heq). simpl.
    rewrite !append_assoc. reflexivity.
  - discriminate Hres.
  - rewrite (H _ Hres), concatTokens_app, concatTokens_flushNumber.
    cbn [concatTokens fold_right String.append].
    rewrite append_empty_r, !append_assoc, take_drop. reflexivity.
  - discriminate Hres.
Qed.

(** C10.  Whenever [tokenize] succeeds, its tokens joined in order are the
    input string: tokenization drops, repeats and reorders no byte. *)
Theorem tokenize_concat (input : string) (tokens : list string) :
  tokenize input = Ok tokens -> concatTokens tokens = input.
Proof.
  intros H. apply tokenize_loop_concat in H. exact H.
Qed.

Lemma tokenize_concat_witness :
  tokenize "3+sqrt(4)*2.5" = Ok ["3"; "+"; "sqrt(4)"; "*"; "2.5"] /\
  concatTokens ["3"; "+"; "sqrt(4)"; "*"; "2.5"] = "3+sqrt(4)*2.5".
Proof.
  split; [vm_compute; reflexivity|].
  apply (tokenize_concat "3+sqrt(4)*2.5"). vm_compute. reflexivity.
Defined.

(** ** The tokenizer, one step at a time *)

Lemma tokenize_loop_cases (rest number : string) (tokens : list string) :
  tokenize_loop rest number tokens =
  match rest with
  | EmptyString => Ok (flushNumber number tokens)
  | String char rest' =>
      if isNumberChar char then tokenize_loop rest' (number ++ Str.of_char char) tokens
      else if isOperatorOrParen (string_of_rune char)
           then tokenize_loop rest' "" (flushNumber number tokens ++ [string_of_rune char])
           else tokenize_call rest (flushNumber number tokens)
  end.
Proof.
  funelim (tokenize_loop rest number tokens); unfold isNumberChar, tokenize_call;
    try rewrite Heq0; try rewrite Heq; try reflexivity.
  all: try match goal with E : functionRegex_FindString _ = _ |- _ => rewrite E end.
  all: try match goal with E : scanParens _ _ _ = _ |- _ => rewrite E end.
  all: reflexivity.
Qed.

Lemma tokenize_loop_step (char : ascii) (rest' number : string) (tokens : list string) :
  tokenize_loop (String char rest') number tokens =
  if isNumberChar char then tokenize_loop rest' (number ++ Str.of_char char) tokens
  else if isOperatorOrParen (string_of_rune char)
       then tokenize_loop rest' "" (flushNumber number tokens ++ [string_of_rune char])
       else tokenize_call (String char rest') (flushNumber number tokens).
Proof. apply (tokenize_loop_cases (String char rest')). Qed.

Lemma tokenize_loop_empty (number : string) (tokens : list string) :
  tokenize_loop "" number tokens = Ok (flushNumber number tokens).
Proof. apply (tokenize_loop_cases ""). Qed.

Lemma flushNumber_app (number : string) (pre tokens : list string) :
  flushNumber number (pre ++ tokens) = pre ++ flushNumber number tokens.
Proof.
  unfold flushNumber. destruct (0 <? String.length number)%nat; [|reflexivity].
  now rewrite app_assoc.
Qed.

(** The tokens already emitted are only ever appended to. *)
Lemma tokenize_loop_prefix (pre : list string) (rest number : string) (tokens : list string) :
  tokenize_loop rest number (pre ++ tokens) =
  mapResult (app pre) (tokenize_loop rest number tokens).
Proof.
  funelim (tokenize_loop rest number tokens);
    rewrite (tokenize_loop_cases _ number (pre ++ tokens));
    unfold isNumberChar, tokenize_call;
    try rewrite Heq0; try rewrite Heq; rewrite ?flushNumber_app.
  all: try match goal with E : functionRegex_FindString _ = _ |- _ => rewrite E end.
  all: try match goal with E : scanParens _ _ _ = _ |- _ => rewrite E end.
  all: try reflexivity.
  - apply H.
  - rewrite <- app_assoc. apply H.
  - rewrite <- app_assoc. apply H.
Qed.

Lemma tokenize_loop_from (rest number : string) (tokens : list string) :
  tokenize_loop rest number tokens =
  mapResult (app tokens) (tokenize_loop rest number []).
Proof.
  rewrite <- (tokenize_loop_prefix tokens rest number []).
  now rewrite app_nil_r.
Qed.

(** A run of digits and points is accumulated into the number buffer. *)
Lemma tokenize_loop_number (num rest number : string) (tokens : list string) :
  Str.forallb isNumberChar num = true ->
  tokenize_loop (num ++ rest) number tokens =
  tokenize_loop rest (number ++ num) tokens.
Proof.
  revert number. induction num as [|c num IH]; simpl; intros number Hnum.
  - now rewrite append_empty_r.
  - apply andb_true_iff in Hnum as [Hc Hnum].
    rewrite tokenize_loop_step, Hc, (IH _ Hnum), append_assoc. reflexivity.
Qed.

(** At such a place a pending number becomes a token. *)
Lemma tokenize_loop_flush (rest number : string) (tokens : list string) :
  startsOther rest = true ->
  tokenize_loop rest number tokens = tokenize_loop rest "" (flushNumber number tokens).
Proof.
  destruct rest as [|c rest]; simpl; intros Hc.
  - rewrite !tokenize_loop_empty. reflexivity.
  - apply negb_true_iff in Hc. rewrite !tokenize_loop_step, Hc. reflexivity.
Qed.

Lemma tokenize_number_first (num rest : string) :
  isNumberRun num = true -> startsOther rest = true ->
  tokenize (num ++ rest) = mapResult (cons num) (tokenize rest).
Proof.
  unfold isNumberRun, tokenize. intros [Hnum Hlen]%andb_true_iff Hrest.
  rewrite (tokenize_loop_number _ _ _ _ Hnum). simpl.
  rewrite (tokenize_loop_flush _ _ _ Hrest). unfold flushNumber. rewrite Hlen.
  apply (tokenize_loop_from rest "" [num]).
Qed.

Lemma tokenize_operator_first (c : ascii) (rest : string) :
  isOperatorOrParen (Str.of_char c) = true ->
  tokenize (String c rest) = mapResult (cons (Str.of_char c)) (tokenize rest).
Proof.
  intros Hop. unfold tokenize.
  assert (Hrune : string_of_rune c = Str.of_char c).
  { apply isOperatorOrParen_char in Hop. simpl in Hop. unfold Str.of_char in Hop.
    repeat (destruct Hop as [Hop|Hop]; [injection Hop as <-; reflexivity|]).
    contradiction. }
  assert (Hnot : isNumberChar c = false).
  { apply isOperatorOrParen_char in Hop. simpl in Hop. unfold Str.of_char in Hop.
    repeat (destruct Hop as [Hop|Hop]; [injection Hop as <-; reflexivity|]).
    contradiction. }
  rewrite tokenize_loop_step, Hnot, Hrune, Hop. simpl.
  apply (tokenize_loop_from rest "" [Str.of_char c]).
Qed.

(** C6.  A leading '-' gets no unary treatment, and [tokenize] succeeds on
    such an input only when it does on what follows the number.  For every
    input that is a '-', a number and a remainder, the result is that of the
    remainder with the operator token "-" and the number token in front: the
    tokens "-", the number and those of the remainder when the remainder has
    tokens (as on "-5+3"), and the error of the remainder when it has none
    (as on "-5x").  The '-' of [a-num...] between two operands yields the
    same two tokens. *)
Theorem tokenize_leading_minus (num rest : string) :
  isNumberRun num = true -> startsOther rest = true ->
  tokenize ("-" ++ num ++ rest)
  = mapResult (fun ts => subtractOperator :: num :: ts) (tokenize rest)
  /\ (forall ts, tokenize rest = Ok ts ->
      tokenize ("-" ++ num ++ rest) = Ok (subtractOperator :: num :: ts))
  /\ (forall e, tokenize rest = Err e -> tokenize ("-" ++ num ++ rest) = Err e)
  /\ (forall a : string, isNumberRun a = true ->
      tokenize (a ++ "-" ++ num ++ rest)
      = mapResult (fun ts => a :: subtractOperator :: num :: ts) (tokenize rest))
  /\ isOperator subtractOperator = true
  /\ tokenize "-5+3" = Ok [subtractOperator; "5"; addOperator; "3"].
Proof.
  intros Hnum Hrest.
  assert (Hminus : tokenize ("-" ++ num ++ rest)
                   = mapResult (fun ts => subtractOperator :: num :: ts) (tokenize rest)).
  { change ("-" ++ num ++ rest)%string with (String "-" (num ++ rest)).
    rewrite (tokenize_operator_first "-") by reflexivity.
    rewrite (tokenize_number_first _ _ Hnum Hrest).
    destruct (tokenize rest); reflexivity. }
  split; [exact Hminus|].
  split; [intros ts Hts; now rewrite Hminus, Hts|].
  split; [intros e He; now rewrite Hminus, He|].
  split; [|split; vm_compute; reflexivity].
  intros a Ha.
  rewrite (tokenize_number_first a ("-" ++ num ++ rest) Ha) by reflexivity.
  rewrite Hminus. destruct (tokenize rest); reflexivity.
Qed.

Lemma tokenize_leading_minus_witness :
  isNumberRun "5" = true /\ startsOther "+3" = true
  /\ tokenize ("-" ++ "5" ++ "+3") = Ok [subtractOperator; "5"; addOperator; "3"].
Proof.
  assert (Hnum : isNumberRun "5" = true) by (vm_compute; reflexivity).
  assert (Hrest : startsOther "+3" = true) by (vm_compute; reflexivity).
  assert (Hts : tokenize "+3" = Ok [addOperator; "3"]) by (vm_compute; reflexivity).
  destruct (tokenize_leading_minus "5" "+3" Hnum Hrest) as (_ & Hok & _).
  exact (conj Hnum (conj Hrest (Hok _ Hts))).
Defined.

(** Where the remainder has no tokens the input has none, whatever its
    first two tokens would be: a '-' and a number at the start do not make
    [tokenize] succeed. *)
Lemma tokenize_leading_minus_counterexample :
  isNumberRun "5" = true
  /\ startsOther "x" = true
  /\ tokenize ("-" ++ "5" ++ "x") = Err (errInvalidCharacter "x")
  /\ startsOther "+sin(" = true
  /\ tokenize ("-" ++ "5" ++ "+sin(") = Err errUnmatchedFunctionParens.
Proof.
  split; [vm_compute; reflexivity|]. split; [vm_compute; reflexivity|].
  split; [vm_compute; reflexivity|]. split; vm_compute; reflexivity.
Qed.

(** ** The recursion through function arguments *)

Lemma cut_length (sep : ascii) (s before after : string) :
  Str.cut sep s = Some (before, after) ->
  s = (before ++ String sep after)%string.
Proof.
  revert before. induction s as [|c s IH]; simpl; intros before H; [discriminate|].
  destruct (Ascii.eqb_spec c sep) as [->|Hne].
  - injection H as <- <-. reflexivity.
  - destruct (Str.cut sep s) as [[b a]|]; [|discriminate].
    injection H as <- <-. simpl. now rewrite (IH b eq_refl).
Qed.

Lemma unsnoc_append (s init : string) (c : ascii) :
  Str.unsnoc s = Some (init, c) -> s = (init ++ Str.of_char c)%string.
Proof.
  revert init. induction s as [|x s IH]; simpl; intros init H; [discriminate|].
  destruct (Str.unsnoc s) as [[i l]|] eqn:E.
  - injection H as <- <-. simpl. now rewrite (IH i eq_refl).
  - injection H as <- <-. destruct s; [reflexivity|].
    simpl in E. destruct (Str.unsnoc s) as [[? ?]|]; discriminate.
Qed.

Lemma TrimSuffix_length (s : string) :
  String.length (strings_TrimSuffix_paren s) <= String.length s.
Proof.
  unfold strings_TrimSuffix_paren.
  destruct (Str.unsnoc s) as [[init c]|] eqn:E; [|lia].
  destruct (Ascii.eqb c ")"); [|lia].
  apply unsnoc_append in E. subst s. rewrite append_length. lia.
Qed.

(** The argument that [evaluateFunction] evaluates is shorter than the token. *)
Lemma argument_shorter (token funcName after : string) :
  strings_SplitN_paren_2 token = inr (funcName, after) ->
  String.length (strings_TrimSuffix_paren after) < String.length token.
Proof.
  unfold strings_SplitN_paren_2. intros H.
  destruct (Str.cut "(" token) as [[b a]|] eqn:E; [|discriminate].
  injection H as -> ->. apply cut_length in E. subst token.
  pose proof (TrimSuffix_length after). rewrite append_length. simpl. lia.
Qed.

Lemma concatTokens_length (tokens : list string) :
  Forall (fun t => String.length t <= String.length (concatTokens tokens)) tokens.
Proof.
  induction tokens as [|t tokens IH]; constructor; simpl.
  - rewrite append_length. lia.
  - eapply Forall_impl; [|exact IH]. simpl. intros a Ha.
    rewrite append_length. lia.
Qed.

Lemma tokenize_length (input : string) (tokens : list string) :
  tokenize input = Ok tokens ->
  Forall (fun t => String.length t <= String.length input) tokens.
Proof.
  intros H. apply tokenize_loop_concat in H. simpl in H. subst input.
  apply concatTokens_length.
Qed.

Lemma filter_length (p : ascii -> bool) (s : string) :
  String.length (Str.filter p s) <= String.length s.
Proof.
  induction s as [|c s IH]; simpl; [lia|]. destruct (p c); simpl; lia.
Qed.

Lemma isSubstring_trans (a b c : string) :
  isSubstring a b -> isSubstring b c -> isSubstring a c.
Proof.
  intros (p & q & ->) (p' & q' & ->). exists (p' ++ p)%string, (q ++ q')%string.
  now rewrite !append_assoc.
Qed.

Lemma concatTokens_substring (tokens : list string) :
  Forall (fun t => isSubstring t (concatTokens tokens)) tokens.
Proof.
  induction tokens as [|t tokens IH]; constructor; simpl.
  - exists "", (concatTokens tokens). reflexivity.
  - eapply Forall_impl; [|exact IH]. simpl. intros a (p & q & Ha).
    exists (t ++ p)%string, q. now rewrite Ha, append_assoc.
Qed.

(** The argument that [evaluateFunction] evaluates is a part of the token. *)
Lemma argument_substring (token funcName after : string) :
  strings_SplitN_paren_2 token = inr (funcName, after) ->
  isSubstring (strings_TrimSuffix_paren after) token.
Proof.
  unfold strings_SplitN_paren_2. intros H.
  destruct (Str.cut "(" token) as [[b a]|] eqn:E; [|discriminate].
  injection H as -> ->. apply cut_length in E. subst token.
  apply (isSubstring_trans _ after).
  - unfold strings_TrimSuffix_paren.
    destruct (Str.unsnoc after) as [[init c]|] eqn:Eu.
    + destruct (Ascii.eqb c ")").
      * apply unsnoc_append in Eu. subst after. exists "", (Str.of_char c). reflexivity.
      * exists "", "". simpl. now rewrite append_empty_r.
    + exists "", "". simpl. now rewrite append_empty_r.
  - exists (funcName ++ "(")%string, "".
    now rewrite append_empty_r, append_assoc.
Qed.

(** *** The converter only moves tokens *)

Section Moves.

Variable P : string -> Prop.

Lemma popOperators_Forall (token : string) (postfix stack : list string) :
  Forall P postfix -> Forall P stack ->
  Forall P (fst (popOperators token postfix stack))
  /\ Forall P (snd (popOperators token postfix stack)).
Proof.
  revert postfix. induction stack as [|top stack IH]; simpl; intros postfix Hp Hs.
  - split; assumption.
  - inversion Hs; subst.
    destruct (_ && _); [|split; assumption].
    apply IH; [|assumption]. apply Forall_app. split; [assumption|].
    constructor; [assumption|constructor].
Qed.

Lemma popToLeftParen_Forall (postfix stack : list string) :
  Forall P postfix -> Forall P stack ->
  Forall P (fst (popToLeftParen postfix stack))
  /\ Forall P (snd (popToLeftParen postfix stack)).
Proof.
  revert postfix. induction stack as [|top stack IH]; simpl; intros postfix Hp Hs.
  - split; assumption.
  - inversion Hs; subst.
    destruct (negb _); [|split; assumption].
    apply IH; [|assumption]. apply Forall_app. split; [assumption|].
    constructor; [assumption|constructor].
Qed.

Lemma infixToPostfix_loop_Forall (tokens postfix stack : list string)
      (ps : list string * list string) :
  Forall P tokens -> Forall P postfix -> Forall P stack ->
  infixToPostfix_loop tokens postfix stack = Ok ps ->
  Forall P (fst ps) /\ Forall P (snd ps).
Proof.
  revert postfix stack.
  induction tokens as [|token tokens IH]; simpl; intros postfix stack Ht Hp Hs H.
  - injection H as <-. split; assumption.
  - inversion Ht as [|? ? Htoken Htokens]; subst.
    assert (Hsnoc : forall l x, Forall P l -> P x -> Forall P (l ++ [x])).
    { intros l x Hl Hx. apply Forall_app. split; [assumption|].
      constructor; [assumption|constructor]. }
    destruct (isNumber token); [refine (IH _ _ Htokens _ _ H); auto|].
    destruct (isFunction token); [refine (IH _ _ Htokens _ _ H); auto|].
    destruct (isOperator token).
    { pose proof (popOperators_Forall token postfix stack Hp Hs) as [H1 H2].
      destruct (popOperators token postfix stack) as [postfix' stack'].
      refine (IH _ _ Htokens _ _ H); auto. }
    destruct (String.eqb token leftParen); [refine (IH _ _ Htokens _ _ H); auto|].
    destruct (String.eqb token rightParen); [|discriminate].
    pose proof (popToLeftParen_Forall postfix stack Hp Hs) as [H1 H2].
    destruct (popToLeftParen postfix stack) as [postfix' stack']. simpl in H1, H2.
    destruct stack' as [|paren [|top stack']]; [discriminate| |].
    + refine (IH _ _ Htokens _ _ H); auto.
    + inversion H2 as [|? ? _ H3]; subst. inversion H3; subst.
      destruct (isFunction top); refine (IH _ _ Htokens _ _ H); auto.
Qed.

Lemma drainStack_Forall (postfix stack res : list string) :
  Forall P postfix -> Forall P stack ->
  drainStack postfix stack = Ok res -> Forall P res.
Proof.
  revert postfix. induction stack as [|top stack IH]; simpl; intros postfix Hp Hs H.
  - injection H as <-. assumption.
  - inversion Hs; subst. destruct (String.eqb top leftParen); [discriminate|].
    refine (IH _ _ _ H); [|assumption]. apply Forall_app. split; [assumption|].
    constructor; [assumption|constructor].
Qed.

(** Every token of the postfix sequence is a token of the input. *)
Lemma infixToPostfix_Forall (tokens postfix : list string) :
  Forall P tokens -> infixToPostfix tokens = Ok postfix -> Forall P postfix.
Proof.
  unfold infixToPostfix. intros Ht H.
  destruct (infixToPostfix_loop tokens [] []) as [ps|] eqn:E; [|discriminate].
  simpl in H.
  destruct (infixToPostfix_loop_Forall tokens [] [] ps Ht (Forall_nil _) (Forall_nil _) E)
    as [Hp Hs].
  exact (drainStack_Forall _ _ _ Hp Hs H).
Qed.

End Moves.

(** *** The bound on the depth is never reached *)

Section Termination.

Context {M : MathLib}.

Lemma evaluateFunction_ext (r1 r2 : string -> option (result float)) (token : string) :
  (forall s, String.length s < String.length token -> r1 s = r2 s) ->
  evaluateFunction r1 token = evaluateFunction r2 token.
Proof.
  intros Hr. unfold evaluateFunction.
  destruct (strings_SplitN_paren_2 token) as [|[funcName after]] eqn:E; [reflexivity|].
  simpl. rewrite (Hr _ (argument_shorter _ _ _ E)). reflexivity.
Qed.

Lemma evaluatePostfix_loop_ext (r1 r2 : string -> option (result float)) (n : nat)
      (tokens : list string) (stack : list float) :
  (forall s, String.length s < n -> r1 s = r2 s) ->
  Forall (fun t => String.length t <= n) tokens ->
  evaluatePostfix_loop r1 tokens stack = evaluatePostfix_loop r2 tokens stack.
Proof.
  intros Hr Ht. revert stack.
  induction Ht as [|token tokens Hlen _ IH]; intros stack; simpl; [reflexivity|].
  rewrite (evaluateFunction_ext r1 r2 token) by (intros s Hs; apply Hr; lia).
  repeat match goal with
         | |- context [match ?x with _ => _ end] => destruct x; try reflexivity
         end; apply IH.
Qed.

Lemma evaluateExpression_body_ext (r1 r2 : string -> option (result float)) (input : string) :
  (forall s, String.length s < String.length input -> r1 s = r2 s) ->
  evaluateExpression_body r1 input = evaluateExpression_body r2 input.
Proof.
  intros Hr. unfold evaluateExpression_body, evaluatePostfix.
  destruct (tokenize _) as [tokens|] eqn:Et; [|reflexivity].
  destruct (infixToPostfix tokens) as [postfix|] eqn:Ep; [|reflexivity].
  rewrite (evaluatePostfix_loop_ext r1 r2 (String.length input) postfix []);
    [reflexivity|exact Hr|].
  apply (infixToPostfix_Forall _ tokens postfix); [|exact Ep].
  eapply Forall_impl; [|exact (tokenize_length _ _ Et)].
  simpl. intros t Hlen. unfold strings_ReplaceAll_space in Hlen.
  pose proof (filter_length (fun c => negb (Ascii.eqb c " ")) input). lia.
Qed.

(** With an evaluator of arguments that always answers, so do the methods. *)
Lemma evaluatePostfix_loop_total (recur : string -> option (result float))
      (tokens : list string) (stack : list float) :
  (forall s, recur s <> None) -> evaluatePostfix_loop recur tokens stack <> None.
Proof.
  intros Hr. revert stack. induction tokens as [|token tokens IH]; intros stack; simpl;
    [discriminate|].
  assert (Hf : evaluateFunction recur token <> None).
  { unfold evaluateFunction.
    destruct (strings_SplitN_paren_2 token) as [|[funcName after]]; [discriminate|].
    simpl. specialize (Hr (strings_TrimSuffix_paren after)).
    destruct (recur _) as [[arg|e]|]; [|discriminate|contradiction].
    repeat match goal with
           | |- context [if ?x then _ else _] => destruct x; try discriminate
           end. }
  repeat match goal with
         | |- context [match ?x with _ => _ end] => destruct x; try discriminate
         end; solve [apply IH | contradiction].
Qed.

Lemma evaluateExpression_body_total (recur : string -> option (result float))
      (input : string) :
  (forall s, recur s <> None) -> evaluateExpression_body recur input <> None.
Proof.
  intros Hr. unfold evaluateExpression_body, evaluatePostfix.
  destruct (tokenize _); [|discriminate].
  destruct (infixToPostfix _) as [postfix|]; [|discriminate].
  pose proof (evaluatePostfix_loop_total recur postfix [] Hr).
  destruct (evaluatePostfix_loop recur postfix []) as [[[|v [|w st]]|e]|];
    solve [discriminate | contradiction].
Qed.

(** Any two bounds above the length of the input give the same answer. *)
Lemma evaluateExpression_fuel_stable (f1 f2 : nat) (input : string) :
  String.length input < f1 -> String.length input < f2 ->
  evaluateExpression_fuel f1 input = evaluateExpression_fuel f2 input.
Proof.
  revert f2 input. induction f1 as [|f1 IH]; intros f2 input H1 H2; [lia|].
  destruct f2 as [|f2]; [lia|]. simpl.
  apply evaluateExpression_body_ext. intros s Hs. apply IH; lia.
Qed.

Lemma evaluateExpression_fuel_total (fuel : nat) (input : string) :
  String.length input < fuel -> evaluateExpression_fuel fuel input <> None.
Proof.
  revert input. induction fuel as [|fuel IH]; intros input Hlen; [lia|]. simpl.
  set (total := fun s => match evaluateExpression_fuel fuel s with
                         | Some r => Some r
                         | None => Some (Err errEvaluatingExpression)
                         end).
  rewrite (evaluateExpression_body_ext _ total).
  - apply evaluateExpression_body_total. intros s. unfold total.
    destruct (evaluateExpression_fuel fuel s); discriminate.
  - intros s Hs. unfold total. specialize (IH s ltac:(lia)).
    destruct (evaluateExpression_fuel fuel s); [reflexivity|contradiction].
Qed.

(** The recursion of [evaluateExpression] terminates: every bound above the
    length of the input gives its result. *)
Lemma evaluateExpression_fuel_enough (fuel : nat) (input : string) :
  String.length input < fuel ->
  evaluateExpression_fuel fuel input = Some (evaluateExpression input).
Proof.
  intros Hlen. unfold evaluateExpression.
  rewrite (evaluateExpression_fuel_stable fuel (S (String.length input))) by lia.
  pose proof (evaluateExpression_fuel_total (S (String.length input)) input ltac:(lia)).
  destruct (evaluateExpression_fuel _ input); [reflexivity|contradiction].
Qed.

(** [evaluateExpression] satisfies the recursive definition of the source:
    its body, with itself as the evaluator of function arguments. *)
Lemma evaluateExpression_unfold (input : string) :
  Some (evaluateExpression input)
  = evaluateExpression_body (fun s => Some (evaluateExpression s)) input.
Proof.
  rewrite <- (evaluateExpression_fuel_enough (S (String.length input))) by lia.
  simpl. apply evaluateExpression_body_ext. intros s Hs.
  apply evaluateExpression_fuel_enough. lia.
Qed.

End Termination.

(** ** Token classes of function calls *)

Lemma prefix_append (p s : string) :
  String.prefix p s = true -> exists rest, s = (p ++ rest)%string.
Proof.
  revert s. induction p as [|c p IH]; intros s H.
  - exists s. reflexivity.
  - destruct s as [|d s]; [discriminate|]. simpl in H.
    destruct (ascii_dec c d) as [->|]; [|discriminate].
    destruct (IH s H) as [rest ->]. exists rest. reflexivity.
Qed.

(** A function token is [name(after] for one of the four names. *)
Lemma isFunction_split (token : string) :
  isFunction token = true ->
  exists funcName after,
    In funcName ["sin"; "cos"; "tan"; "sqrt"]
    /\ token = (funcName ++ "(" ++ after)%string
    /\ strings_SplitN_paren_2 token = inr (funcName, after).
Proof.
  unfold isFunction, strings_HasPrefix. rewrite !orb_true_iff.
  intros [[[H|H]|H]|H]; apply prefix_append in H as [rest ->].
  - exists "sin", rest. simpl. auto.
  - exists "cos", rest. simpl. auto.
  - exists "tan", rest. simpl. auto 6.
  - exists "sqrt", rest. simpl. auto 6.
Qed.

Lemma isFunction_not_number (token : string) :
  isFunction token = true -> isNumber token = false.
Proof.
  intros H. destruct (isFunction_split token H) as (name & after & Hname & -> & _).
  simpl in Hname.
  repeat (destruct Hname as [<-|Hname]; [reflexivity|]). contradiction.
Qed.

(** ** The properties of the specification *)

Lemma float_neq (x y : float) :
  (x =? y)%float = false -> (x =? x)%float = true -> x <> y.
Proof. intros H1 H2 ->. congruence. Qed.

Section Claims.

Context {M : MathLib}.

(** C1.  The code does not evaluate "sqrt(sin(0)+1)" to 1.0.  The inner
    argument "sin(0)+1" tokenizes to [sin(0); +; 1], but the converter
    pushes the function token on the operator stack, so it leaves after the
    operator: the postfix sequence is [1; +; sin(0)], the operator finds a
    single value, and the outer call reports an invalid function argument.
    With the operands the other way round, "sqrt(1+sin(0))", the same
    pipeline returns sqrt(1 + sin 0). *)
Theorem nested_function_after_operator :
  tokenize "sqrt(sin(0)+1)" = Ok ["sqrt(sin(0)+1)"]
  /\ tokenize "sin(0)+1" = Ok ["sin(0)"; "+"; "1"]
  /\ infixToPostfix ["sin(0)"; "+"; "1"] = Ok ["1"; "+"; "sin(0)"]
  /\ evaluateExpression "sin(0)+1" = Err errInsufficientValues
  /\ evaluateExpression "sqrt(sin(0)+1)" = Err (errInvalidFunctionArgument "sin(0)+1")
  /\ infixToPostfix ["1"; "+"; "sin(0)"] = Ok ["1"; "sin(0)"; "+"]
  /\ evaluateExpression "sqrt(1+sin(0))" = Ok (math_Sqrt (1 + math_Sin 0)).
Proof. repeat split; vm_compute; reflexivity. Qed.

(** C3.  The table gives + and - precedence 1, * and / precedence 2, ^
    precedence 3, all left-associative but ^: "2^3^2" becomes the postfix
    sequence [2; 3; 2; ^; ^] and evaluates as 2^(3^2), which is 512 when
    [math.Pow] is exact on these arguments, and not 64; "8-3-2" and "8/4/2"
    group from the left. *)
Theorem power_right_associative :
  math_Pow 3 2 = 9%float -> math_Pow 2 9 = 512%float ->
  map precedence ["+"; "-"; "*"; "/"; "^"] = [1; 1; 2; 2; 3]%Z
  /\ map associativity ["+"; "-"; "*"; "/"; "^"] = ["L"; "L"; "L"; "L"; "R"]
  /\ infixToPostfix ["2"; "^"; "3"; "^"; "2"] = Ok ["2"; "3"; "2"; "^"; "^"]
  /\ evaluateExpression "2^3^2" = Ok (math_Pow 2 (math_Pow 3 2))
  /\ evaluateExpression "2^3^2" = Ok 512%float
  /\ evaluateExpression "2^3^2" <> Ok 64%float
  /\ infixToPostfix ["8"; "-"; "3"; "-"; "2"] = Ok ["8"; "3"; "-"; "2"; "-"]
  /\ evaluateExpression "8-3-2" = Ok 3%float
  /\ evaluateExpression "8/4/2" = Ok 1%float
  /\ evaluateExpression "2+3*4" = Ok 14%float.
Proof.
  intros H32 H29.
  assert (H : evaluateExpression "2^3^2" = Ok (math_Pow 2 (math_Pow 3 2)))
    by (vm_compute; reflexivity).
  repeat split; try (vm_compute; reflexivity); try exact H.
  - rewrite H, H32, H29. reflexivity.
  - rewrite H, H32, H29. intros E.
    apply (f_equal (fun r => match r with Ok v => v | Err _ => 0%float end)) in E.
    revert E. apply float_neq; vm_compute; reflexivity.
Qed.

(** C4.  Division by a right operand equal to zero is the DivisionByZero
    error and no number: [divide] tests the divisor before it divides, the
    postfix evaluator stops at that operator whatever follows, and "5/0"
    fails with that error. *)
Theorem division_by_zero (a b : float) :
  (b =? 0)%float = true ->
  divide a b = Err errDivideByZero
  /\ applyOperator divideOperator a b = Err errDivideByZero
  /\ (forall recur tokens stack,
         evaluatePostfix_loop recur (divideOperator :: tokens) (b :: a :: stack)
         = Some (Err errDivideByZero))
  /\ (forall recur ta tb,
         strconv.ParseFloat ta = Some a -> strconv.ParseFloat tb = Some b ->
         evaluatePostfix recur [ta; tb; divideOperator] = Some (Err errDivideByZero))
  /\ evaluateExpression "5/0" = Err errDivideByZero.
Proof.
  intros Hb.
  assert (Hd : divide a b = Err errDivideByZero) by (unfold divide; now rewrite Hb).
  assert (Ha : applyOperator divideOperator a b = Err errDivideByZero) by exact Hd.
  refine (conj Hd (conj Ha (conj _ (conj _ _)))).
  - intros recur tokens stack.
    change (evaluatePostfix_loop recur (divideOperator :: tokens) (b :: a :: stack))
      with (match applyOperator divideOperator a b with
            | Err e => Some (Err e)
            | Ok r => evaluatePostfix_loop recur tokens (r :: stack)
            end).
    now rewrite Ha.
  - intros recur ta tb Hta Htb. unfold evaluatePostfix. simpl.
    unfold isNumber. rewrite Hta, Htb.
    change (isNumber divideOperator) with false.
    change (isFunction divideOperator) with false.
    change (isOperator divideOperator) with true. cbv iota.
    now rewrite Ha.
  - vm_compute. reflexivity.
Qed.

(** C5.  Unbalanced parentheses are the MismatchedParentheses error in
    both directions.  On "(2+3" the loop over the tokens ends with the left
    parenthesis on the stack, and the final loop fails on it; on "2+3)" the
    right parenthesis pops the stack until it is empty.  So does every
    stack holding a left parenthesis at the end of the input, and every
    right parenthesis over a stack without one. *)
Theorem mismatched_parentheses :
  tokenize "(2+3" = Ok ["("; "2"; "+"; "3"]
  /\ infixToPostfix_loop ["("; "2"; "+"; "3"] [] [] = Ok (["2"; "3"], ["+"; "("])
  /\ infixToPostfix ["("; "2"; "+"; "3"] = Err errMismatchedParens
  /\ evaluateExpression "(2+3" = Err errMismatchedParens
  /\ tokenize "2+3)" = Ok ["2"; "+"; "3"; ")"]
  /\ infixToPostfix_loop ["2"; "+"; "3"] [] [] = Ok (["2"; "3"], ["+"])
  /\ popToLeftParen ["2"; "3"] ["+"] = (["2"; "3"; "+"], [])
  /\ infixToPostfix ["2"; "+"; "3"; ")"] = Err errMismatchedParens
  /\ evaluateExpression "2+3)" = Err errMismatchedParens
  /\ (forall postfix stack, In leftParen stack ->
         drainStack postfix stack = Err errMismatchedParens)
  /\ (forall tokens postfix stack, ~ In leftParen stack ->
         infixToPostfix_loop (rightParen :: tokens) postfix stack
         = Err errMismatchedParens).
Proof.
  do 9 (split; [vm_compute; reflexivity|]). split.
  - intros postfix stack. revert postfix.
    induction stack as [|top stack IH]; intros postfix Hin; [destruct Hin|].
    simpl. destruct (String.eqb_spec top leftParen) as [|Hne]; [reflexivity|].
    apply IH. destruct Hin as [Heq|Hin]; [congruence|assumption].
  - intros tokens postfix stack Hnot.
    change (infixToPostfix_loop (rightParen :: tokens) postfix stack)
      with (let (postfix0, stack0) := popToLeftParen postfix stack in
            match stack0 with
            | [] => Err errMismatchedParens
            | _ :: top :: stack' =>
                if isFunction top
                then infixToPostfix_loop tokens (postfix0 ++ [top]) stack'
                else infixToPostfix_loop tokens postfix0 (top :: stack')
            | [_] => infixToPostfix_loop tokens postfix0 []
            end).
    assert (Hpop : snd (popToLeftParen postfix stack) = []).
    { revert postfix. induction stack as [|top stack IH]; intros postfix; [reflexivity|].
      simpl. destruct (String.eqb_spec top leftParen) as [->|Hne].
      - exfalso. apply Hnot. left. reflexivity.
      - simpl. apply IH. intros Hin. apply Hnot. right. assumption. }
    destruct (popToLeftParen postfix stack) as [postfix0 stack0].
    simpl in Hpop. subst stack0. reflexivity.
Qed.

Lemma isOperator_cases (op : string) :
  isOperator op = true ->
  In op [addOperator; subtractOperator; multiplyOperator; divideOperator; powerOperator].
Proof.
  unfold isOperator. rewrite !andb_true_iff, !negb_true_iff, !String.eqb_neq.
  intros [[H Hl] Hr]. apply isOperatorOrParen_char in H. simpl in *.
  intuition auto.
Qed.

(** C7.  A binary operator pops two values, the first popped as right
    operand and the second as left operand, and pushes the result: after
    the tokens of two numbers x and y, the operator leaves [x op y] on the
    stack it found, where [+ - * ^] are the float operations and [/] is
    [divide].  So [5; 2; -] is 3, [8; 2; /] is 4 and [2; 3; ^] is
    Pow(2, 3), which is 8 when [math.Pow] is exact there; with fewer than
    two values the operator fails. *)
Theorem binary_operator_operands (recur : string -> option (result float))
        (tx ty op : string) (x y : float) (stack : list float) :
  strconv.ParseFloat tx = Some x -> strconv.ParseFloat ty = Some y ->
  isOperator op = true ->
  evaluatePostfix_loop recur [tx; ty; op] stack
  = Some (mapResult (fun r => r :: stack) (applyOperator op x y))
  /\ evaluatePostfix recur [tx; ty; op] = Some (applyOperator op x y)
  /\ applyOperator addOperator x y = Ok (x + y)%float
  /\ applyOperator subtractOperator x y = Ok (x - y)%float
  /\ applyOperator multiplyOperator x y = Ok (x * y)%float
  /\ applyOperator divideOperator x y
     = (if (y =? 0)%float then Err errDivideByZero else Ok (x / y)%float)
  /\ applyOperator powerOperator x y = Ok (math_Pow x y)
  /\ evaluatePostfix recur ["5"; "2"; "-"] = Some (Ok 3%float)
  /\ evaluatePostfix recur ["8"; "2"; "/"] = Some (Ok 4%float)
  /\ evaluatePostfix recur ["2"; "3"; "^"] = Some (Ok (math_Pow 2 3))
  /\ (math_Pow 2 3 = 8%float ->
      evaluatePostfix recur ["2"; "3"; "^"] = Some (Ok 8%float))
  /\ evaluatePostfix_loop recur [op] [] = Some (Err errInsufficientValues)
  /\ evaluatePostfix_loop recur [op] [x] = Some (Err errInsufficientValues).
Proof.
  intros Hx Hy Hop.
  assert (Hloop : forall st, evaluatePostfix_loop recur [tx; ty; op] st
                             = Some (mapResult (fun r => r :: st) (applyOperator op x y))).
  { intros st. simpl. unfold isNumber. rewrite Hx, Hy.
    apply isOperator_cases in Hop. simpl in Hop.
    repeat (destruct Hop as [<-|Hop];
            [change (isNumber ?o) with false; change (isFunction ?o) with false;
             change (isOperator ?o) with true; cbv iota;
             destruct (applyOperator _ x y); reflexivity|]).
    contradiction. }
  split; [apply Hloop|]. split.
  { unfold evaluatePostfix. rewrite Hloop. destruct (applyOperator op x y); reflexivity. }
  do 8 (split; [reflexivity|]).
  split; [intros <-; reflexivity|].
  apply isOperator_cases in Hop. simpl in Hop.
  split; repeat (destruct Hop as [<-|Hop]; [reflexivity|]); contradiction.
Qed.

(** C2, as the code has it.  When the argument of a function token fails to
    evaluate, [evaluateFunction] returns a new error that names the
    argument substring and nothing else; it is the same whatever the
    error of the argument was, and it is what [evaluatePostfix] returns. *)
Theorem function_argument_error (token funcName after : string) (e : error)
        (tokens : list string) (stack : list float) :
  isFunction token = true ->
  strings_SplitN_paren_2 token = inr (funcName, after) ->
  evaluateExpression (strings_TrimSuffix_paren after) = Err e ->
  let recur := fun s => Some (evaluateExpression s) in
  let argStr := strings_TrimSuffix_paren after in
  evaluateFunction recur token = Some (Err (errInvalidFunctionArgument argStr))
  /\ evaluatePostfix_loop recur (token :: tokens) stack
     = Some (Err (errInvalidFunctionArgument argStr))
  /\ Error (errInvalidFunctionArgument argStr)
     = ("invalid function argument: " ++ argStr)%string.
Proof.
  intros Hfun Hsplit Harg recur argStr.
  assert (Hf : evaluateFunction recur token
               = Some (Err (errInvalidFunctionArgument argStr))).
  { unfold evaluateFunction. rewrite Hsplit. unfold recur. simpl.
    rewrite Harg. reflexivity. }
  split; [exact Hf|]. split; [|reflexivity].
  simpl. rewrite (isFunction_not_number _ Hfun), Hfun, Hf. reflexivity.
Qed.

(** C9, as the code has it.  [evaluateExpression] terminates on every
    input: each bound on the depth of the calls above the length of the
    input gives its result, which is a float64 (NaN and the infinities
    included) or an error value; the result satisfies the recursive
    definition of the source; and the argument of every function token of
    the postfix sequence is a substring of the input without its spaces,
    strictly shorter than the input. *)
Theorem evaluateExpression_terminates (input : string) :
  (forall fuel, String.length input < fuel ->
      evaluateExpression_fuel fuel input = Some (evaluateExpression input))
  /\ Some (evaluateExpression input)
     = evaluateExpression_body (fun s => Some (evaluateExpression s)) input
  /\ (forall tokens postfix token funcName after,
         tokenize (strings_ReplaceAll_space input) = Ok tokens ->
         infixToPostfix tokens = Ok postfix ->
         In token postfix ->
         strings_SplitN_paren_2 token = inr (funcName, after) ->
         String.length (strings_TrimSuffix_paren after) < String.length input
         /\ isSubstring (strings_TrimSuffix_paren after) (strings_ReplaceAll_space input))
  /\ ((exists v, evaluateExpression input = Ok v)
      \/ (exists e, evaluateExpression input = Err e)).
Proof.
  split; [intros fuel; apply evaluateExpression_fuel_enough|].
  split; [apply evaluateExpression_unfold|]. split.
  - intros tokens postfix token funcName after Ht Hp Hin Hsplit. split.
    + pose proof (tokenize_length _ _ Ht) as Hlen.
      pose proof (infixToPostfix_Forall _ _ _ Hlen Hp) as Hpost.
      rewrite Forall_forall in Hpost. specialize (Hpost _ Hin). simpl in Hpost.
      pose proof (argument_shorter _ _ _ Hsplit).
      pose proof (filter_length (fun c => negb (Ascii.eqb c " ")) input).
      unfold strings_ReplaceAll_space in Hpost. lia.
    + pose proof (concatTokens_substring tokens) as Hsub.
      pose proof (tokenize_loop_concat _ _ _ _ Ht) as Hcat. simpl in Hcat.
      rewrite Hcat in Hsub.
      pose proof (infixToPostfix_Forall _ _ _ Hsub Hp) as Hpost.
      rewrite Forall_forall in Hpost.
      exact (isSubstring_trans _ _ _ (argument_substring _ _ _ Hsplit) (Hpost _ Hin)).
  - destruct (evaluateExpression input) as [v|e]; [left|right]; eauto.
Qed.

Lemma sqrt_of_negative : evaluateExpression "sqrt(0-1)" = Ok nan.
Proof. vm_compute. reflexivity. Qed.

Lemma argument_error_replaced :
  evaluateExpression "sin(5/0)" = Err (errInvalidFunctionArgument "5/0").
Proof. vm_compute. reflexivity. Qed.

End Claims.

(** ** The hypotheses hold, and where the specification differs *)

Lemma power_right_associative_witness :
  math_Pow (MathLib := SampleMath) 3 2 = 9%float
  /\ math_Pow (MathLib := SampleMath) 2 9 = 512%float
  /\ evaluateExpression (M := SampleMath) "2^3^2" = Ok 512%float.
Proof.
  split; [reflexivity|]. split; [reflexivity|].
  apply (power_right_associative (M := SampleMath)); reflexivity.
Defined.

Lemma division_by_zero_witness :
  (0 =? 0)%float = true
  /\ divide 5 0 = Err errDivideByZero
  /\ evaluateExpression (M := SampleMath) "5/0" = Err errDivideByZero.
Proof.
  split; [reflexivity|].
  split; apply (division_by_zero (M := SampleMath) 5 0); reflexivity.
Defined.

Lemma binary_operator_operands_witness :
  strconv.ParseFloat "5" = Some 5%float
  /\ strconv.ParseFloat "2" = Some 2%float
  /\ isOperator "-" = true
  /\ evaluatePostfix (M := SampleMath) (fun _ => None) ["5"; "2"; "-"]
     = Some (applyOperator "-" 5 2)
  /\ applyOperator (M := SampleMath) subtractOperator 5 2 = Ok (5 - 2)%float
  /\ (math_Pow (MathLib := SampleMath) 2 3 = 8%float ->
      evaluatePostfix (M := SampleMath) (fun _ => None) ["2"; "3"; "^"]
      = Some (Ok 8%float)).
Proof.
  split; [vm_compute; reflexivity|]. split; [vm_compute; reflexivity|].
  split; [reflexivity|].
  destruct (binary_operator_operands (M := SampleMath) (fun _ => None)
              "5" "2" "-" 5 2 [] ltac:(vm_compute; reflexivity)
              ltac:(vm_compute; reflexivity) eq_refl)
    as (_ & Heval & _ & Hsub & _ & _ & _ & _ & _ & _ & Hpow & _).
  exact (conj Heval (conj Hsub Hpow)).
Defined.

Lemma function_argument_error_witness :
  isFunction "sin(5/0)" = true
  /\ strings_SplitN_paren_2 "sin(5/0)" = inr ("sin", "5/0)")
  /\ evaluateExpression (M := SampleMath) "5/0" = Err errDivideByZero
  /\ evaluateFunction (M := SampleMath) (fun s => Some (evaluateExpression s)) "sin(5/0)"
     = Some (Err (errInvalidFunctionArgument "5/0")).
Proof.
  split; [reflexivity|]. split; [reflexivity|]. split; [vm_compute; reflexivity|].
  apply (function_argument_error (M := SampleMath) "sin(5/0)" "sin" "5/0)"
           errDivideByZero [] []); vm_compute; reflexivity.
Defined.

(** C2 as the specification has it fails: the argument "5/0" fails with
    DivisionByZero, and "sin(5/0)" fails with another error, whose message
    holds the argument and no trace of the division. *)
Lemma function_argument_error_counterexample :
  evaluateExpression (M := SampleMath) "5/0" = Err errDivideByZero
  /\ evaluateExpression (M := SampleMath) "sin(5/0)"
     = Err (errInvalidFunctionArgument "5/0")
  /\ evaluateExpression (M := SampleMath) "sin(5/0)" <> Err errDivideByZero
  /\ Error (errInvalidFunctionArgument "5/0") = "invalid function argument: 5/0".
Proof.
  split; [vm_compute; reflexivity|]. split; [apply argument_error_replaced|].
  split; [rewrite argument_error_replaced; discriminate|reflexivity].
Qed.

(** C9 as the specification has it fails on the word "finite": the
    well-formed input "sqrt(0-1)" evaluates to NaN, and the product of 10^200
    with itself to +Inf, both without an error. *)
Lemma nonfinite_result_counterexample :
  tokenize "sqrt(0-1)" = Ok ["sqrt(0-1)"]
  /\ infixToPostfix ["sqrt(0-1)"] = Ok ["sqrt(0-1)"]
  /\ tokenize "0-1" = Ok ["0"; "-"; "1"]
  /\ infixToPostfix ["0"; "-"; "1"] = Ok ["0"; "1"; "-"]
  /\ evaluateExpression (M := SampleMath) "sqrt(0-1)" = Ok nan
  /\ is_finite nan = false
  /\ evaluateExpression (M := SampleMath) (powerOfTen 200 ++ "*" ++ powerOfTen 200)
     = Ok infinity
  /\ is_finite infinity = false.
Proof.
  repeat split; vm_compute; reflexivity.
Qed.

(** ** The converter and the evaluator on flat expressions *)

(** The output is only ever appended to. *)
Lemma popOperators_prefix (token : string) (pre postfix stack : list string) :
  popOperators token (pre ++ postfix) stack =
  (pre ++ fst (popOperators token postfix stack), snd (popOperators token postfix stack)).
Proof.
  revert postfix. induction stack as [|top stack IH]; intros postfix; simpl; [reflexivity|].
  destruct (_ && _); [|reflexivity]. rewrite <- app_assoc. apply IH.
Qed.

Lemma popToLeftParen_prefix (pre postfix stack : list string) :
  popToLeftParen (pre ++ postfix) stack =
  (pre ++ fst (popToLeftParen postfix stack), snd (popToLeftParen postfix stack)).
Proof.
  revert postfix. induction stack as [|top stack IH]; intros postfix; simpl; [reflexivity|].
  destruct (negb _); [|reflexivity]. rewrite <- app_assoc. apply IH.
Qed.

Lemma drainStack_prefix (pre postfix stack : list string) :
  drainStack (pre ++ postfix) stack = mapResult (app pre) (drainStack postfix stack).
Proof.
  revert postfix. induction stack as [|top stack IH]; intros postfix; simpl; [reflexivity|].
  destruct (String.eqb top leftParen); [reflexivity|]. rewrite <- app_assoc. apply IH.
Qed.

Lemma infixToPostfix_loop_prefix (tokens pre postfix stack : list string) :
  infixToPostfix_loop tokens (pre ++ postfix) stack =
  mapResult (fun ps => (pre ++ fst ps, snd ps)) (infixToPostfix_loop tokens postfix stack).
Proof.
  revert postfix stack.
  induction tokens as [|token tokens IH]; intros postfix stack; simpl; [reflexivity|].
  destruct (isNumber token); [rewrite <- app_assoc; apply IH|].
  destruct (isFunction token); [apply IH|].
  destruct (isOperator token).
  { rewrite popOperators_prefix.
    destruct (popOperators token postfix stack) as [p s]. apply IH. }
  destruct (String.eqb token leftParen); [apply IH|].
  destruct (String.eqb token rightParen); [|reflexivity].
  rewrite popToLeftParen_prefix.
  destruct (popToLeftParen postfix stack) as [p s]. simpl.
  destruct s as [|paren [|top s]]; [reflexivity|apply IH|].
  destruct (isFunction top); [rewrite <- app_assoc|]; apply IH.
Qed.

Lemma infixToPostfix_convertFrom (tokens : list string) :
  infixToPostfix tokens = convertFrom tokens [].
Proof. reflexivity. Qed.

Lemma convertFrom_loop (tokens postfix stack : list string) :
  (ps <- infixToPostfix_loop tokens postfix stack ;; drainStack (fst ps) (snd ps))
  = mapResult (app postfix) (convertFrom tokens stack).
Proof.
  unfold convertFrom.
  rewrite <- (app_nil_r postfix) at 1. rewrite infixToPostfix_loop_prefix.
  destruct (infixToPostfix_loop tokens [] stack) as [[p s]|]; simpl; [|reflexivity].
  apply drainStack_prefix.
Qed.

Lemma convertFrom_number (t : string) (tokens stack : list string) :
  isNumber t = true ->
  convertFrom (t :: tokens) stack = mapResult (cons t) (convertFrom tokens stack).
Proof.
  intros Ht. unfold convertFrom at 1. simpl. rewrite Ht.
  apply (convertFrom_loop tokens [t] stack).
Qed.

Lemma convertFrom_operator (o : string) (tokens stack : list string) :
  In o [addOperator; subtractOperator; multiplyOperator; divideOperator] ->
  convertFrom (o :: tokens) stack =
  mapResult (app (fst (popOperators o [] stack)))
    (convertFrom tokens (o :: snd (popOperators o [] stack))).
Proof.
  intros Ho. unfold convertFrom at 1.
  assert (Hstep : infixToPostfix_loop (o :: tokens) [] stack
                  = let (p, s) := popOperators o [] stack in
                    infixToPostfix_loop tokens p (o :: s)).
  { simpl in Ho.
    repeat (destruct Ho as [<-|Ho]; [reflexivity|]). contradiction. }
  rewrite Hstep. destruct (popOperators o [] stack) as [p s]. simpl.
  apply convertFrom_loop.
Qed.

Lemma convertFrom_end (stack : list string) :
  convertFrom [] stack = drainStack [] stack.
Proof. reflexivity. Qed.

(** A * or / on top of the stack leaves first, whatever follows in a flat
    expression. *)
Lemma convertFrom_product_top (m : string) (rest : flatExpr) (stack : list string) :
  In m [multiplyOperator; divideOperator] -> wellFormed rest ->
  convertFrom (infixTokens rest) (m :: stack)
  = mapResult (cons m) (convertFrom (infixTokens rest) stack).
Proof.
  intros Hm Hwf. destruct Hwf as [|[[o t] v] rest [Ho Ht] _].
  - simpl. rewrite !convertFrom_end.
    assert (Hd : drainStack [] (m :: stack) = drainStack ([m] ++ []) stack).
    { simpl in Hm. destruct Hm as [<-|[<-|[]]]; reflexivity. }
    rewrite Hd. apply drainStack_prefix.
  - cbn [fst snd] in Ho, Ht. cbn [infixTokens].
    rewrite (convertFrom_operator o _ (m :: stack) Ho), (convertFrom_operator o _ stack Ho).
    assert (Hpop : popOperators o [] (m :: stack) = popOperators o ([m] ++ []) stack).
    { simpl in Hm, Ho.
      destruct Hm as [<-|[<-|[]]];
        repeat (destruct Ho as [<-|Ho]; [reflexivity|]); contradiction. }
    rewrite Hpop, popOperators_prefix. cbn [fst snd].
    destruct (convertFrom _ _); reflexivity.
Qed.

Lemma convertFrom_sum_step (o t : string) (tokens stack : list string) :
  In o [addOperator; subtractOperator] -> isNumber t = true ->
  stack = [] \/ stack = [addOperator] \/ stack = [subtractOperator] ->
  convertFrom (o :: t :: tokens) stack
  = mapResult (fun post => stack ++ t :: post) (convertFrom tokens [o]).
Proof.
  intros Ho Ht Hs.
  rewrite convertFrom_operator by (simpl in *; tauto).
  assert (Hpop : popOperators o [] stack = (stack, [])).
  { simpl in Ho. destruct Ho as [<-|[<-|[]]]; destruct Hs as [->|[->| ->]]; reflexivity. }
  rewrite Hpop. cbn [fst snd]. rewrite (convertFrom_number t) by exact Ht.
  destruct (convertFrom tokens [o]); reflexivity.
Qed.

Lemma convertFrom_product_step (o t : string) (rest : flatExpr) (stack : list string) :
  In o [multiplyOperator; divideOperator] -> isNumber t = true -> wellFormed rest ->
  stack = [] \/ stack = [addOperator] \/ stack = [subtractOperator] ->
  convertFrom (o :: t :: infixTokens rest) stack
  = mapResult (fun post => t :: o :: post) (convertFrom (infixTokens rest) stack).
Proof.
  intros Ho Ht Hwf Hs.
  rewrite convertFrom_operator by (simpl in *; tauto).
  assert (Hpop : popOperators o [] stack = ([], stack)).
  { simpl in Ho. destruct Ho as [<-|[<-|[]]]; destruct Hs as [->|[->| ->]]; reflexivity. }
  rewrite Hpop. cbn [fst snd]. rewrite (convertFrom_number t) by exact Ht.
  rewrite (convertFrom_product_top o rest stack Ho Hwf).
  destruct (convertFrom (infixTokens rest) stack); reflexivity.
Qed.

Lemma referenceFrom_sum (k : float -> float) (o : string) (term x : float)
      (rest : list (string * float)) :
  In o [addOperator; subtractOperator] ->
  referenceFrom k term ((o, x) :: rest) = referenceFrom (sumStep o (k term)) x rest.
Proof.
  intros Ho. unfold referenceFrom.
  assert (Hred : reduceProducts term ((o, x) :: rest)
                 = (p <- reduceProducts x rest ;; Ok (term, (o, fst p) :: snd p))).
  { simpl in Ho. destruct Ho as [<-|[<-|[]]]; reflexivity. }
  rewrite Hred. destruct (reduceProducts x rest) as [[t ts]|]; reflexivity.
Qed.

Section Refinement.

Context {M : MathLib}.
Variable recur : string -> option (result float).

Lemma evaluatePostfix_loop_number (t : string) (v : float) (post : list string)
      (stack : list float) :
  strconv.ParseFloat t = Some v ->
  evaluatePostfix_loop recur (t :: post) stack = evaluatePostfix_loop recur post (v :: stack).
Proof. intros Ht. simpl. unfold isNumber. rewrite Ht. reflexivity. Qed.

Lemma evaluatePostfix_loop_operator (o : string) (a b : float) (post : list string)
      (stack : list float) :
  In o [addOperator; subtractOperator; multiplyOperator; divideOperator] ->
  evaluatePostfix_loop recur (o :: post) (b :: a :: stack)
  = match applyOperator o a b with
    | Err e => Some (Err e)
    | Ok r => evaluatePostfix_loop recur post (r :: stack)
    end.
Proof.
  intros Ho. simpl in Ho.
  repeat (destruct Ho as [<-|Ho]; [reflexivity|]). contradiction.
Qed.

Lemma applyOperator_sum (o : string) (a b : float) :
  In o [addOperator; subtractOperator] -> applyOperator o a b = Ok (sumStep o a b).
Proof. intros Ho. simpl in Ho. destruct Ho as [<-|[<-|[]]]; reflexivity. Qed.

Lemma referenceFrom_product (k : float -> float) (o : string) (term x : float)
      (rest : list (string * float)) :
  In o [multiplyOperator; divideOperator] ->
  referenceFrom k term ((o, x) :: rest)
  = (r <- applyOperator o term x ;; referenceFrom k r rest).
Proof.
  intros Ho. unfold referenceFrom. simpl in Ho. destruct Ho as [<-|[<-|[]]].
  - reflexivity.
  - change (applyOperator divideOperator term x) with (divide term x).
    unfold divide. simpl. destruct (x =? 0)%float; reflexivity.
Qed.

(** The postfix sequence of what follows a term, run on the value of that
    term, gives the reference evaluation: with an empty operator stack, and
    with a pending + or - whose left operand lies below the term. *)
Lemma flat_expression_from (rest : flatExpr) :
  wellFormed rest ->
  (exists post,
      convertFrom (infixTokens rest) [] = Ok post
      /\ forall x stack,
        evaluatePostfix_loop recur post (x :: stack)
        = Some (mapResult (fun r => r :: stack)
                  (referenceFrom (fun t => t) x (operands rest))))
  /\ (forall a, In a [addOperator; subtractOperator] ->
      exists post,
        convertFrom (infixTokens rest) [a] = Ok post
        /\ forall x u stack,
          evaluatePostfix_loop recur post (x :: u :: stack)
          = Some (mapResult (fun r => r :: stack)
                    (referenceFrom (sumStep a u) x (operands rest)))).
Proof.
  intros Hwf. induction Hwf as [|[[o t] v] rest [Ho Ht] Hwf [IHe IHs]].
  - split.
    + exists []. split; [reflexivity|]. intros x stack. reflexivity.
    + intros a Ha. exists [a]. split.
      * simpl in Ha. destruct Ha as [<-|[<-|[]]]; reflexivity.
      * intros x u stack.
        rewrite evaluatePostfix_loop_operator by (simpl in *; tauto).
        rewrite (applyOperator_sum a u x Ha). reflexivity.
  - cbn [fst snd] in Ho, Ht.
    assert (Hnum : isNumber t = true) by (unfold isNumber; now rewrite Ht).
    assert (Hkind : In o [addOperator; subtractOperator]
                    \/ In o [multiplyOperator; divideOperator])
      by (simpl in *; tauto).
    cbn [infixTokens operands map fst snd].
    destruct Hkind as [Hsum|Hprod].
    + (* a + or -: the pending operator leaves, [o] waits for the next term *)
      destruct (IHs o Hsum) as (post & Hpost & Heval).
      split.
      * exists (t :: post). split.
        { rewrite (convertFrom_sum_step o t _ [] Hsum Hnum) by tauto.
          rewrite Hpost. reflexivity. }
        intros x stack.
        rewrite (evaluatePostfix_loop_number t v) by exact Ht.
        rewrite Heval, (referenceFrom_sum _ o x v _ Hsum). reflexivity.
      * intros a Ha. exists (a :: t :: post). split.
        { rewrite (convertFrom_sum_step o t _ [a] Hsum Hnum)
            by (simpl in Ha; destruct Ha as [<-|[<-|[]]]; tauto).
          rewrite Hpost. reflexivity. }
        intros x u stack.
        rewrite evaluatePostfix_loop_operator by (simpl in *; tauto).
        rewrite (applyOperator_sum a u x Ha).
        rewrite (evaluatePostfix_loop_number t v) by exact Ht.
        rewrite Heval, (referenceFrom_sum _ o x v _ Hsum). reflexivity.
    + (* a * or /: [o] leaves right after its right operand *)
      assert (Hop : In o [addOperator; subtractOperator; multiplyOperator; divideOperator])
        by exact Ho.
      assert (Hstep : forall post x stack stack' k,
                 (forall y, evaluatePostfix_loop recur post (y :: stack)
                            = Some (mapResult (fun r => r :: stack')
                                      (referenceFrom k y (operands rest)))) ->
                 evaluatePostfix_loop recur (t :: o :: post) (x :: stack)
                 = Some (mapResult (fun r => r :: stack')
                           (referenceFrom k x ((o, v) :: operands rest)))).
      { intros post x stack stack' k Hrest.
        rewrite (evaluatePostfix_loop_number t v) by exact Ht.
        rewrite evaluatePostfix_loop_operator by exact Hop.
        rewrite (referenceFrom_product k o x v _ Hprod).
        destruct (applyOperator o x v) as [r|e]; [|reflexivity].
        simpl. apply Hrest. }
      split.
      * destruct IHe as (post & Hpost & Heval).
        exists (t :: o :: post). split.
        { rewrite (convertFrom_product_step o t rest [] Hprod Hnum Hwf) by tauto.
          rewrite Hpost. reflexivity. }
        intros x stack. apply Hstep. intros y. apply Heval.
      * intros a Ha. destruct (IHs a Ha) as (post & Hpost & Heval).
        exists (t :: o :: post). split.
        { rewrite (convertFrom_product_step o t rest [a] Hprod Hnum Hwf)
            by (simpl in Ha; destruct Ha as [<-|[<-|[]]]; tauto).
          rewrite Hpost. reflexivity. }
        intros x u stack. apply (Hstep post x (u :: stack) stack (sumStep a u)).
        intros y. apply Heval.
Qed.

End Refinement.

(** ** Flat expressions as strings *)

Lemma scan_number_chars (s : string) (d d' : strconv.decimal) :
  strconv.scan s d = Some d' -> Str.forallb isNumberChar s = true.
Proof.
  revert d. induction s as [|c s IH]; intros d H; [reflexivity|].
  simpl in H |- *. unfold isNumberChar.
  destruct (unicode_IsDigit c); [exact (IH _ H)|].
  destruct (Ascii.eqb c "."); [exact (IH _ H)|discriminate].
Qed.

(** What [ParseFloat] accepts is a non-empty run of digits and points. *)
Lemma ParseFloat_number_run (t : string) (v : float) :
  strconv.ParseFloat t = Some v -> isNumberRun t = true.
Proof.
  unfold strconv.ParseFloat, isNumberRun. intros H.
  destruct (strconv.scan t _) as [d|] eqn:E; [|discriminate].
  rewrite (scan_number_chars _ _ _ E).
  destruct t; [|reflexivity].
  simpl in E. injection E as <-. discriminate H.
Qed.

Lemma filter_all (p : ascii -> bool) (s : string) :
  Str.forallb p s = true -> Str.filter p s = s.
Proof.
  induction s as [|c s IH]; simpl; [reflexivity|].
  intros [Hc Hs]%andb_true_iff. rewrite Hc, (IH Hs). reflexivity.
Qed.

Lemma forallb_append (p : ascii -> bool) (a b : string) :
  Str.forallb p (a ++ b) = Str.forallb p a && Str.forallb p b.
Proof.
  induction a as [|c a IH]; simpl; [reflexivity|]. now rewrite IH, andb_assoc.
Qed.

Lemma forallb_impl (p q : ascii -> bool) (s : string) :
  (forall c, p c = true -> q c = true) ->
  Str.forallb p s = true -> Str.forallb q s = true.
Proof.
  intros Hpq. induction s as [|c s IH]; simpl; [reflexivity|].
  intros [Hc Hs]%andb_true_iff. now rewrite (Hpq _ Hc), (IH Hs).
Qed.

Lemma number_run_no_space (t : string) :
  isNumberRun t = true -> Str.forallb notSpace t = true.
Proof.
  unfold isNumberRun. intros [H _]%andb_true_iff.
  apply (forallb_impl isNumberChar); [|exact H].
  intros c Hc. unfold notSpace.
  destruct (Ascii.eqb_spec c " ") as [->|]; [discriminate Hc|reflexivity].
Qed.

(** The string of a flat expression has no space, and its tokens are the
    operators and the numbers it was written from. *)
Lemma flat_expression_string (rest : flatExpr) :
  wellFormed rest ->
  Str.forallb notSpace (concatTokens (infixTokens rest)) = true
  /\ startsOther (concatTokens (infixTokens rest)) = true
  /\ tokenize (concatTokens (infixTokens rest)) = Ok (infixTokens rest).
Proof.
  intros Hwf. induction Hwf as [|[[o t] v] rest [Ho Ht] Hwf (IHs & IHo & IHt)].
  - repeat split.
  - cbn [fst snd] in Ho, Ht. apply ParseFloat_number_run in Ht.
    cbn [infixTokens concatTokens fold_right].
    change (fold_right append "" (infixTokens rest))
      with (concatTokens (infixTokens rest)).
    assert (Hc : exists c, o = Str.of_char c
                           /\ isOperatorOrParen (Str.of_char c) = true
                           /\ isNumberChar c = false /\ notSpace c = true).
    { simpl in Ho.
      destruct Ho as [<-|[<-|[<-|[<-|[]]]]]; eexists; repeat split. }
    destruct Hc as (c & -> & Hop & Hnot & Hsp).
    change (Str.of_char c ++ t ++ concatTokens (infixTokens rest))%string
      with (String c (t ++ concatTokens (infixTokens rest))).
    split; [|split].
    + simpl. rewrite Hsp, forallb_append, (number_run_no_space _ Ht), IHs. reflexivity.
    + simpl. now rewrite Hnot.
    + rewrite (tokenize_operator_first c _ Hop).
      rewrite (tokenize_number_first t _ Ht IHo), IHt. reflexivity.
Qed.

Section Pipeline.

Context {M : MathLib}.

(** C8.  For every expression built from numbers and the operators + - * /
    alone, the conversion to postfix succeeds and the evaluation of the
    postfix sequence returns what the reference evaluation returns: the
    value, or DivisionByZero on a zero divisor.  So does the whole pipeline
    from the string of the expression. *)
Theorem pipeline_matches_reference (first : string) (x : float) (rest : flatExpr) :
  strconv.ParseFloat first = Some x -> wellFormed rest ->
  (forall recur, exists postfix,
        infixToPostfix (first :: infixTokens rest) = Ok postfix
        /\ evaluatePostfix recur postfix = Some (referenceEval x (operands rest)))
  /\ tokenize (concatTokens (first :: infixTokens rest)) = Ok (first :: infixTokens rest)
  /\ evaluateExpression (concatTokens (first :: infixTokens rest))
     = referenceEval x (operands rest).
Proof.
  intros Hfirst Hwf.
  assert (Hnum : isNumber first = true) by (unfold isNumber; now rewrite Hfirst).
  assert (Htokens : forall recur, exists postfix,
               infixToPostfix (first :: infixTokens rest) = Ok postfix
               /\ evaluatePostfix recur postfix = Some (referenceEval x (operands rest))).
  { intros recur.
    destruct (flat_expression_from recur rest Hwf) as [(post & Hpost & Heval) _].
    exists (first :: post). split.
    - rewrite infixToPostfix_convertFrom, (convertFrom_number first _ _ Hnum), Hpost.
      reflexivity.
    - unfold evaluatePostfix.
      rewrite (evaluatePostfix_loop_number recur first x) by exact Hfirst.
      rewrite Heval. unfold referenceFrom, referenceEval.
      destruct (reduceProducts x (operands rest)) as [[t ts]|]; reflexivity. }
  destruct (flat_expression_string rest Hwf) as (Hspace & Hstart & Htok).
  pose proof (ParseFloat_number_run _ _ Hfirst) as Hrun.
  assert (Hinput : tokenize (concatTokens (first :: infixTokens rest))
                   = Ok (first :: infixTokens rest)).
  { cbn [concatTokens fold_right].
    change (fold_right append "" (infixTokens rest))
      with (concatTokens (infixTokens rest)).
    rewrite (tokenize_number_first first _ Hrun Hstart), Htok. reflexivity. }
  split; [exact Htokens|]. split; [exact Hinput|].
  pose proof (evaluateExpression_unfold (concatTokens (first :: infixTokens rest))) as Hun.
  unfold evaluateExpression_body in Hun.
  assert (Hclean : strings_ReplaceAll_space (concatTokens (first :: infixTokens rest))
                   = concatTokens (first :: infixTokens rest)).
  { apply filter_all. cbn [concatTokens fold_right].
    rewrite forallb_append. fold notSpace.
    rewrite (number_run_no_space _ Hrun). exact Hspace. }
  rewrite Hclean, Hinput in Hun.
  destruct (Htokens (fun s => Some (evaluateExpression s))) as (postfix & Hp & He).
  rewrite Hp, He in Hun. injection Hun as Hun. exact Hun.
Qed.

End Pipeline.

Lemma pipeline_matches_reference_witness :
  strconv.ParseFloat "2" = Some 2%float
  /\ wellFormed [("+", "3", 3%float); ("*", "4", 4%float); ("-", "6", 6%float);
                 ("/", "2", 2%float)]
  /\ evaluateExpression (M := SampleMath) "2+3*4-6/2" = Ok 11%float
  /\ referenceEval 2 [("+", 3%float); ("*", 4%float); ("-", 6%float); ("/", 2%float)]
     = Ok 11%float.
Proof.
  assert (Hwf : wellFormed [("+", "3", 3%float); ("*", "4", 4%float);
                            ("-", "6", 6%float); ("/", "2", 2%float)]).
  { unfold wellFormed.
    repeat (apply Forall_cons; [split; [simpl; tauto|vm_compute; reflexivity]|]).
    apply Forall_nil. }
  split; [vm_compute; reflexivity|]. split; [exact Hwf|].
  split; [|vm_compute; reflexivity].
  destruct (pipeline_matches_reference (M := SampleMath) "2" 2 _
              ltac:(vm_compute; reflexivity) Hwf) as (_ & _ & H).
  exact H.
Defined.

(** * Further properties of the pipeline *)

(** ** Steps of the two loops *)

Lemma isOperator_not_number (o : string) : isOperator o = true -> isNumber o = false.
Proof.
  intros H. apply isOperator_cases in H. simpl in H.
  repeat (destruct H as [<-|H]; [reflexivity|]). contradiction.
Qed.

Lemma isOperator_not_function (o : string) : isOperator o = true -> isFunction o = false.
Proof.
  intros H. apply isOperator_cases in H. simpl in H.
  repeat (destruct H as [<-|H]; [reflexivity|]). contradiction.
Qed.

Lemma isFunction_not_operatorOrParen (token : string) :
  isFunction token = true -> isOperatorOrParen token = false.
Proof.
  intros H. destruct (isFunction_split token H) as (name & after & Hname & -> & _).
  simpl in Hname.
  repeat (destruct Hname as [<-|Hname]; [reflexivity|]). contradiction.
Qed.

Lemma isNumber_not_operatorOrParen (token : string) :
  isNumber token = true -> isOperatorOrParen token = false.
Proof.
  intros H. destruct (isOperatorOrParen token) eqn:E; [|reflexivity].
  apply isOperatorOrParen_char in E. simpl in E.
  repeat (destruct E as [<-|E]; [discriminate H|]). contradiction.
Qed.

Lemma infixToPostfix_loop_number (t : string) (tokens postfix stack : list string) :
  isNumber t = true ->
  infixToPostfix_loop (t :: tokens) postfix stack
  = infixToPostfix_loop tokens (postfix ++ [t]) stack.
Proof. intros H. simpl. now rewrite H. Qed.

Lemma infixToPostfix_loop_function (t : string) (tokens postfix stack : list string) :
  isFunction t = true ->
  infixToPostfix_loop (t :: tokens) postfix stack
  = infixToPostfix_loop tokens postfix (t :: stack).
Proof. intros H. simpl. now rewrite (isFunction_not_number _ H), H. Qed.

Lemma infixToPostfix_loop_operator (o : string) (tokens postfix stack : list string) :
  isOperator o = true ->
  infixToPostfix_loop (o :: tokens) postfix stack
  = let (p, s) := popOperators o postfix stack in
    infixToPostfix_loop tokens p (o :: s).
Proof.
  intros H. simpl.
  now rewrite (isOperator_not_number _ H), (isOperator_not_function _ H), H.
Qed.

Section PostfixSteps.

Context {M : MathLib}.
Variable recur : string -> option (result float).

Lemma evaluatePostfix_loop_binary (o : string) (a b : float) (post : list string)
      (stack : list float) :
  isOperator o = true ->
  evaluatePostfix_loop recur (o :: post) (b :: a :: stack)
  = match applyOperator o a b with
    | Err e => Some (Err e)
    | Ok r => evaluatePostfix_loop recur post (r :: stack)
    end.
Proof.
  intros H. simpl.
  now rewrite (isOperator_not_number _ H), (isOperator_not_function _ H), H.
Qed.

Lemma evaluatePostfix_loop_short (o : string) (post : list string) (stack : list float) :
  isOperator o = true -> List.length stack < 2 ->
  evaluatePostfix_loop recur (o :: post) stack = Some (Err errInsufficientValues).
Proof.
  intros H Hlen. simpl.
  rewrite (isOperator_not_number _ H), (isOperator_not_function _ H), H.
  destruct stack as [|b [|a stack]]; [reflexivity|reflexivity|simpl in Hlen; lia].
Qed.

Lemma evaluatePostfix_loop_call (t : string) (post : list string) (stack : list float) :
  isFunction t = true ->
  evaluatePostfix_loop recur (t :: post) stack
  = match evaluateFunction recur t with
    | None => None
    | Some (Err e) => Some (Err e)
    | Some (Ok r) => evaluatePostfix_loop recur post (r :: stack)
    end.
Proof. intros H. simpl. now rewrite (isFunction_not_number _ H), H. Qed.

Lemma evaluatePostfix_loop_app (l1 l2 : list string) (stack : list float) :
  evaluatePostfix_loop recur (l1 ++ l2) stack
  = match evaluatePostfix_loop recur l1 stack with
    | Some (Ok stack') => evaluatePostfix_loop recur l2 stack'
    | other => other
    end.
Proof.
  revert stack. induction l1 as [|t l1 IH]; intros stack; [reflexivity|].
  cbn [app evaluatePostfix_loop].
  repeat match goal with
         | |- context [match ?x with _ => _ end] =>
             lazymatch x with
             | evaluatePostfix_loop _ _ _ => fail
             | _ => destruct x; try reflexivity
             end
         end; apply IH.
Qed.

Lemma evaluatePostfix_loop_frame (tokens : list string) (stack stack' below : list float) :
  evaluatePostfix_loop recur tokens stack = Some (Ok stack') ->
  evaluatePostfix_loop recur tokens (stack ++ below) = Some (Ok (stack' ++ below)).
Proof.
  revert stack. induction tokens as [|t tokens IH]; intros stack H.
  - simpl in *. injection H as <-. reflexivity.
  - cbn [evaluatePostfix_loop] in *.
    destruct (isNumber t).
    { destruct (strconv.ParseFloat t); [|discriminate]. apply (IH (f :: stack) H). }
    destruct (isFunction t).
    { destruct (evaluateFunction recur t) as [[r|e]|]; try discriminate.
      apply (IH (r :: stack) H). }
    destruct (isOperator t); [|discriminate].
    destruct stack as [|b [|a stack]]; try discriminate. cbn [app].
    destruct (applyOperator t a b) as [r|e]; [|discriminate].
    apply (IH (r :: stack) H).
Qed.

Lemma evaluatePostfix_value (tokens : list string) (v : float) :
  evaluatePostfix recur tokens = Some (Ok v) ->
  evaluatePostfix_loop recur tokens [] = Some (Ok [v]).
Proof.
  unfold evaluatePostfix.
  destruct (evaluatePostfix_loop recur tokens []) as [[[|w [|w' st]]|e]|]; try discriminate.
  intros H. injection H as ->. reflexivity.
Qed.

(** X1.  Postfix sequences compose.  Evaluating [l1 ++ l2] is evaluating
    [l1] and then, when [l1] leaves a stack, [l2] on that stack; an error of
    [l1] is the result of the whole, whatever [l2] is; and values below the
    ones a sequence uses are left alone. *)
Theorem postfix_evaluation_composes (l1 l2 : list string) (stack : list float) :
  evaluatePostfix_loop recur (l1 ++ l2) stack
  = match evaluatePostfix_loop recur l1 stack with
    | Some (Ok stack1) => evaluatePostfix_loop recur l2 stack1
    | other => other
    end
  /\ (forall stack1, evaluatePostfix_loop recur l1 stack = Some (Ok stack1) ->
        evaluatePostfix_loop recur (l1 ++ l2) stack
        = evaluatePostfix_loop recur l2 stack1)
  /\ (forall e, evaluatePostfix_loop recur l1 stack = Some (Err e) ->
                evaluatePostfix_loop recur (l1 ++ l2) stack = Some (Err e))
  /\ (forall stack1 below, evaluatePostfix_loop recur l1 stack = Some (Ok stack1) ->
        evaluatePostfix_loop recur l1 (stack ++ below) = Some (Ok (stack1 ++ below))).
Proof.
  split; [apply evaluatePostfix_loop_app|]. split; [|split].
  - intros stack1 H. now rewrite evaluatePostfix_loop_app, H.
  - intros e He. now rewrite evaluatePostfix_loop_app, He.
  - intros stack1 below H. now apply evaluatePostfix_loop_frame.
Qed.

(** X2.  The postfix form of a binary operation: when [p1] evaluates to [v1]
    and [p2] to [v2], the sequence [p1 ++ p2 ++ [op]] evaluates to
    [v1 op v2], and the two sequences side by side, without an operator,
    are the error "error evaluating expression". *)
Theorem postfix_binary_operation (p1 p2 : list string) (v1 v2 : float) (op : string) :
  evaluatePostfix recur p1 = Some (Ok v1) ->
  evaluatePostfix recur p2 = Some (Ok v2) ->
  isOperator op = true ->
  evaluatePostfix recur (p1 ++ p2 ++ [op]) = Some (applyOperator op v1 v2)
  /\ evaluatePostfix recur (p1 ++ p2) = Some (Err errEvaluatingExpression).
Proof.
  intros H1 H2 Hop.
  apply evaluatePostfix_value in H1. apply evaluatePostfix_value in H2.
  pose proof (evaluatePostfix_loop_frame p2 [] [v2] [v1] H2) as H2'. simpl in H2'.
  split; unfold evaluatePostfix.
  - rewrite evaluatePostfix_loop_app, H1, evaluatePostfix_loop_app, H2'.
    rewrite (evaluatePostfix_loop_binary op v1 v2 [] [] Hop).
    destruct (applyOperator op v1 v2); reflexivity.
  - rewrite evaluatePostfix_loop_app, H1, H2'. reflexivity.
Qed.

End PostfixSteps.

Lemma postfix_evaluation_composes_witness :
  evaluatePostfix_loop (M := SampleMath) (fun _ => None) (["1"; "2"; "+"] ++ ["4"; "*"]) []
  = evaluatePostfix_loop (M := SampleMath) (fun _ => None) ["4"; "*"] [3%float]
  /\ evaluatePostfix_loop (M := SampleMath) (fun _ => None) (["1"; "0"; "/"] ++ ["2"; "+"]) []
     = Some (Err errDivideByZero).
Proof.
  assert (H1 : evaluatePostfix_loop (M := SampleMath) (fun _ => None) ["1"; "2"; "+"] []
               = Some (Ok [3%float])) by (vm_compute; reflexivity).
  assert (H2 : evaluatePostfix_loop (M := SampleMath) (fun _ => None) ["1"; "0"; "/"] []
               = Some (Err errDivideByZero)) by (vm_compute; reflexivity).
  destruct (postfix_evaluation_composes (M := SampleMath) (fun _ => None)
              ["1"; "2"; "+"] ["4"; "*"] []) as (_ & Hok & _).
  destruct (postfix_evaluation_composes (M := SampleMath) (fun _ => None)
              ["1"; "0"; "/"] ["2"; "+"] []) as (_ & _ & Herr & _).
  exact (conj (Hok _ H1) (Herr _ H2)).
Defined.

Lemma postfix_binary_operation_witness :
  evaluatePostfix (M := SampleMath) (fun _ => None) ["1"; "2"; "+"] = Some (Ok 3%float)
  /\ evaluatePostfix (M := SampleMath) (fun _ => None) ["8"; "2"; "/"] = Some (Ok 4%float)
  /\ isOperator "-" = true
  /\ evaluatePostfix (M := SampleMath) (fun _ => None) (["1"; "2"; "+"] ++ ["8"; "2"; "/"] ++ ["-"])
     = Some (applyOperator "-" 3 4).
Proof.
  assert (H1 : evaluatePostfix (M := SampleMath) (fun _ => None) ["1"; "2"; "+"]
               = Some (Ok 3%float)) by (vm_compute; reflexivity).
  assert (H2 : evaluatePostfix (M := SampleMath) (fun _ => None) ["8"; "2"; "/"]
               = Some (Ok 4%float)) by (vm_compute; reflexivity).
  exact (conj H1 (conj H2 (conj eq_refl
           (proj1 (postfix_binary_operation (M := SampleMath) (fun _ => None)
                     _ _ 3 4 "-" H1 H2 eq_refl))))).
Defined.

(** ** Token classes *)

Lemma number_run_classes (num : string) :
  isNumberRun num = true ->
  isFunction num = false /\ isOperatorOrParen num = false.
Proof.
  unfold isNumberRun. intros [Hall Hlen]%andb_true_iff.
  destruct num as [|c num]; [discriminate Hlen|]. simpl in Hall.
  apply andb_true_iff in Hall as [Hc _]. split.
  - destruct (isFunction (String c num)) eqn:E; [|reflexivity].
    destruct (isFunction_split _ E) as (name & after & Hname & Heq & _).
    simpl in Hname.
    repeat (destruct Hname as [<-|Hname]; [injection Heq as -> _; discriminate Hc|]).
    contradiction.
  - destruct (isOperatorOrParen (String c num)) eqn:E; [|reflexivity].
    apply isOperatorOrParen_char in E. simpl in E.
    repeat (destruct E as [E|E]; [injection E as <- _; discriminate Hc|]).
    contradiction.
Qed.

(** X3.  The token classes are disjoint: a token is a number, a function
    call, an operator, a left or a right parenthesis for at most one of the
    five tests, so the order of the tests in the two loops decides nothing. *)
Theorem token_classes_disjoint (token : string) :
  List.length (filter (fun b : bool => b)
                 [isNumber token; isFunction token; isOperator token;
                  String.eqb token leftParen; String.eqb token rightParen]) <= 1.
Proof.
  destruct (isFunction token) eqn:Hf.
  { rewrite (isFunction_not_number _ Hf).
    pose proof (isFunction_not_operatorOrParen _ Hf) as Hop.
    unfold isOperator. rewrite Hop.
    unfold isOperatorOrParen in Hop. rewrite !orb_false_iff in Hop.
    destruct Hop as [[_ Hl] Hr]. rewrite Hl, Hr. simpl. lia. }
  destruct (isNumber token) eqn:Hn.
  { pose proof (isNumber_not_operatorOrParen _ Hn) as Hop.
    unfold isOperator. rewrite Hop.
    unfold isOperatorOrParen in Hop. rewrite !orb_false_iff in Hop.
    destruct Hop as [[_ Hl] Hr]. rewrite Hl, Hr. simpl. lia. }
  unfold isOperator.
  destruct (String.eqb_spec token leftParen) as [->|_]; [simpl; lia|].
  destruct (String.eqb_spec token rightParen) as [->|_]; [simpl; lia|].
  destruct (isOperatorOrParen token); simpl; lia.
Qed.

(** ** The pipeline on one line of input *)

Lemma filter_append (p : ascii -> bool) (a b : string) :
  Str.filter p (a ++ b) = (Str.filter p a ++ Str.filter p b)%string.
Proof.
  induction a as [|c a IH]; simpl; [reflexivity|].
  destruct (p c); simpl; now rewrite IH.
Qed.

Lemma filter_filter (p : ascii -> bool) (s : string) :
  Str.filter p (Str.filter p s) = Str.filter p s.
Proof.
  induction s as [|c s IH]; simpl; [reflexivity|].
  destruct (p c) eqn:E; simpl; [rewrite E|]; now rewrite IH.
Qed.

Lemma tokenize_number_alone (num : string) :
  isNumberRun num = true -> tokenize num = Ok [num].
Proof.
  intros H. rewrite <- (append_empty_r num) at 1.
  rewrite (tokenize_number_first num "" H eq_refl). reflexivity.
Qed.

Lemma number_run_clean (num : string) :
  isNumberRun num = true -> strings_ReplaceAll_space num = num.
Proof. intros H. apply filter_all. fold notSpace. now apply number_run_no_space. Qed.

Lemma isOperator_char (op : string) :
  isOperator op = true ->
  exists c, op = Str.of_char c /\ isOperatorOrParen (Str.of_char c) = true
            /\ isNumberChar c = false /\ notSpace c = true.
Proof.
  intros H. apply isOperator_cases in H. simpl in H.
  repeat (destruct H as [<-|H]; [eexists; repeat split|]). contradiction.
Qed.

Section Lines.

Context {M : MathLib}.

Lemma evaluateExpression_same_body (a b : string) :
  strings_ReplaceAll_space a = strings_ReplaceAll_space b ->
  evaluateExpression a = evaluateExpression b.
Proof.
  intros H.
  pose proof (evaluateExpression_unfold a) as Ha.
  pose proof (evaluateExpression_unfold b) as Hb.
  unfold evaluateExpression_body in Ha, Hb. rewrite H in Ha. rewrite <- Hb in Ha.
  injection Ha as Ha. exact Ha.
Qed.

(** The result of [evaluateExpression] from the stages of the pipeline. *)
Lemma evaluateExpression_stages (input : string) :
  Some (evaluateExpression input)
  = match tokenize (strings_ReplaceAll_space input) with
    | Err e => Some (Err e)
    | Ok tokens =>
        match infixToPostfix tokens with
        | Err e => Some (Err e)
        | Ok postfix => evaluatePostfix self postfix
        end
    end.
Proof. apply evaluateExpression_unfold. Qed.

(** X4.  Spaces count for nothing, wherever they are: two inputs that differ
    in their spaces only have the same result, so a space may be put in or
    left out anywhere, between the digits of a number also. *)
Theorem spaces_are_ignored (a b : string) :
  evaluateExpression (a ++ " " ++ b) = evaluateExpression (a ++ b)
  /\ evaluateExpression (strings_ReplaceAll_space a) = evaluateExpression a
  /\ (strings_ReplaceAll_space a = strings_ReplaceAll_space b ->
      evaluateExpression a = evaluateExpression b).
Proof.
  split; [|split].
  - apply evaluateExpression_same_body. unfold strings_ReplaceAll_space.
    rewrite !filter_append. reflexivity.
  - apply evaluateExpression_same_body. apply filter_filter.
  - apply evaluateExpression_same_body.
Qed.

(** X5.  An input that is one run of digits and points evaluates to the
    value [ParseFloat] gives it; a run that [ParseFloat] refuses (no digit,
    two points, a value beyond the largest float64) is an invalid token. *)
Theorem single_number (num : string) :
  isNumberRun num = true ->
  evaluateExpression num
  = match strconv.ParseFloat num with
    | Some v => Ok v
    | None => Err (errInvalidToken num)
    end.
Proof.
  intros Hnum. pose proof (evaluateExpression_stages num) as H.
  rewrite (number_run_clean _ Hnum), (tokenize_number_alone _ Hnum) in H.
  destruct (number_run_classes _ Hnum) as [Hf Hop].
  assert (Hconv : infixToPostfix [num]
                  = if isNumber num then Ok [num] else Err (errInvalidToken num)).
  { unfold infixToPostfix. simpl. rewrite Hf. unfold isOperator. rewrite Hop.
    unfold isOperatorOrParen in Hop. rewrite !orb_false_iff in Hop.
    destruct Hop as [[_ Hl] Hr]. rewrite Hl, Hr.
    destruct (isNumber num); reflexivity. }
  rewrite Hconv in H. unfold isNumber in H.
  destruct (strconv.ParseFloat num) as [v|] eqn:E.
  - unfold evaluatePostfix in H. simpl in H. unfold isNumber in H. rewrite E in H.
    injection H as H. exact H.
  - injection H as H. exact H.
Qed.

(** X6.  An operator with a number on one side only, before it (as the
    unary minus of "-5") or after it, fails with "insufficient values for
    operation". *)
Theorem one_sided_operator (op num : string) (v : float) :
  isOperator op = true -> strconv.ParseFloat num = Some v ->
  evaluateExpression (op ++ num) = Err errInsufficientValues
  /\ evaluateExpression (num ++ op) = Err errInsufficientValues.
Proof.
  intros Hop Hv.
  pose proof (ParseFloat_number_run _ _ Hv) as Hrun.
  assert (Hn : isNumber num = true) by (unfold isNumber; now rewrite Hv).
  destruct (isOperator_char _ Hop) as (c & Hc & Hopc & Hnot & Hsp).
  assert (Heval : forall tokens, tokens = [op; num] \/ tokens = [num; op] ->
            match infixToPostfix tokens with
            | Err e => Some (Err e)
            | Ok postfix => evaluatePostfix self postfix
            end = Some (Err errInsufficientValues)).
  { intros tokens [->| ->]; unfold infixToPostfix.
    - rewrite (infixToPostfix_loop_operator op _ _ _ Hop). simpl popOperators. cbv iota.
      rewrite (infixToPostfix_loop_number num _ _ _ Hn). simpl.
      assert (Hl : String.eqb op leftParen = false).
      { apply isOperator_cases in Hop. simpl in Hop.
        repeat (destruct Hop as [<-|Hop]; [reflexivity|]). contradiction. }
      rewrite Hl. unfold evaluatePostfix.
      rewrite (evaluatePostfix_loop_number self num v) by exact Hv.
      now rewrite (evaluatePostfix_loop_short self op [] [v] Hop) by (simpl; lia).
    - rewrite (infixToPostfix_loop_number num _ _ _ Hn).
      rewrite (infixToPostfix_loop_operator op _ _ _ Hop). simpl.
      assert (Hl : String.eqb op leftParen = false).
      { apply isOperator_cases in Hop. simpl in Hop.
        repeat (destruct Hop as [<-|Hop]; [reflexivity|]). contradiction. }
      rewrite Hl. unfold evaluatePostfix.
      rewrite (evaluatePostfix_loop_number self num v) by exact Hv.
      now rewrite (evaluatePostfix_loop_short self op [] [v] Hop) by (simpl; lia). }
  subst op. split.
  - pose proof (evaluateExpression_stages (Str.of_char c ++ num)) as H.
    assert (Hclean : strings_ReplaceAll_space (Str.of_char c ++ num) = (Str.of_char c ++ num)%string).
    { apply filter_all. fold notSpace. simpl. rewrite Hsp. now apply number_run_no_space. }
    rewrite Hclean in H.
    change (Str.of_char c ++ num)%string with (String c num) in H at 2.
    rewrite (tokenize_operator_first c num Hopc), (tokenize_number_alone _ Hrun) in H.
    cbv beta iota delta [mapResult] in H. rewrite (Heval _ (or_introl eq_refl)) in H.
    injection H as H. exact H.
  - pose proof (evaluateExpression_stages (num ++ Str.of_char c)) as H.
    assert (Hclean : strings_ReplaceAll_space (num ++ Str.of_char c) = (num ++ Str.of_char c)%string).
    { apply filter_all. fold notSpace. rewrite forallb_append, (number_run_no_space _ Hrun).
      simpl. now rewrite Hsp. }
    rewrite Hclean in H.
    assert (Hstart : startsOther (Str.of_char c) = true) by (simpl; now rewrite Hnot).
    rewrite (tokenize_number_first num _ Hrun Hstart) in H.
    change (Str.of_char c) with (String c "") in H at 2.
    rewrite (tokenize_operator_first c "" Hopc) in H.
    change (tokenize "") with (tokenize_loop "" "" []) in H.
    rewrite tokenize_loop_empty in H.
    cbv beta iota delta [mapResult flushNumber String.length Nat.ltb Nat.leb] in H. rewrite (Heval _ (or_intror eq_refl)) in H.
    injection H as H. exact H.
Qed.

End Lines.

(** ** Function calls *)

Lemma take_append (a b : string) : Str.take (String.length a) (a ++ b) = a.
Proof. induction a as [|c a IH]; simpl; [destruct b; reflexivity|now rewrite IH]. Qed.

Lemma drop_append (a b : string) : Str.drop (String.length a) (a ++ b) = b.
Proof. induction a as [|c a IH]; simpl; [reflexivity|exact IH]. Qed.

Lemma unsnoc_snoc (s : string) (c : ascii) :
  Str.unsnoc (s ++ Str.of_char c) = Some (s, c).
Proof.
  induction s as [|x s IH]; [reflexivity|]. simpl. now rewrite IH.
Qed.

Lemma TrimSuffix_closed (arg : string) : strings_TrimSuffix_paren (arg ++ ")") = arg.
Proof.
  unfold strings_TrimSuffix_paren.
  change (arg ++ ")")%string with (arg ++ Str.of_char ")")%string.
  now rewrite unsnoc_snoc.
Qed.

(** The inner loop of [tokenize] runs over a text whose parentheses stay
    open and goes on after it. *)
Lemma scanParens_parenScan (s rest : string) (count count' j : nat) :
  parenScan s (S count) = Some count' ->
  scanParens (s ++ rest) (S count) j = scanParens rest count' (j + String.length s).
Proof.
  revert count j. induction s as [|c s IH]; intros count j H.
  - simpl in *. injection H as <-. now rewrite Nat.add_0_r.
  - cbn [parenScan] in H. cbn [String.append scanParens String.length].
    replace (j + S (String.length s)) with (S j + String.length s) by lia.
    destruct (Ascii.eqb c "("); [exact (IH _ _ H)|].
    destruct (Ascii.eqb c ")").
    + destruct count as [|count]; [discriminate|]. exact (IH _ _ H).
    + exact (IH _ _ H).
Qed.

Lemma parenScan_filter (p : ascii -> bool) (s : string) (count : nat) :
  p "("%char = true -> p ")"%char = true ->
  parenScan (Str.filter p s) count = parenScan s count.
Proof.
  intros Hl Hr. revert count. induction s as [|c s IH]; intros count; [reflexivity|].
  simpl. destruct (p c) eqn:E; simpl.
  - destruct (Ascii.eqb c "("); [apply IH|].
    destruct (Ascii.eqb c ")"); [|apply IH].
    destruct count as [|[|count]]; try reflexivity. apply IH.
  - destruct (Ascii.eqb_spec c "(") as [->|_]; [congruence|].
    destruct (Ascii.eqb_spec c ")") as [->|_]; [congruence|]. apply IH.
Qed.

Lemma prefix_append_self (p s : string) : String.prefix p (p ++ s) = true.
Proof.
  induction p as [|c p IH]; simpl; [destruct s; reflexivity|].
  destruct (ascii_dec c c); [exact IH|contradiction].
Qed.

(** A call whose argument has balanced parentheses is one token. *)
Lemma tokenize_call_first (funcName arg rest : string) :
  In funcName functionNames -> parenScan arg 1 = Some 1 ->
  tokenize (callText funcName arg ++ rest)
  = mapResult (cons (callText funcName arg)) (tokenize rest).
Proof.
  intros Hname Harg. unfold tokenize, callText.
  assert (Hscan : forall j, scanParens ((arg ++ ")") ++ rest) 1 j
                            = (0, j + String.length (arg ++ ")"))).
  { intros j. rewrite append_assoc, (scanParens_parenScan arg _ 0 1 j Harg).
    rewrite append_length. destruct rest; simpl; f_equal; lia. }
  assert (Hgen : forall pre c pre',
             pre = String c pre' ->
             isNumberChar c = false -> isOperatorOrParen (string_of_rune c) = false ->
             functionRegex_FindString (pre ++ (arg ++ ")") ++ rest) = pre ->
             tokenize_loop ((pre ++ arg ++ ")") ++ rest) "" []
             = mapResult (cons (pre ++ arg ++ ")")%string) (tokenize_loop rest "" [])).
  { intros pre c pre' Hpre Hc Hop Hfind.
    rewrite append_assoc.
    remember (pre ++ (arg ++ ")") ++ rest)%string as whole eqn:Ewhole.
    assert (Hwhole : whole = String c (pre' ++ (arg ++ ")") ++ rest))
      by (subst pre whole; reflexivity).
    assert (Hcall : tokenize_call whole []
                    = tokenize_loop (Str.drop (String.length (pre ++ arg ++ ")")) whole) ""
                        ([] ++ [Str.take (String.length (pre ++ arg ++ ")")) whole])).
    { assert (Hs : scanParens (Str.drop (String.length pre) whole) 1 (String.length pre)
                   = (0, String.length (pre ++ arg ++ ")"))).
      { rewrite Ewhole, drop_append, Hscan. now rewrite <- append_length. }
      unfold tokenize_call. rewrite Hwhole. cbv beta iota. rewrite <- Hwhole.
      rewrite Hfind, Hpre. cbv beta iota. rewrite <- Hpre, Hs. reflexivity. }
    rewrite Hwhole at 1. rewrite tokenize_loop_step, Hc, Hop, <- Hwhole.
    change (flushNumber "" []) with (@nil string). rewrite Hcall.
    rewrite Ewhole, <- (append_assoc pre (arg ++ ")") rest), drop_append, take_append.
    apply (tokenize_loop_from rest "" [_]). }
  unfold functionNames in Hname. simpl in Hname.
  destruct Hname as [<-|[<-|[<-|[<-|[]]]]].
  - refine (Hgen "sin(" "s"%char "in(" eq_refl eq_refl eq_refl _).
    unfold functionRegex_FindString. rewrite (prefix_append_self "sin("). reflexivity.
  - refine (Hgen "cos(" "c"%char "os(" eq_refl eq_refl eq_refl _).
    unfold functionRegex_FindString. rewrite (prefix_append_self "cos("). reflexivity.
  - refine (Hgen "tan(" "t"%char "an(" eq_refl eq_refl eq_refl _).
    unfold functionRegex_FindString. rewrite (prefix_append_self "tan("). reflexivity.
  - refine (Hgen "sqrt(" "s"%char "qrt(" eq_refl eq_refl eq_refl _).
    unfold functionRegex_FindString. rewrite (prefix_append_self "sqrt("). reflexivity.
Qed.

(** What the pipeline reads of a call: its text without spaces is a call
    again, a function token that splits into the name and the argument. *)
Lemma call_normal_form (funcName arg : string) :
  In funcName functionNames -> parenScan arg 1 = Some 1 ->
  let arg' := strings_ReplaceAll_space arg in
  strings_ReplaceAll_space (callText funcName arg) = callText funcName arg'
  /\ parenScan arg' 1 = Some 1
  /\ isFunction (callText funcName arg') = true
  /\ strings_SplitN_paren_2 (callText funcName arg') = inr (funcName, (arg' ++ ")")%string)
  /\ precedence (callText funcName arg') = 0%Z
  /\ String.eqb (callText funcName arg') leftParen = false.
Proof.
  intros Hname Harg arg'.
  assert (Harg' : parenScan arg' 1 = Some 1).
  { unfold arg', strings_ReplaceAll_space. now rewrite parenScan_filter. }
  unfold functionNames in Hname. simpl in Hname.
  unfold callText, strings_ReplaceAll_space.
  destruct Hname as [<-|[<-|[<-|[<-|[]]]]];
    (split; [rewrite !filter_append; reflexivity|]);
    (split; [exact Harg'|]);
    (split; [|repeat split]).
  - change (isFunction ("sin(" ++ (arg' ++ ")")) = true).
    unfold isFunction, strings_HasPrefix. now rewrite (prefix_append_self "sin(").
  - change (isFunction ("cos(" ++ (arg' ++ ")")) = true).
    unfold isFunction, strings_HasPrefix. now rewrite (prefix_append_self "cos(").
  - change (isFunction ("tan(" ++ (arg' ++ ")")) = true).
    unfold isFunction, strings_HasPrefix. now rewrite (prefix_append_self "tan(").
  - change (isFunction ("sqrt(" ++ (arg' ++ ")")) = true).
    unfold isFunction, strings_HasPrefix. now rewrite (prefix_append_self "sqrt(").
Qed.

Lemma popOperators_function_top (op top : string) (postfix stack : list string) :
  isOperator op = true -> precedence top = 0%Z ->
  popOperators op postfix (top :: stack) = (postfix, top :: stack).
Proof.
  intros Hop Htop. cbn [popOperators]. rewrite Htop.
  apply isOperator_cases in Hop. simpl in Hop.
  repeat (destruct Hop as [<-|Hop];
          [destruct (negb (String.eqb top leftParen)); reflexivity|]).
  contradiction.
Qed.

Lemma isOperator_not_leftParen (op : string) :
  isOperator op = true -> String.eqb op leftParen = false.
Proof.
  intros Hop. apply isOperator_cases in Hop. simpl in Hop.
  repeat (destruct Hop as [<-|Hop]; [reflexivity|]). contradiction.
Qed.

Lemma tokenize_nothing : tokenize "" = Ok [].
Proof. apply (tokenize_loop_empty "" []). Qed.

Section Calls.

Context {M : MathLib}.

(** X7.  A call is its function applied to its argument.  For each of the
    four names and every argument text with balanced parentheses, the input
    [name(arg)] evaluates to the function of the value of [arg]; when [arg]
    fails, to the error "invalid function argument" with [arg] without its
    spaces. *)
Theorem function_call_value (funcName arg : string) :
  In funcName functionNames -> parenScan arg 1 = Some 1 ->
  exists f,
    mathFunction funcName = Some f
    /\ evaluateExpression (callText funcName arg)
       = match evaluateExpression arg with
         | Ok v => Ok (f v)
         | Err _ => Err (errInvalidFunctionArgument (strings_ReplaceAll_space arg))
         end.
Proof.
  intros Hname Harg.
  destruct (call_normal_form funcName arg Hname Harg)
    as (Hclean & Harg' & Hfun & Hsplit & _ & Hparen).
  set (arg' := strings_ReplaceAll_space arg) in *.
  set (call' := callText funcName arg') in *.
  assert (Hcl : strings_ReplaceAll_space call' = call').
  { rewrite <- Hclean. unfold strings_ReplaceAll_space. apply filter_filter. }
  assert (Hsame : evaluateExpression (callText funcName arg) = evaluateExpression call').
  { apply evaluateExpression_same_body. now rewrite Hclean, Hcl. }
  assert (Hargsame : evaluateExpression arg' = evaluateExpression arg).
  { apply evaluateExpression_same_body. unfold arg', strings_ReplaceAll_space.
    apply filter_filter. }
  pose proof (evaluateExpression_stages call') as H.
  rewrite Hcl in H.
  rewrite <- (append_empty_r call') in H at 2.
  unfold call' in H at 2.
  rewrite (tokenize_call_first funcName arg' "" Hname Harg'), tokenize_nothing in H.
  cbv beta iota delta [mapResult] in H. fold call' in H.
  assert (Hconv : infixToPostfix [call'] = Ok [call']).
  { unfold infixToPostfix. rewrite (infixToPostfix_loop_function _ _ _ _ Hfun).
    simpl. now rewrite Hparen. }
  rewrite Hconv in H. unfold evaluatePostfix in H.
  rewrite (evaluatePostfix_loop_call self call' [] [] Hfun) in H.
  unfold evaluateFunction in H. fold call' in Hsplit. rewrite Hsplit in H.
  cbv beta iota zeta in H. rewrite TrimSuffix_closed in H.
  unfold self in H at 1. rewrite Hargsame in H. rewrite Hsame.
  unfold functionNames in Hname. simpl in Hname.
  destruct Hname as [<-|[<-|[<-|[<-|[]]]]];
    [exists math_Sin|exists math_Cos|exists math_Tan|exists math_Sqrt];
    (split; [reflexivity|]);
    destruct (evaluateExpression arg) as [v|e];
    cbn in H; injection H as H; exact H.
Qed.

(** X8.  A call followed by an operator and a number fails.  The call goes
    to the operator stack and leaves after the operator, so the postfix
    sequence is [num; op; call] and the operator finds one value: the result
    is "insufficient values for operation", whatever the argument is. *)
Theorem call_before_operator (funcName arg op num : string) (v : float) :
  In funcName functionNames -> parenScan arg 1 = Some 1 ->
  isOperator op = true -> strconv.ParseFloat num = Some v ->
  infixToPostfix [callText funcName arg; op; num] = Ok [num; op; callText funcName arg]
  /\ evaluateExpression (callText funcName arg ++ op ++ num) = Err errInsufficientValues.
Proof.
  intros Hname Harg Hop Hv.
  pose proof (ParseFloat_number_run _ _ Hv) as Hrun.
  assert (Hn : isNumber num = true) by (unfold isNumber; now rewrite Hv).
  assert (Hconv : forall a, parenScan a 1 = Some 1 -> isFunction (callText funcName a) = true ->
            precedence (callText funcName a) = 0%Z ->
            String.eqb (callText funcName a) leftParen = false ->
            infixToPostfix [callText funcName a; op; num] = Ok [num; op; callText funcName a]).
  { intros a Ha Hfun Hprec Hparen. unfold infixToPostfix.
    rewrite (infixToPostfix_loop_function _ _ _ _ Hfun).
    rewrite (infixToPostfix_loop_operator op _ _ _ Hop).
    rewrite (popOperators_function_top op _ [] [] Hop Hprec).
    rewrite (infixToPostfix_loop_number num _ _ _ Hn). simpl.
    now rewrite (isOperator_not_leftParen _ Hop), Hparen. }
  split.
  { destruct (call_normal_form funcName arg Hname Harg) as (Hcl & _).
    apply Hconv; [exact Harg| | |].
    all: unfold functionNames in Hname; simpl in Hname; unfold callText.
    - destruct Hname as [<-|[<-|[<-|[<-|[]]]]].
      + change (isFunction ("sin(" ++ (arg ++ ")")) = true).
        unfold isFunction, strings_HasPrefix. now rewrite (prefix_append_self "sin(").
      + change (isFunction ("cos(" ++ (arg ++ ")")) = true).
        unfold isFunction, strings_HasPrefix. now rewrite (prefix_append_self "cos(").
      + change (isFunction ("tan(" ++ (arg ++ ")")) = true).
        unfold isFunction, strings_HasPrefix. now rewrite (prefix_append_self "tan(").
      + change (isFunction ("sqrt(" ++ (arg ++ ")")) = true).
        unfold isFunction, strings_HasPrefix. now rewrite (prefix_append_self "sqrt(").
    - destruct Hname as [<-|[<-|[<-|[<-|[]]]]]; reflexivity.
    - destruct Hname as [<-|[<-|[<-|[<-|[]]]]]; reflexivity. }
  destruct (call_normal_form funcName arg Hname Harg)
    as (Hclean & Harg' & Hfun & _ & Hprec & Hparen).
  set (arg' := strings_ReplaceAll_space arg) in *.
  set (call' := callText funcName arg') in *.
  destruct (isOperator_char _ Hop) as (c & -> & Hopc & Hnot & Hsp).
  pose proof (evaluateExpression_stages (callText funcName arg ++ Str.of_char c ++ num)) as H.
  assert (Hcl : strings_ReplaceAll_space (callText funcName arg ++ Str.of_char c ++ num)
                = (call' ++ String c num)%string).
  { unfold strings_ReplaceAll_space in *. rewrite filter_append, Hclean. f_equal.
    cbn [Str.filter String.append Str.of_char]. unfold notSpace in Hsp. rewrite Hsp.
    f_equal. apply filter_all. fold notSpace. now apply number_run_no_space. }
  rewrite Hcl in H. unfold call' in H at 1.
  rewrite (tokenize_call_first funcName arg' _ Hname Harg') in H.
  rewrite (tokenize_operator_first c num Hopc), (tokenize_number_alone _ Hrun) in H.
  cbv beta iota delta [mapResult] in H.
  rewrite (Hconv arg' Harg' Hfun Hprec Hparen) in H.
  unfold evaluatePostfix in H.
  rewrite (evaluatePostfix_loop_number self num v) in H by exact Hv.
  rewrite (evaluatePostfix_loop_short self _ _ [v] Hop) in H by (simpl; lia).
  injection H as H. exact H.
Qed.

End Calls.

(** ** What the converter does to the stack *)

(** The operator loop moves a front part of the stack, free of left
    parentheses, to the output. *)
Lemma popOperators_split (token : string) (postfix stack : list string) :
  exists popped rest,
    popOperators token postfix stack = (postfix ++ popped, rest)
    /\ stack = popped ++ rest
    /\ Forall (fun t => String.eqb t leftParen = false) popped.
Proof.
  revert postfix. induction stack as [|top stack IH]; intros postfix.
  - exists [], []. rewrite app_nil_r. repeat split. constructor.
  - cbn [popOperators].
    destruct (String.eqb top leftParen) eqn:Etop.
    + exists [], (top :: stack). rewrite app_nil_r. repeat split. constructor.
    + destruct (_ && _).
      * destruct (IH (postfix ++ [top])) as (popped & rest & Hpop & -> & Hall).
        exists (top :: popped), rest. rewrite Hpop, <- app_assoc.
        repeat split. constructor; assumption.
      * exists [], (top :: stack). rewrite app_nil_r. repeat split. constructor.
Qed.

(** The loop of the right parenthesis moves the stack down to its first
    left parenthesis to the output. *)
Lemma popToLeftParen_split (postfix stack : list string) :
  exists popped rest,
    popToLeftParen postfix stack = (postfix ++ popped, rest)
    /\ stack = popped ++ rest
    /\ Forall (fun t => String.eqb t leftParen = false) popped
    /\ (rest = [] \/ exists rest', rest = leftParen :: rest').
Proof.
  revert postfix. induction stack as [|top stack IH]; intros postfix.
  - exists [], []. rewrite app_nil_r. repeat split; [constructor|now left].
  - cbn [popToLeftParen].
    destruct (String.eqb_spec top leftParen) as [->|Hne].
    + exists [], (leftParen :: stack). rewrite app_nil_r.
      repeat split; [constructor|right; eauto].
    + destruct (IH (postfix ++ [top])) as (popped & rest & Hpop & -> & Hall & Hrest).
      exists (top :: popped), rest. simpl. rewrite Hpop, <- app_assoc.
      repeat split; [|exact Hrest].
      constructor; [now apply String.eqb_neq|assumption].
Qed.

(** The final loop succeeds on the stacks without a left parenthesis, and
    appends them to the output. *)
Lemma drainStack_spec (postfix stack : list string) :
  drainStack postfix stack
  = if Nat.eqb (openParens stack) 0 then Ok (postfix ++ stack) else Err errMismatchedParens.
Proof.
  revert postfix. induction stack as [|top stack IH]; intros postfix.
  - simpl. now rewrite app_nil_r.
  - cbn [drainStack]. unfold openParens. cbn [filter].
    rewrite (String.eqb_sym leftParen top).
    destruct (String.eqb top leftParen); [reflexivity|].
    rewrite IH, <- app_assoc. reflexivity.
Qed.

Lemma openParens_app (a b : list string) :
  openParens (a ++ b) = openParens a + openParens b.
Proof. unfold openParens. now rewrite filter_app, length_app. Qed.

Lemma openParens_none (l : list string) :
  Forall (fun t => String.eqb t leftParen = false) l -> openParens l = 0.
Proof.
  unfold openParens. induction 1 as [|t l Ht _ IH]; [reflexivity|].
  cbn [filter]. now rewrite (String.eqb_sym leftParen t), Ht.
Qed.

Lemma isNumber_not_paren (t : string) : isNumber t = true -> isParen t = false.
Proof.
  intros H. pose proof (isNumber_not_operatorOrParen _ H) as Hop.
  unfold isOperatorOrParen in Hop. rewrite !orb_false_iff in Hop.
  destruct Hop as [[_ Hl] Hr]. unfold isParen. now rewrite Hl, Hr.
Qed.

Lemma isFunction_not_paren (t : string) : isFunction t = true -> isParen t = false.
Proof.
  intros H. pose proof (isFunction_not_operatorOrParen _ H) as Hop.
  unfold isOperatorOrParen in Hop. rewrite !orb_false_iff in Hop.
  destruct Hop as [[_ Hl] Hr]. unfold isParen. now rewrite Hl, Hr.
Qed.

Lemma isOperator_not_paren (t : string) : isOperator t = true -> isParen t = false.
Proof.
  unfold isOperator, isParen. rewrite !andb_true_iff, !negb_true_iff.
  intros [[_ Hl] Hr]. now rewrite Hl, Hr.
Qed.

Lemma tokenCase_total (token : string) : tokenCase token.
Proof.
  destruct (isNumber token) eqn:Hn; [now apply caseNumber|].
  destruct (isFunction token) eqn:Hf; [now apply caseFunction|].
  destruct (isOperator token) eqn:Ho; [now apply caseOperator|].
  destruct (String.eqb_spec token leftParen) as [Hl|Hl]; [now apply caseLeft|].
  destruct (String.eqb_spec token rightParen) as [Hr|Hr].
  - apply caseRight; auto. now apply String.eqb_neq.
  - apply caseInvalid. unfold validToken. rewrite Hn, Hf, Ho.
    apply String.eqb_neq in Hl, Hr. now rewrite Hl, Hr.
Qed.

(** Every turn of the loop is one of the steps. *)
Lemma infixToPostfix_loop_cons (token : string) (tokens postfix stack : list string) :
  exists r,
    loopStep token postfix stack r
    /\ infixToPostfix_loop (token :: tokens) postfix stack
       = match r with
         | Ok ps => infixToPostfix_loop tokens (fst ps) (snd ps)
         | Err e => Err e
         end.
Proof.
  cbn [infixToPostfix_loop].
  destruct (tokenCase_total token) as [Hn|Hn Hf|Hn Hf Ho|Hn Hf Ho Hl|Hn Hf Ho Hl Hr|Hinv].
  - rewrite Hn. eexists. split; [now apply stepNumber|reflexivity].
  - rewrite Hn, Hf. eexists. split; [now apply stepFunction|reflexivity].
  - rewrite Hn, Hf, Ho.
    destruct (popOperators_split token postfix stack) as (popped & rest & Hpop & Hs & Hall).
    rewrite Hpop. eexists. split; [exact (stepOperator _ _ _ popped rest Hn Ho Hs Hall)|].
    reflexivity.
  - rewrite Hn, Hf, Ho. subst token. cbn [String.eqb Ascii.eqb Bool.eqb leftParen].
    eexists. split; [now apply stepLeftParen|reflexivity].
  - rewrite Hn, Hf, Ho, Hl. subst token.
    change (String.eqb rightParen rightParen) with true. cbv iota.
    destruct (popToLeftParen_split postfix stack)
      as (popped & rest & Hpop & Hs & Hall & Hrest).
    rewrite Hpop. destruct Hrest as [->|[rest' ->]].
    + rewrite app_nil_r in Hs. subst popped.
      eexists. split; [now apply stepRightParenAlone|reflexivity].
    + destruct rest' as [|top rest'].
      * eexists. split; [exact (stepRightParen _ _ _ popped [] eq_refl Hs Hall)|].
        reflexivity.
      * destruct (isFunction top) eqn:Htop.
        -- eexists. split;
             [exact (stepRightParenCall _ _ _ popped rest' top eq_refl Hs Hall Htop)|].
           reflexivity.
        -- eexists. split;
             [exact (stepRightParen _ _ _ popped (top :: rest') eq_refl Hs Hall)|].
           reflexivity.
  - unfold validToken in Hinv. rewrite !orb_false_iff in Hinv.
    destruct Hinv as [[[[Hn Hf] Ho] Hl] Hr]. rewrite Hn, Hf, Ho, Hl, Hr.
    eexists. split; [apply stepInvalid|reflexivity].
    unfold validToken. now rewrite Hn, Hf, Ho, Hl, Hr.
Qed.

(** ** The converter and the parentheses *)

Lemma parenDepth_cons (token : string) (tokens : list string) (depth : nat) :
  parenDepth (token :: tokens) depth
  = match parenDepth [token] depth with
    | Some depth' => parenDepth tokens depth'
    | None => None
    end.
Proof.
  cbn [parenDepth].
  destruct (String.eqb token leftParen); [reflexivity|].
  destruct (String.eqb token rightParen); [|reflexivity].
  destruct depth; reflexivity.
Qed.

Lemma parenDepth_other (token : string) (depth : nat) :
  isParen token = false -> parenDepth [token] depth = Some depth.
Proof.
  unfold isParen. rewrite orb_false_iff. intros [Hl Hr].
  cbn [parenDepth]. now rewrite Hl, Hr.
Qed.

Lemma openParens_cons_other (token : string) (stack : list string) :
  String.eqb token leftParen = false -> openParens (token :: stack) = openParens stack.
Proof.
  intros H. unfold openParens. cbn [filter].
  now rewrite (String.eqb_sym leftParen token), H.
Qed.

Lemma isParen_left (token : string) :
  isParen token = false -> String.eqb token leftParen = false.
Proof. unfold isParen. rewrite orb_false_iff. tauto. Qed.

Lemma validToken_cases (token : string) :
  isNumber token = true \/ isFunction token = true \/ isOperator token = true
  \/ token = leftParen \/ token = rightParen ->
  validToken token = true.
Proof.
  unfold validToken. rewrite !orb_true_iff, !String.eqb_eq. tauto.
Qed.

Lemma loopStep_depth (token : string) (postfix stack : list string)
      (r : result (list string * list string)) :
  loopStep token postfix stack r ->
  match r with
  | Ok ps => validToken token = true
             /\ parenDepth [token] (openParens stack) = Some (openParens (snd ps))
  | Err e => validToken token = false
             \/ (e = errMismatchedParens /\ parenDepth [token] (openParens stack) = None)
  end.
Proof.
  intros Hstep.
  destruct Hstep as [Hn|Hn Hf|popped rest Hn Ho Hs Hall| ->
                    |popped rest top -> Hs Hall Htop|popped rest -> Hs Hall
                    | -> Hall|Hinv]; cbn [snd].
  - split; [apply validToken_cases; tauto|]. now apply parenDepth_other, isNumber_not_paren.
  - pose proof (isFunction_not_paren _ Hf) as Hp.
    split; [apply validToken_cases; tauto|].
    rewrite (openParens_cons_other _ _ (isParen_left _ Hp)). now apply parenDepth_other.
  - pose proof (isOperator_not_paren _ Ho) as Hp.
    split; [apply validToken_cases; tauto|].
    rewrite (openParens_cons_other _ _ (isParen_left _ Hp)).
    rewrite Hs, openParens_app, (openParens_none _ Hall). now apply parenDepth_other.
  - split; [apply validToken_cases; tauto|]. reflexivity.
  - split; [apply validToken_cases; tauto|].
    rewrite Hs, openParens_app, (openParens_none _ Hall).
    pose proof (isFunction_not_paren _ Htop) as Hp.
    change (openParens (leftParen :: top :: rest)) with (S (openParens (top :: rest))).
    rewrite (openParens_cons_other _ _ (isParen_left _ Hp)). reflexivity.
  - split; [apply validToken_cases; tauto|].
    rewrite Hs, openParens_app, (openParens_none _ Hall). reflexivity.
  - right. split; [reflexivity|]. now rewrite (openParens_none _ Hall).
  - now left.
Qed.

Lemma infixToPostfix_loop_depth (tokens postfix stack : list string) :
  match infixToPostfix_loop tokens postfix stack with
  | Ok ps => forallb validToken tokens = true
             /\ parenDepth tokens (openParens stack) = Some (openParens (snd ps))
  | Err e => forallb validToken tokens = false
             \/ (e = errMismatchedParens /\ parenDepth tokens (openParens stack) = None)
  end.
Proof.
  revert postfix stack. induction tokens as [|token tokens IH]; intros postfix stack.
  - simpl. split; reflexivity.
  - destruct (infixToPostfix_loop_cons token tokens postfix stack) as (r & Hstep & ->).
    apply loopStep_depth in Hstep. rewrite parenDepth_cons. cbn [forallb].
    destruct r as [ps|e].
    + destruct Hstep as [Hvalid Hdepth]. rewrite Hvalid, Hdepth. cbn [andb].
      apply IH.
    + destruct Hstep as [Hinv|[-> Hnone]].
      * left. now rewrite Hinv.
      * destruct (validToken token); [|now left].
        right. now rewrite Hnone.
Qed.

(** Among the tokens of the shapes [tokenize] emits, those [infixToPostfix]
    has no case for are the runs of digits and points that are no number. *)
Lemma shaped_token_valid (t : string) :
  tokenShape t = true -> validToken t = negb (isNumberRun t) || isNumber t.
Proof.
  unfold tokenShape, validToken. intros H.
  destruct (isNumberRun t) eqn:Hrun.
  - destruct (number_run_classes _ Hrun) as [Hf Hop].
    unfold isOperator. rewrite Hf, Hop. cbn [negb orb andb].
    unfold isOperatorOrParen in Hop. rewrite !orb_false_iff in Hop.
    destruct Hop as [[_ Hl] Hr]. rewrite Hl, Hr. now rewrite !orb_false_r.
  - cbn [negb orb] in *. apply orb_true_iff in H as [Hop|[Hf _]%andb_true_iff].
    + unfold isOperator. rewrite Hop. cbn [andb].
      destruct (String.eqb t leftParen); [now rewrite !orb_true_r|].
      destruct (String.eqb t rightParen); [now rewrite !orb_true_r|].
      cbn [negb andb]. now rewrite !orb_true_r.
    + rewrite Hf. now rewrite orb_true_r.
Qed.

(** X9.  On tokens of the shapes [tokenize] emits, [infixToPostfix]
    succeeds on the sequences whose runs of digits and points are all
    numbers and whose parentheses are balanced, and on no other; with a
    right parenthesis that closes nothing, or a left one that is not closed,
    such a sequence is the error "mismatched parentheses". *)
Theorem infixToPostfix_balanced (tokens : list string) :
  Forall (fun t => tokenShape t = true) tokens ->
  forallb validToken tokens
  = forallb (fun t => negb (isNumberRun t) || isNumber t) tokens
  /\ (forall postfix, infixToPostfix tokens = Ok postfix ->
        forallb validToken tokens = true /\ parenDepth tokens 0 = Some 0)
  /\ (forallb validToken tokens = true -> parenDepth tokens 0 = Some 0 ->
      exists postfix, infixToPostfix tokens = Ok postfix)
  /\ (forallb validToken tokens = true -> parenDepth tokens 0 <> Some 0 ->
      infixToPostfix tokens = Err errMismatchedParens).
Proof.
  intros Hshape. split.
  { induction Hshape as [|t tokens Ht _ IH]; [reflexivity|].
    cbn [forallb]. now rewrite IH, (shaped_token_valid _ Ht). }
  unfold infixToPostfix.
  pose proof (infixToPostfix_loop_depth tokens [] []) as H.
  destruct (infixToPostfix_loop tokens [] []) as [[p s]|e]; cbn [bind fst snd] in *.
  - destruct H as [Hvalid Hdepth]. change (openParens []) with 0 in Hdepth.
    rewrite drainStack_spec. split; [|split].
    + intros postfix Hok. split; [exact Hvalid|].
      destruct (Nat.eqb_spec (openParens s) 0) as [E|_]; [|discriminate].
      now rewrite Hdepth, E.
    + intros _ Hd. rewrite Hd in Hdepth. injection Hdepth as <-. eexists. reflexivity.
    + intros _ Hd. destruct (Nat.eqb_spec (openParens s) 0) as [E|_]; [|reflexivity].
      exfalso. apply Hd. now rewrite Hdepth, E.
  - change (openParens []) with 0 in H. split; [|split].
    + intros postfix Hok. discriminate.
    + intros Hvalid Hd. destruct H as [H|[_ H]]; congruence.
    + intros Hvalid _. destruct H as [H|[-> _]]; [congruence|reflexivity].
Qed.

(** ** The converter moves the tokens and keeps the numbers in order *)

Lemma withoutParens_id (l : list string) :
  noLeftParen l -> noRightParen l -> withoutParens l = l.
Proof.
  unfold noLeftParen, noRightParen, withoutParens.
  induction l as [|t l IH]; intros Hl Hr; [reflexivity|].
  inversion Hl as [|? ? Hlt Hl']; inversion Hr as [|? ? Hrt Hr']; subst.
  cbn [filter]. unfold isParen at 1. rewrite Hlt, Hrt. cbn [orb negb].
  f_equal. now apply IH.
Qed.

Lemma withoutParens_app (a b : list string) :
  withoutParens (a ++ b) = withoutParens a ++ withoutParens b.
Proof. apply filter_app. Qed.

Lemma withoutParens_cons_other (t : string) (l : list string) :
  isParen t = false -> withoutParens (t :: l) = t :: withoutParens l.
Proof. intros H. unfold withoutParens. cbn [filter]. now rewrite H. Qed.

Lemma Forall_app_l {A : Type} (P : A -> Prop) (a b : list A) :
  Forall P (a ++ b) -> Forall P a.
Proof. intros H. now apply Forall_app in H. Qed.

Lemma Forall_app_r {A : Type} (P : A -> Prop) (a b : list A) :
  Forall P (a ++ b) -> Forall P b.
Proof. intros H. now apply Forall_app in H. Qed.

Lemma loopStep_moves (token : string) (postfix stack : list string)
      (ps : list string * list string) :
  loopStep token postfix stack (Ok ps) -> noRightParen stack ->
  Permutation (fst ps ++ withoutParens (snd ps))
    (postfix ++ withoutParens stack ++ withoutParens [token])
  /\ noRightParen (snd ps).
Proof.
  intros Hstep Hstack. unfold noRightParen in *.
  inversion Hstep as [Hn|Hn Hf|popped rest Hn Ho Hs Hall|Ht
                     |popped rest top Ht Hs Hall Htop|popped rest Ht Hs Hall| |];
    subst; cbn [fst snd].
  - split; [|exact Hstack].
    rewrite (withoutParens_cons_other _ [] (isNumber_not_paren _ Hn)).
    cbn [withoutParens filter]. rewrite <- app_assoc.
    apply Permutation_app_head, Permutation_app_comm.
  - pose proof (isFunction_not_paren _ Hf) as Hp. split.
    + rewrite !(withoutParens_cons_other _ _ Hp). cbn [withoutParens filter].
      apply Permutation_app_head. apply Permutation_cons_append.
    + constructor; [|exact Hstack].
      unfold isParen in Hp. rewrite orb_false_iff in Hp. tauto.
  - pose proof (isOperator_not_paren _ Ho) as Hp. split.
    + rewrite !(withoutParens_cons_other _ _ Hp), withoutParens_app.
      rewrite (withoutParens_id popped Hall (Forall_app_l _ _ _ Hstack)).
      cbn [withoutParens filter]. rewrite <- !app_assoc.
      apply Permutation_app_head, Permutation_app_head, Permutation_cons_append.
    + constructor; [|exact (Forall_app_r _ _ _ Hstack)].
      unfold isParen in Hp. rewrite orb_false_iff in Hp. tauto.
  - split; [|constructor; [reflexivity|exact Hstack]].
    cbn. now rewrite app_nil_r.
  - pose proof (isFunction_not_paren _ Htop) as Hp.
    pose proof (Forall_app_r _ _ _ Hstack) as Hrest.
    inversion Hrest as [|? ? _ Hrest']. inversion Hrest' as [|? ? _ Hrest''].
    split; [|exact Hrest''].
    rewrite withoutParens_app, (withoutParens_id popped Hall (Forall_app_l _ _ _ Hstack)).
    change (withoutParens (leftParen :: top :: rest)) with (withoutParens (top :: rest)).
    rewrite (withoutParens_cons_other _ _ Hp). cbn. rewrite app_nil_r, <- !app_assoc.
    reflexivity.
  - pose proof (Forall_app_r _ _ _ Hstack) as Hrest.
    inversion Hrest as [|? ? _ Hrest'].
    split; [|exact Hrest'].
    rewrite withoutParens_app, (withoutParens_id popped Hall (Forall_app_l _ _ _ Hstack)).
    change (withoutParens (leftParen :: rest)) with (withoutParens rest).
    cbn. rewrite app_nil_r, <- !app_assoc. reflexivity.
Qed.

Lemma infixToPostfix_loop_moves (tokens postfix stack : list string)
      (ps : list string * list string) :
  infixToPostfix_loop tokens postfix stack = Ok ps -> noRightParen stack ->
  Permutation (fst ps ++ withoutParens (snd ps))
    (postfix ++ withoutParens stack ++ withoutParens tokens)
  /\ noRightParen (snd ps).
Proof.
  revert postfix stack. induction tokens as [|token tokens IH]; intros postfix stack H Hstack.
  - simpl in H. injection H as <-. cbn. now rewrite app_nil_r.
  - destruct (infixToPostfix_loop_cons token tokens postfix stack) as (r & Hstep & Heq).
    rewrite Heq in H. destruct r as [ps1|e]; [|discriminate].
    destruct (loopStep_moves _ _ _ _ Hstep Hstack) as [Hperm1 Hstack1].
    destruct (IH _ _ H Hstack1) as [Hperm Hs]. split; [|exact Hs].
    etransitivity; [exact Hperm|].
    change (token :: tokens) with ([token] ++ tokens). rewrite withoutParens_app.
    rewrite !app_assoc. apply Permutation_app_tail.
    rewrite <- app_assoc. exact Hperm1.
Qed.

Lemma openParens_zero (l : list string) : openParens l = 0 -> noLeftParen l.
Proof.
  unfold openParens, noLeftParen. induction l as [|t l IH]; intros H; constructor.
  - cbn [filter] in H. rewrite String.eqb_sym.
    destruct (String.eqb leftParen t); [discriminate H|reflexivity].
  - apply IH. cbn [filter] in H. destruct (String.eqb leftParen t); [discriminate H|exact H].
Qed.

Lemma infixToPostfix_moves (tokens postfix : list string) :
  infixToPostfix tokens = Ok postfix -> Permutation postfix (withoutParens tokens).
Proof.
  unfold infixToPostfix. intros H.
  destruct (infixToPostfix_loop tokens [] []) as [[p s]|] eqn:E; [|discriminate].
  cbn [bind fst snd] in H. rewrite drainStack_spec in H.
  destruct (Nat.eqb_spec (openParens s) 0) as [Hz|_]; [|discriminate].
  injection H as <-.
  destruct (infixToPostfix_loop_moves _ _ _ _ E (Forall_nil _)) as [Hperm Hs].
  cbn [fst snd] in Hperm, Hs.
  change (withoutParens []) with (@nil string) in Hperm. cbn [app] in Hperm.
  now rewrite (withoutParens_id s (openParens_zero _ Hz) Hs) in Hperm.
Qed.

Lemma infixToPostfix_valid (tokens postfix : list string) :
  infixToPostfix tokens = Ok postfix -> forallb validToken tokens = true.
Proof.
  unfold infixToPostfix. intros H.
  pose proof (infixToPostfix_loop_depth tokens [] []) as Hd.
  destruct (infixToPostfix_loop tokens [] []) as [ps|]; [|discriminate]. tauto.
Qed.

(** X10.  The conversion loses and invents nothing: the postfix sequence is
    a rearrangement of the tokens of the input that are no parentheses, and
    holds no parenthesis. *)
Theorem infixToPostfix_permutation (tokens postfix : list string) :
  infixToPostfix tokens = Ok postfix ->
  Permutation postfix (withoutParens tokens)
  /\ Forall (fun t => isParen t = false) postfix
  /\ List.length postfix = List.length (withoutParens tokens).
Proof.
  intros H. pose proof (infixToPostfix_moves _ _ H) as Hperm.
  split; [exact Hperm|]. split; [|now apply Permutation_length].
  rewrite Forall_forall. intros t Ht.
  apply (Permutation_in _ Hperm) in Ht. unfold withoutParens in Ht.
  apply filter_In in Ht as [_ Ht]. now apply negb_true_iff.
Qed.

Lemma filter_noNumber (l : list string) : noNumber l -> filter isNumber l = [].
Proof.
  induction 1 as [|t l Ht _ IH]; [reflexivity|]. cbn [filter]. now rewrite Ht.
Qed.

Lemma loopStep_numbers (token : string) (postfix stack : list string)
      (ps : list string * list string) :
  loopStep token postfix stack (Ok ps) -> noNumber stack ->
  filter isNumber (fst ps) = filter isNumber postfix ++ filter isNumber [token]
  /\ noNumber (snd ps).
Proof.
  intros Hstep Hstack. unfold noNumber in *.
  inversion Hstep as [Hn|Hn Hf|popped rest Hn Ho Hs Hall|Ht
                     |popped rest top Ht Hs Hall Htop|popped rest Ht Hs Hall| |];
    subst; cbn [fst snd].
  - split; [apply filter_app|exact Hstack].
  - split; [|constructor; assumption].
    cbn [filter]. rewrite Hn. now rewrite app_nil_r.
  - split; [|constructor; [assumption|exact (Forall_app_r _ _ _ Hstack)]].
    rewrite filter_app, (filter_noNumber popped (Forall_app_l _ _ _ Hstack)).
    cbn [filter]. now rewrite Hn.
  - split; [|constructor; [reflexivity|exact Hstack]]. cbn. now rewrite app_nil_r.
  - pose proof (Forall_app_r _ _ _ Hstack) as Hrest.
    inversion Hrest as [|? ? _ Hrest']. inversion Hrest' as [|? ? Htn Hrest''].
    split; [|exact Hrest''].
    rewrite !filter_app, (filter_noNumber popped (Forall_app_l _ _ _ Hstack)).
    cbn [filter]. rewrite Htn. cbn. now rewrite !app_nil_r.
  - pose proof (Forall_app_r _ _ _ Hstack) as Hrest.
    inversion Hrest as [|? ? _ Hrest'].
    split; [|exact Hrest'].
    rewrite filter_app, (filter_noNumber popped (Forall_app_l _ _ _ Hstack)).
    cbn. now rewrite !app_nil_r.
Qed.

Lemma infixToPostfix_loop_numbers (tokens postfix stack : list string)
      (ps : list string * list string) :
  infixToPostfix_loop tokens postfix stack = Ok ps -> noNumber stack ->
  filter isNumber (fst ps) = filter isNumber postfix ++ filter isNumber tokens
  /\ noNumber (snd ps).
Proof.
  revert postfix stack. induction tokens as [|token tokens IH]; intros postfix stack H Hstack.
  - simpl in H. injection H as <-. cbn. now rewrite app_nil_r.
  - destruct (infixToPostfix_loop_cons token tokens postfix stack) as (r & Hstep & Heq).
    rewrite Heq in H. destruct r as [ps1|e]; [|discriminate].
    destruct (loopStep_numbers _ _ _ _ Hstep Hstack) as [Hnum1 Hstack1].
    destruct (IH _ _ H Hstack1) as [Hnum Hs]. split; [|exact Hs].
    rewrite Hnum, Hnum1, <- app_assoc.
    change (token :: tokens) with ([token] ++ tokens). now rewrite filter_app.
Qed.

(** X11.  The numbers keep their order: the number tokens of the postfix
    sequence are the number tokens of the input, in the order of the input.
    Only operators and calls change place. *)
Theorem infixToPostfix_numbers_in_order (tokens postfix : list string) :
  infixToPostfix tokens = Ok postfix ->
  filter isNumber postfix = filter isNumber tokens.
Proof.
  unfold infixToPostfix. intros H.
  destruct (infixToPostfix_loop tokens [] []) as [[p s]|] eqn:E; [|discriminate].
  cbn [bind fst snd] in H. rewrite drainStack_spec in H.
  destruct (Nat.eqb (openParens s) 0); [|discriminate]. injection H as <-.
  destruct (infixToPostfix_loop_numbers _ _ _ _ E (Forall_nil _)) as [Hnum Hs].
  cbn [fst snd] in Hnum, Hs.
  rewrite filter_app, Hnum, (filter_noNumber s Hs). cbn. now rewrite app_nil_r.
Qed.

(** ** Two operators *)

Lemma groupsLeft_pop (o1 o2 : string) (postfix : list string) :
  isOperator o1 = true -> isOperator o2 = true ->
  popOperators o2 postfix [o1]
  = if groupsLeft o1 o2 then (postfix ++ [o1], []) else (postfix, [o1]).
Proof.
  intros H1 H2. apply isOperator_cases in H1, H2. simpl in H1, H2.
  repeat (destruct H1 as [<-|H1]; [|]); try contradiction;
    repeat (destruct H2 as [<-|H2]; [reflexivity|]); contradiction.
Qed.

Section TwoOperators.

Context {M : MathLib}.
Variable recur : string -> option (result float).

(** X12.  How two operators group.  In [a o1 b o2 c] the left operator is
    applied first when it binds tighter than the right one, or as tightly
    and to the left (+ - * /); otherwise the right one is (a tighter right
    operator, or ^ after ^).  The postfix sequence and its value say so,
    for all twenty-five pairs of operators. *)
Theorem two_operators_group (ta tb tc o1 o2 : string) (a b c : float) :
  strconv.ParseFloat ta = Some a -> strconv.ParseFloat tb = Some b ->
  strconv.ParseFloat tc = Some c ->
  isOperator o1 = true -> isOperator o2 = true ->
  infixToPostfix [ta; o1; tb; o2; tc]
  = Ok (if groupsLeft o1 o2 then [ta; tb; o1; tc; o2] else [ta; tb; tc; o2; o1])
  /\ evaluatePostfix recur
       (if groupsLeft o1 o2 then [ta; tb; o1; tc; o2] else [ta; tb; tc; o2; o1])
     = Some (if groupsLeft o1 o2
             then r <- applyOperator o1 a b ;; applyOperator o2 r c
             else r <- applyOperator o2 b c ;; applyOperator o1 a r).
Proof.
  intros Ha Hb Hc H1 H2.
  assert (Hna : isNumber ta = true) by (unfold isNumber; now rewrite Ha).
  assert (Hnb : isNumber tb = true) by (unfold isNumber; now rewrite Hb).
  assert (Hnc : isNumber tc = true) by (unfold isNumber; now rewrite Hc).
  assert (Hconv : infixToPostfix [ta; o1; tb; o2; tc]
                  = Ok (if groupsLeft o1 o2 then [ta; tb; o1; tc; o2]
                        else [ta; tb; tc; o2; o1])).
  { unfold infixToPostfix.
    rewrite (infixToPostfix_loop_number ta _ _ _ Hna).
    rewrite (infixToPostfix_loop_operator o1 _ _ _ H1). cbn [popOperators app].
    rewrite (infixToPostfix_loop_number tb _ _ _ Hnb).
    rewrite (infixToPostfix_loop_operator o2 _ _ _ H2).
    rewrite (groupsLeft_pop o1 o2 _ H1 H2).
    destruct (groupsLeft o1 o2);
      rewrite (infixToPostfix_loop_number tc _ _ _ Hnc);
      cbn [infixToPostfix_loop bind fst snd app drainStack];
      rewrite (isOperator_not_leftParen _ H2);
      try rewrite (isOperator_not_leftParen _ H1); reflexivity. }
  split; [exact Hconv|]. unfold evaluatePostfix.
  destruct (groupsLeft o1 o2).
  - rewrite (evaluatePostfix_loop_number recur ta a), (evaluatePostfix_loop_number recur tb b)
      by assumption.
    rewrite (evaluatePostfix_loop_binary recur o1 a b _ _ H1).
    destruct (applyOperator o1 a b) as [r|e]; [|reflexivity].
    rewrite (evaluatePostfix_loop_number recur tc c) by assumption.
    rewrite (evaluatePostfix_loop_binary recur o2 r c _ _ H2).
    cbn [bind]. destruct (applyOperator o2 r c); reflexivity.
  - rewrite (evaluatePostfix_loop_number recur ta a), (evaluatePostfix_loop_number recur tb b),
      (evaluatePostfix_loop_number recur tc c) by assumption.
    rewrite (evaluatePostfix_loop_binary recur o2 b c _ _ H2).
    destruct (applyOperator o2 b c) as [r|e]; [|reflexivity].
    rewrite (evaluatePostfix_loop_binary recur o1 a r _ _ H1).
    cbn [bind]. destruct (applyOperator o1 a r); reflexivity.
Qed.

End TwoOperators.

(** ** The tokens of the tokenizer *)

Lemma FindString_cases (rest found : string) :
  functionRegex_FindString rest = found -> found <> "" ->
  In found ["sin("; "cos("; "tan("; "sqrt("] /\ exists tail, rest = (found ++ tail)%string.
Proof.
  unfold functionRegex_FindString. intros H Hne.
  destruct (String.prefix "sin(" rest) eqn:E1;
    [subst found; split; [simpl; auto|now apply prefix_append]|].
  destruct (String.prefix "cos(" rest) eqn:E2;
    [subst found; split; [simpl; auto|now apply prefix_append]|].
  destruct (String.prefix "tan(" rest) eqn:E3;
    [subst found; split; [simpl; auto|now apply prefix_append]|].
  destruct (String.prefix "sqrt(" rest) eqn:E4;
    [subst found; split; [simpl; auto 6|now apply prefix_append]|].
  congruence.
Qed.

(** When the inner loop of [tokenize] stops at depth zero, the last byte it
    read is a right parenthesis. *)
Lemma scanParens_closed (s : string) (count j0 j : nat) :
  scanParens s (S count) j0 = (0, j) ->
  j0 < j /\ exists body, Str.take (j - j0) s = (body ++ ")")%string.
Proof.
  revert count j0. induction s as [|c s IH]; intros count j0 H; [discriminate H|].
  cbn [scanParens] in H.
  destruct (Ascii.eqb_spec c "(") as [->|Hl].
  { destruct (IH _ _ H) as [Hlt [body Hbody]]. split; [lia|].
    exists (String "(" body). replace (j - j0) with (S (j - S j0)) by lia.
    cbn [Str.take]. now rewrite Hbody. }
  destruct (Ascii.eqb_spec c ")") as [->|Hr].
  - destruct count as [|count].
    + cbn [Nat.pred] in H. destruct s; cbn [scanParens] in H;
        injection H as <-; (split; [lia|]); exists "";
        replace (S j0 - j0) with 1 by lia; reflexivity.
    + cbn [Nat.pred] in H. destruct (IH _ _ H) as [Hlt [body Hbody]]. split; [lia|].
      exists (String ")" body). replace (j - j0) with (S (j - S j0)) by lia.
      cbn [Str.take]. now rewrite Hbody.
  - destruct (IH _ _ H) as [Hlt [body Hbody]]. split; [lia|].
    exists (String c body). replace (j - j0) with (S (j - S j0)) by lia.
    cbn [Str.take]. now rewrite Hbody.
Qed.

Lemma take_add (a b : string) (n : nat) :
  Str.take (String.length a + n) (a ++ b) = (a ++ Str.take n b)%string.
Proof. induction a as [|c a IH]; [reflexivity|]. cbn. now rewrite IH. Qed.

Lemma call_token_shape (found body : string) :
  In found ["sin("; "cos("; "tan("; "sqrt("] ->
  tokenShape (found ++ body ++ ")") = true.
Proof.
  intros Hfound. unfold tokenShape.
  assert (Hf : isFunction (found ++ body ++ ")") = true).
  { unfold isFunction, strings_HasPrefix. simpl in Hfound.
    destruct Hfound as [<-|[<-|[<-|[<-|[]]]]].
    - now rewrite (prefix_append_self "sin(").
    - now rewrite (prefix_append_self "cos(").
    - now rewrite (prefix_append_self "tan(").
    - now rewrite (prefix_append_self "sqrt("). }
  assert (He : endsWithParen (found ++ body ++ ")") = true).
  { unfold endsWithParen. rewrite <- append_assoc.
    change ")" with (Str.of_char ")"). now rewrite unsnoc_snoc. }
  rewrite Hf, He. apply orb_true_r.
Qed.

Lemma flushNumber_shapes (number : string) (tokens : list string) :
  Str.forallb isNumberChar number = true ->
  Forall (fun t => tokenShape t = true) tokens ->
  Forall (fun t => tokenShape t = true) (flushNumber number tokens).
Proof.
  intros Hn Hts. unfold flushNumber.
  destruct (0 <? String.length number)%nat eqn:E; [|exact Hts].
  apply Forall_app. split; [exact Hts|]. constructor; [|constructor].
  unfold tokenShape, isNumberRun. now rewrite Hn, E.
Qed.

Lemma shapes_snoc (tokens : list string) (t : string) :
  Forall (fun t => tokenShape t = true) tokens -> tokenShape t = true ->
  Forall (fun t => tokenShape t = true) (tokens ++ [t]).
Proof. intros Hts Ht. apply Forall_app. split; [exact Hts|]. now constructor. Qed.

Lemma tokenize_loop_shapes (rest number : string) (tokens res : list string) :
  tokenize_loop rest number tokens = Ok res ->
  Str.forallb isNumberChar number = true ->
  Forall (fun t => tokenShape t = true) tokens ->
  Forall (fun t => tokenShape t = true) res.
Proof.
  funelim (tokenize_loop rest number tokens); intros Hres Hnum Htok.
  all: try rewrite <- Heqcall in Hres.
  - injection Hres as <-. now apply flushNumber_shapes.
  - match goal with IH : forall res, _ |- _ => apply (IH _ Hres); [|exact Htok] end.
    rewrite forallb_append, Hnum. simpl. unfold isNumberChar. now rewrite Heq.
  - match goal with IH : forall res, _ |- _ => apply (IH _ Hres); [reflexivity|] end.
    apply shapes_snoc; [now apply flushNumber_shapes|]. unfold tokenShape. rewrite Heq.
    now rewrite orb_true_r.
  - discriminate Hres.
  - match goal with IH : forall res, _ |- _ => apply (IH _ Hres); [reflexivity|] end.
    apply shapes_snoc; [now apply flushNumber_shapes|].
    destruct (FindString_cases _ _ Hmatch ltac:(discriminate)) as [Hfound [tail Htail]].
    destruct (scanParens_closed _ _ _ _ Hscan) as [Hlt [body Hbody]].
    rewrite Htail in Hbody |- *. rewrite drop_append in Hbody.
    replace j with (String.length (String m0 m') + (j - String.length (String m0 m')))
      by lia.
    rewrite take_add, Hbody. now apply call_token_shape.
  - discriminate Hres.
Qed.

(** X13.  Every token of [tokenize] has one of three shapes: a non-empty
    run of digits and points, a single operator or parenthesis character,
    or a call [name(...)] of one of the four functions that ends with a
    right parenthesis. *)
Theorem tokenize_shapes (input : string) (tokens : list string) :
  tokenize input = Ok tokens -> Forall (fun t => tokenShape t = true) tokens.
Proof.
  intros H. apply (tokenize_loop_shapes _ _ _ _ H); [reflexivity|constructor].
Qed.

Lemma tokenize_loop_errors (rest number : string) (tokens : list string) (e : error) :
  tokenize_loop rest number tokens = Err e ->
  e = errUnmatchedFunctionParens
  \/ exists c, e = errInvalidCharacter c /\ isPlainChar c = false.
Proof.
  funelim (tokenize_loop rest number tokens); intros Hres.
  all: try rewrite <- Heqcall in Hres.
  all: try discriminate Hres.
  all: try (match goal with IH : forall e, _ |- _ => exact (IH _ Hres) end).
  - injection Hres as <-. right. exists char. split; [reflexivity|].
    unfold isPlainChar, isNumberChar. now rewrite Heq0, Heq.
  - injection Hres as <-. now left.
Qed.

Lemma tokenize_loop_plain (rest number : string) (tokens : list string) :
  Str.forallb isPlainChar rest = true ->
  exists res, tokenize_loop rest number tokens = Ok res.
Proof.
  revert number tokens. induction rest as [|c rest IH]; intros number tokens H.
  - rewrite tokenize_loop_empty. eauto.
  - cbn [Str.forallb] in H. apply andb_true_iff in H as [Hc Hrest].
    rewrite tokenize_loop_step. unfold isPlainChar in Hc.
    destruct (isNumberChar c); [now apply IH|].
    cbn [orb] in Hc. rewrite Hc. now apply IH.
Qed.

(** X14.  [tokenize] fails in two ways only: on a byte that is no digit,
    point, operator or parenthesis and starts no function name, with
    "invalid character", and on a call that is not closed, with "unmatched
    function parentheses".  An input of digits, points, operators and
    parentheses alone always has tokens. *)
Theorem tokenize_failures (input : string) :
  (forall e, tokenize input = Err e ->
      e = errUnmatchedFunctionParens
      \/ exists c, e = errInvalidCharacter c /\ isPlainChar c = false)
  /\ (Str.forallb isPlainChar input = true -> exists tokens, tokenize input = Ok tokens).
Proof.
  split.
  - intros e. apply tokenize_loop_errors.
  - apply tokenize_loop_plain.
Qed.

(** ** The errors of the pipeline *)

Lemma infixToPostfix_loop_errors (tokens postfix stack : list string) (e : error) :
  infixToPostfix_loop tokens postfix stack = Err e ->
  e = errMismatchedParens
  \/ exists t, e = errInvalidToken t /\ In t tokens /\ validToken t = false.
Proof.
  revert postfix stack. induction tokens as [|token tokens IH]; intros postfix stack H;
    [discriminate H|].
  destruct (infixToPostfix_loop_cons token tokens postfix stack) as (r & Hstep & Heq).
  rewrite Heq in H. destruct r as [ps|e'].
  - destruct (IH _ _ H) as [->|(t & -> & Hin & Hinv)]; [now left|].
    right. exists t. repeat split; [now right|exact Hinv].
  - injection H as <-. inversion Hstep; subst; [now left|].
    right. exists token. repeat split; [now left|assumption].
Qed.

Lemma infixToPostfix_errors (tokens : list string) (e : error) :
  infixToPostfix tokens = Err e ->
  e = errMismatchedParens
  \/ exists t, e = errInvalidToken t /\ In t tokens /\ validToken t = false.
Proof.
  unfold infixToPostfix. intros H.
  destruct (infixToPostfix_loop tokens [] []) as [[p s]|e'] eqn:E.
  - cbn [bind fst snd] in H. rewrite drainStack_spec in H.
    destruct (Nat.eqb (openParens s) 0); [discriminate|]. injection H as <-. now left.
  - cbn [bind] in H. injection H as <-. exact (infixToPostfix_loop_errors _ _ _ _ E).
Qed.

Section Errors.

Context {M : MathLib}.

Lemma applyOperator_errors (o : string) (a b : float) (e : error) :
  isOperator o = true -> applyOperator o a b = Err e -> e = errDivideByZero.
Proof.
  intros Ho. apply isOperator_cases in Ho. simpl in Ho.
  destruct Ho as [<-|[<-|[<-|[<-|[<-|[]]]]]]; try discriminate.
  change (applyOperator divideOperator a b) with (divide a b). unfold divide.
  destruct (b =? 0)%float; [|discriminate]. intros H. now injection H as <-.
Qed.

Lemma evaluateFunction_errors (recur : string -> option (result float))
      (token : string) (e : error) :
  isFunction token = true -> evaluateFunction recur token = Some (Err e) ->
  exists argStr, e = errInvalidFunctionArgument argStr.
Proof.
  intros Hf. destruct (isFunction_split _ Hf) as (name & after & Hname & _ & Hsplit).
  unfold evaluateFunction. rewrite Hsplit. cbv beta iota zeta.
  destruct (recur _) as [[arg|e']|]; [|intros H; injection H as <-; eauto|discriminate].
  simpl in Hname.
  destruct Hname as [<-|[<-|[<-|[<-|[]]]]]; discriminate.
Qed.

Lemma evaluatePostfix_loop_errors (recur : string -> option (result float))
      (tokens : list string) (stack : list float) (e : error) :
  evaluatePostfix_loop recur tokens stack = Some (Err e) ->
  e = errInsufficientValues \/ e = errDivideByZero
  \/ (exists argStr, e = errInvalidFunctionArgument argStr)
  \/ (exists t, e = errInvalidToken t /\ In t tokens
                /\ isNumber t = false /\ isFunction t = false /\ isOperator t = false).
Proof.
  revert stack. induction tokens as [|token tokens IH]; intros stack H; [discriminate H|].
  assert (Hrec : forall st, evaluatePostfix_loop recur tokens st = Some (Err e) ->
            e = errInsufficientValues \/ e = errDivideByZero
            \/ (exists argStr, e = errInvalidFunctionArgument argStr)
            \/ (exists t, e = errInvalidToken t /\ In t (token :: tokens)
                          /\ isNumber t = false /\ isFunction t = false
                          /\ isOperator t = false)).
  { intros st Hst. destruct (IH _ Hst) as [?|[?|[?|(t & ? & ? & ?)]]]; auto.
    do 3 right. exists t. repeat split; [assumption|now right|tauto..]. }
  cbn [evaluatePostfix_loop] in H.
  destruct (isNumber token) eqn:Hn.
  { unfold isNumber in Hn. destruct (strconv.ParseFloat token); [|discriminate Hn].
    exact (Hrec _ H). }
  destruct (isFunction token) eqn:Hf.
  { destruct (evaluateFunction recur token) as [[r|e']|] eqn:E; [exact (Hrec _ H)| |discriminate].
    injection H as <-. right. right. left. exact (evaluateFunction_errors _ _ _ Hf E). }
  destruct (isOperator token) eqn:Ho.
  { destruct stack as [|b [|a stack]]; try (injection H as <-; now left).
    destruct (applyOperator token a b) as [r|e'] eqn:E; [exact (Hrec _ H)|].
    injection H as <-. right. left. exact (applyOperator_errors _ _ _ _ Ho E). }
  injection H as <-. do 3 right. exists token. repeat split; [now left|assumption..].
Qed.

(** X15.  The errors of [evaluateExpression].  Four of the errors the code
    defines are never its result: "invalid operator", "invalid number",
    "invalid function format" and "unsupported function"; and the only
    tokens it reports as invalid are runs of digits and points that are no
    number for [ParseFloat]. *)
Theorem evaluateExpression_errors (input : string) (e : error) :
  evaluateExpression input = Err e ->
  reachableError e = true
  /\ (forall t, e = errInvalidToken t ->
                isNumberRun t = true /\ strconv.ParseFloat t = None).
Proof.
  intros H. pose proof (evaluateExpression_stages input) as Hst. rewrite H in Hst.
  destruct (tokenize (strings_ReplaceAll_space input)) as [tokens|e1] eqn:Et.
  2:{ injection Hst as <-.
      destruct (tokenize_loop_errors _ _ _ _ Et) as [->|(c & -> & _)];
        (split; [reflexivity|discriminate]). }
  pose proof (tokenize_loop_shapes _ _ _ _ Et eq_refl (Forall_nil _)) as Hshapes.
  destruct (infixToPostfix tokens) as [postfix|e2] eqn:Ep.
  2:{ injection Hst as <-.
      destruct (infixToPostfix_errors _ _ Ep) as [->|(t & -> & Hin & Hinv)];
        (split; [reflexivity|]); [discriminate|].
      intros t' Heq. injection Heq as <-.
      rewrite Forall_forall in Hshapes. specialize (Hshapes _ Hin).
      unfold validToken in Hinv. rewrite !orb_false_iff in Hinv.
      destruct Hinv as [[[[Hn Hf] Ho] Hl] Hr].
      unfold tokenShape in Hshapes. rewrite Hf in Hshapes. cbn [andb] in Hshapes.
      rewrite orb_false_r in Hshapes.
      assert (Hop : isOperatorOrParen t = false).
      { destruct (isOperatorOrParen t) eqn:E; [|reflexivity].
        unfold isOperator in Ho. rewrite E, Hl, Hr in Ho. discriminate Ho. }
      rewrite Hop, orb_false_r in Hshapes. split; [exact Hshapes|].
      unfold isNumber in Hn. destruct (strconv.ParseFloat t); [discriminate|reflexivity]. }
  pose proof (infixToPostfix_moves _ _ Ep) as Hperm.
  pose proof (infixToPostfix_valid _ _ Ep) as Hvalid.
  unfold evaluatePostfix in Hst.
  destruct (evaluatePostfix_loop self postfix []) as [[st|e3]|] eqn:Ee.
  - destruct st as [|v [|w st]]; try discriminate Hst;
      injection Hst as ->; (split; [reflexivity|discriminate]).
  - injection Hst as <-.
    destruct (evaluatePostfix_loop_errors _ _ _ _ Ee)
      as [->|[->|[[a ->]|(t & -> & Hin & Hn & Hf & Ho)]]];
      try (split; [reflexivity|discriminate]).
    exfalso.
    apply (Permutation_in _ Hperm) in Hin. unfold withoutParens in Hin.
    apply filter_In in Hin as [Hin Hp]. apply negb_true_iff in Hp.
    rewrite forallb_forall in Hvalid. specialize (Hvalid _ Hin).
    unfold validToken in Hvalid. unfold isParen in Hp.
    rewrite Hn, Hf, Ho in Hvalid. cbn [orb] in Hvalid. congruence.
  - discriminate Hst.
Qed.

End Errors.

(** ** Parenthesised groups *)

Lemma popOperators_frame (token : string) (postfix stack base : list string) :
  popOperators token postfix (stack ++ leftParen :: base)
  = (fst (popOperators token postfix stack),
     snd (popOperators token postfix stack) ++ leftParen :: base).
Proof.
  revert postfix. induction stack as [|top stack IH]; intros postfix.
  - reflexivity.
  - cbn [popOperators app].
    destruct (negb (String.eqb top leftParen) && _); [apply IH|reflexivity].
Qed.

Lemma popToLeftParen_frame (postfix stack base : list string) :
  popToLeftParen postfix (stack ++ leftParen :: base)
  = (fst (popToLeftParen postfix stack),
     snd (popToLeftParen postfix stack) ++ leftParen :: base).
Proof.
  revert postfix. induction stack as [|top stack IH]; intros postfix.
  - reflexivity.
  - cbn [popToLeftParen app].
    destruct (negb (String.eqb top leftParen)); [apply IH|reflexivity].
Qed.

Lemma infixToPostfix_loop_frame (tokens postfix stack base p s : list string) :
  infixToPostfix_loop tokens postfix stack = Ok (p, s) ->
  infixToPostfix_loop tokens postfix (stack ++ leftParen :: base)
  = Ok (p, s ++ leftParen :: base).
Proof.
  revert postfix stack.
  induction tokens as [|token tokens IH]; intros postfix stack; cbn [infixToPostfix_loop].
  { intros H. injection H as <- <-. reflexivity. }
  destruct (isNumber token); [apply IH|].
  destruct (isFunction token); [apply (IH _ (token :: stack))|].
  destruct (isOperator token).
  { rewrite popOperators_frame.
    destruct (popOperators token postfix stack) as [p' s']. cbn [fst snd].
    apply (IH _ (token :: s')). }
  destruct (String.eqb token leftParen); [apply (IH _ (token :: stack))|].
  destruct (String.eqb token rightParen); [|discriminate].
  rewrite popToLeftParen_frame.
  destruct (popToLeftParen postfix stack) as [p' s']. cbn [fst snd].
  destruct s' as [|paren [|top s']]; [discriminate| |].
  - cbn [app]. change (isFunction leftParen) with false. cbv iota. apply (IH _ []).
  - cbn [app]. destruct (isFunction top); [apply IH|apply (IH _ (top :: s'))].
Qed.

Lemma infixToPostfix_loop_app (a b postfix stack : list string) :
  infixToPostfix_loop (a ++ b) postfix stack
  = (ps <- infixToPostfix_loop a postfix stack ;;
     infixToPostfix_loop b (fst ps) (snd ps)).
Proof.
  revert postfix stack.
  induction a as [|token a IH]; intros postfix stack; [reflexivity|].
  cbn [app infixToPostfix_loop].
  destruct (isNumber token); [apply IH|].
  destruct (isFunction token); [apply IH|].
  destruct (isOperator token).
  { destruct (popOperators token postfix stack) as [p' s']. apply IH. }
  destruct (String.eqb token leftParen); [apply IH|].
  destruct (String.eqb token rightParen); [|reflexivity].
  destruct (popToLeftParen postfix stack) as [p' s'].
  destruct s' as [|paren [|top s']]; [reflexivity|apply IH|].
  destruct (isFunction top); apply IH.
Qed.

Lemma popToLeftParen_none (postfix stack base : list string) :
  noLeftParen stack ->
  popToLeftParen postfix (stack ++ leftParen :: base) = (postfix ++ stack, leftParen :: base).
Proof.
  revert postfix. induction stack as [|top stack IH]; intros postfix Hs.
  - cbn. now rewrite app_nil_r.
  - cbn [popToLeftParen app]. inversion Hs as [|? ? Htop Hrest]; subst.
    rewrite Htop. cbn [negb]. rewrite (IH _ Hrest), <- app_assoc. reflexivity.
Qed.

Lemma infixToPostfix_loop_leftParen (tokens postfix stack : list string) :
  infixToPostfix_loop (leftParen :: tokens) postfix stack
  = infixToPostfix_loop tokens postfix (leftParen :: stack).
Proof. reflexivity. Qed.

Lemma infixToPostfix_loop_rightParen (tokens postfix stack : list string) :
  noLeftParen stack ->
  forall base,
  infixToPostfix_loop (rightParen :: tokens) postfix (stack ++ leftParen :: base)
  = match base with
    | top :: base' =>
        if isFunction top
        then infixToPostfix_loop tokens (postfix ++ stack ++ [top]) base'
        else infixToPostfix_loop tokens (postfix ++ stack) base
    | [] => infixToPostfix_loop tokens (postfix ++ stack) []
    end.
Proof.
  intros Hs base.
  change (infixToPostfix_loop (rightParen :: tokens) postfix (stack ++ leftParen :: base))
    with (let (p, s) := popToLeftParen postfix (stack ++ leftParen :: base) in
          match s with
          | [] => Err errMismatchedParens
          | _ :: top :: stack' =>
              if isFunction top
              then infixToPostfix_loop tokens (p ++ [top]) stack'
              else infixToPostfix_loop tokens p (top :: stack')
          | [_] => infixToPostfix_loop tokens p []
          end).
  rewrite (popToLeftParen_none _ _ _ Hs).
  destruct base as [|top base]; [reflexivity|].
  now rewrite <- app_assoc.
Qed.

(** A parenthesised group is converted on its own: its postfix form goes to
    the output, followed by the call on top of the stack, if there is
    one. *)
Lemma infixToPostfix_loop_group (group post rest out stack : list string) :
  infixToPostfix group = Ok post ->
  infixToPostfix_loop (leftParen :: group ++ rightParen :: rest) out stack
  = match stack with
    | top :: stack' =>
        if isFunction top then infixToPostfix_loop rest (out ++ post ++ [top]) stack'
        else infixToPostfix_loop rest (out ++ post) stack
    | [] => infixToPostfix_loop rest (out ++ post) []
    end.
Proof.
  unfold infixToPostfix. intros H.
  destruct (infixToPostfix_loop group [] []) as [[p s]|] eqn:E; [|discriminate].
  cbn [bind fst snd] in H. rewrite drainStack_spec in H.
  destruct (Nat.eqb_spec (openParens s) 0) as [Hz|]; [|discriminate]. injection H as <-.
  apply openParens_zero in Hz.
  rewrite infixToPostfix_loop_leftParen, infixToPostfix_loop_app.
  pose proof (infixToPostfix_loop_prefix group out [] []) as Hrun.
  rewrite app_nil_r, E in Hrun. cbn [mapResult fst snd] in Hrun.
  apply (infixToPostfix_loop_frame _ _ _ stack) in Hrun. cbn [app] in Hrun.
  rewrite Hrun. cbn [bind fst snd].
  rewrite (infixToPostfix_loop_rightParen _ _ _ Hz).
  destruct stack as [|top stack]; rewrite <- ?app_assoc; reflexivity.
Qed.

Lemma infixToPostfix_rest (suf out stack : list string) :
  (ps <- infixToPostfix_loop suf out stack ;; drainStack (fst ps) (snd ps))
  = (ps <- infixToPostfix_loop suf [] stack ;;
     if Nat.eqb (openParens (snd ps)) 0 then Ok (out ++ fst ps ++ snd ps)
     else Err errMismatchedParens).
Proof.
  rewrite <- (app_nil_r out) at 1. rewrite infixToPostfix_loop_prefix.
  destruct (infixToPostfix_loop suf [] stack) as [[p s]|e]; [|reflexivity].
  cbn [mapResult bind fst snd]. rewrite drainStack_spec.
  now rewrite <- app_assoc.
Qed.

Section Groups.

Context {M : MathLib}.
Variable recur : string -> option (result float).

Lemma evaluatePostfix_operand (out operand tail : list string) (v : float) :
  evaluatePostfix recur operand = Some (Ok v) ->
  evaluatePostfix recur (out ++ operand ++ tail)
  = match evaluatePostfix_loop recur out [] with
    | Some (Ok stack) =>
        match evaluatePostfix_loop recur tail (v :: stack) with
        | None => None
        | Some (Err e) => Some (Err e)
        | Some (Ok [r]) => Some (Ok r)
        | Some (Ok _) => Some (Err errEvaluatingExpression)
        end
    | Some (Err e) => Some (Err e)
    | None => None
    end.
Proof.
  intros Hv. apply evaluatePostfix_value in Hv. unfold evaluatePostfix.
  rewrite evaluatePostfix_loop_app.
  destruct (evaluatePostfix_loop recur out []) as [[stack|e]|]; [|reflexivity..].
  rewrite evaluatePostfix_loop_app.
  pose proof (evaluatePostfix_loop_frame recur operand [] [v] stack Hv) as Hf.
  cbn [app] in Hf. now rewrite Hf.
Qed.

Lemma evaluatePostfix_single (t : string) (v : float) :
  strconv.ParseFloat t = Some v -> evaluatePostfix recur [t] = Some (Ok v).
Proof.
  intros Ht. unfold evaluatePostfix.
  now rewrite (evaluatePostfix_loop_number recur t v [] [] Ht).
Qed.

(** X16.  A parenthesised group is an operand.  Where no call stands before
    it, a group [( ... )] whose tokens convert and evaluate to [v] may be
    replaced by a number token of value [v]: conversion and evaluation of
    the whole give the same result, value or error. *)
Theorem parenthesised_operand (pre group suf post : list string) (t : string) (v : float) :
  Forall (fun x => isFunction x = false) pre ->
  strconv.ParseFloat t = Some v ->
  infixToPostfix group = Ok post ->
  evaluatePostfix recur post = Some (Ok v) ->
  evaluateTokens recur (pre ++ leftParen :: group ++ rightParen :: suf)
  = evaluateTokens recur (pre ++ t :: suf).
Proof.
  intros Hpre Ht Hgroup Hv.
  assert (Hn : isNumber t = true) by (unfold isNumber; now rewrite Ht).
  unfold evaluateTokens, infixToPostfix. rewrite !infixToPostfix_loop_app.
  destruct (infixToPostfix_loop pre [] []) as [[out stack]|e] eqn:Epre; [|reflexivity].
  cbn [bind fst snd].
  destruct (infixToPostfix_loop_Forall _ _ _ _ _ Hpre (Forall_nil _) (Forall_nil _) Epre)
    as [_ Hstack].
  cbn [snd] in Hstack.
  assert (Hleft : infixToPostfix_loop (leftParen :: group ++ rightParen :: suf) out stack
                  = infixToPostfix_loop suf (out ++ post) stack).
  { rewrite (infixToPostfix_loop_group _ _ _ _ _ Hgroup).
    destruct stack as [|top stack]; [reflexivity|].
    inversion Hstack as [|? ? Htop _]; subst. now rewrite Htop. }
  rewrite Hleft, (infixToPostfix_loop_number t _ _ _ Hn).
  pose proof (infixToPostfix_rest suf (out ++ post) stack) as H1.
  pose proof (infixToPostfix_rest suf (out ++ [t]) stack) as H2.
  cbv beta iota delta [bind] in H1, H2 |- *. rewrite H1, H2.
  destruct (infixToPostfix_loop suf [] stack) as [[p s]|e]; [|reflexivity].
  cbn [fst snd]. destruct (Nat.eqb (openParens s) 0); [|reflexivity].
  rewrite <- !app_assoc.
  rewrite (evaluatePostfix_operand out post (p ++ s) v Hv).
  now rewrite (evaluatePostfix_operand out [t] (p ++ s) v (evaluatePostfix_single t v Ht)).
Qed.

End Groups.

(** ** The tokenizer at an operator or a parenthesis *)

Lemma scanParens_app (s x : string) (count j0 j : nat) :
  scanParens s count j0 = (0, j) -> scanParens (s ++ x) count j0 = (0, j).
Proof.
  revert count j0. induction s as [|c s IH]; intros count j0 H.
  - destruct count; [|discriminate H]. injection H as <-. destruct x; reflexivity.
  - destruct count as [|count]; [injection H as <-; reflexivity|].
    cbn [scanParens append] in *. apply IH, H.
Qed.

Lemma scanParens_bound (s : string) (count j0 : nat) :
  snd (scanParens s count j0) <= j0 + String.length s.
Proof.
  revert count j0. induction s as [|c s IH]; intros count j0.
  - destruct count; simpl; lia.
  - destruct count as [|count]; [simpl; lia|]. cbn [scanParens String.length].
    match goal with |- snd (scanParens s ?k _) <= _ => specialize (IH k (S j0)) end. lia.
Qed.

Lemma FindString_append (rest x found : string) :
  functionRegex_FindString rest = found -> found <> "" ->
  functionRegex_FindString (rest ++ x) = found.
Proof.
  intros H Hne. destruct (FindString_cases _ _ H Hne) as [Hin [tail ->]].
  rewrite append_assoc. simpl in Hin. unfold functionRegex_FindString.
  destruct Hin as [<-|[<-|[<-|[<-|[]]]]].
  - now rewrite (prefix_append_self "sin(").
  - rewrite (prefix_append_self "cos("). reflexivity.
  - rewrite (prefix_append_self "tan("). reflexivity.
  - rewrite (prefix_append_self "sqrt("). reflexivity.
Qed.

Lemma drop_app_le (n : nat) (a b : string) :
  n <= String.length a -> Str.drop n (a ++ b) = (Str.drop n a ++ b)%string.
Proof.
  revert a. induction n as [|n IH]; intros a Hn; [now destruct a|].
  destruct a as [|c a]; [simpl in Hn; lia|]. cbn. apply IH. simpl in Hn. lia.
Qed.

Lemma take_app_le (n : nat) (a b : string) :
  n <= String.length a -> Str.take n (a ++ b) = Str.take n a.
Proof.
  revert a. induction n as [|n IH]; intros a Hn; [now destruct a|].
  destruct a as [|c a]; [simpl in Hn; lia|]. cbn. rewrite IH; [reflexivity|].
  simpl in Hn. lia.
Qed.

Lemma drop_length (n : nat) (s : string) :
  n <= String.length s -> n + String.length (Str.drop n s) = String.length s.
Proof.
  revert s. induction n as [|n IH]; intros s Hn; [now destruct s|].
  destruct s as [|c s]; [simpl in Hn; lia|]. cbn. rewrite IH; [reflexivity|].
  simpl in Hn. lia.
Qed.

Lemma operator_not_number_char (c : ascii) :
  isOperatorOrParen (string_of_rune c) = true -> isNumberChar c = false.
Proof.
  intros H. pose proof (string_of_rune_operator _ H) as Hc. rewrite Hc in H.
  apply isOperatorOrParen_char in H. simpl in H.
  repeat (destruct H as [H|H]; [injection H as <-; reflexivity|]). contradiction.
Qed.

Lemma tokenize_call_found (rest found : string) (tokens : list string) (j : nat) :
  functionRegex_FindString rest = found -> found <> "" ->
  scanParens (Str.drop (String.length found) rest) 1 (String.length found) = (0, j) ->
  tokenize_call rest tokens
  = tokenize_loop (Str.drop j rest) "" (tokens ++ [Str.take j rest]).
Proof.
  intros Hfind Hne Hscan. unfold tokenize_call.
  destruct rest as [|char rest]; [now subst found|].
  rewrite Hfind. destruct found as [|m0 m']; [contradiction|]. now rewrite Hscan.
Qed.

Lemma tokenize_loop_split (rest number : string) (tokens : list string) :
  forall (res : list string) (c : ascii) (after : string),
  tokenize_loop rest number tokens = Ok res ->
  isOperatorOrParen (string_of_rune c) = true ->
  tokenize_loop (rest ++ String c after) number tokens
  = tokenize_loop after "" (res ++ [string_of_rune c]).
Proof.
  funelim (tokenize_loop rest number tokens); intros res c after Hres Hc.
  all: try rewrite <- Heqcall in Hres.
  all: try discriminate Hres.
  - injection Hres as <-. cbn [append]. rewrite tokenize_loop_step.
    now rewrite (operator_not_number_char _ Hc), Hc.
  - cbn [append]. rewrite tokenize_loop_step. unfold isNumberChar. rewrite Heq.
    match goal with IH : forall res, _ |- _ => exact (IH _ _ _ Hres Hc) end.
  - cbn [append]. rewrite tokenize_loop_step. unfold isNumberChar. rewrite Heq0, Heq.
    match goal with IH : forall res, _ |- _ => exact (IH _ _ _ Hres Hc) end.
  - cbn [append]. rewrite tokenize_loop_step. unfold isNumberChar. rewrite Heq0, Heq.
    change (String char (rest' ++ String c after))
      with (String char rest' ++ String c after)%string.
    set (rest := String char rest') in *. set (found := String m0 m') in *.
    destruct (FindString_cases _ _ Hmatch ltac:(discriminate)) as [_ [tail Htail]].
    assert (Hlen : String.length found <= String.length rest)
      by (rewrite Htail, append_length; lia).
    pose proof (scanParens_bound (Str.drop (String.length found) rest) 1
                  (String.length found)) as Hj.
    rewrite Hscan in Hj. cbn [snd] in Hj. rewrite (drop_length _ _ Hlen) in Hj.
    rewrite (tokenize_call_found (rest ++ String c after) found _ j
               (FindString_append rest (String c after) found Hmatch ltac:(discriminate))
               ltac:(discriminate)).
    2:{ rewrite (drop_app_le _ _ (String c after) Hlen).
        exact (scanParens_app _ (String c after) _ _ _ Hscan). }
    rewrite (drop_app_le _ _ (String c after) Hj), (take_app_le _ _ (String c after) Hj).
    match goal with IH : forall res, _ |- _ => exact (IH _ _ _ Hres Hc) end.
Qed.

Lemma tokenize_from_separator (before after : string) (c : ascii) (tokens : list string) :
  tokenize before = Ok tokens ->
  isOperatorOrParen (string_of_rune c) = true ->
  tokenize (before ++ String c after)
  = mapResult (app (tokens ++ [string_of_rune c])) (tokenize after).
Proof.
  intros H Hc. unfold tokenize in *.
  rewrite (tokenize_loop_split _ _ _ _ _ _ H Hc). apply tokenize_loop_from.
Qed.

(** X17.  An operator or a parenthesis outside a call separates the input:
    when the text before it has tokens, the text after it is tokenized on
    its own, whatever stands before. *)
Theorem tokenize_separator (before after : string) (c : ascii) (tokens : list string) :
  tokenize before = Ok tokens ->
  isOperatorOrParen (string_of_rune c) = true ->
  tokenize (before ++ String c after)
  = mapResult (app (tokens ++ [string_of_rune c])) (tokenize after).
Proof.
  intros H Hc. rewrite (tokenize_from_separator _ _ _ _ H Hc).
  destruct (tokenize after); reflexivity.
Qed.

(** ** Parentheses in the input *)

Section GroupLines.

Context {M : MathLib}.

Lemma evaluateExpression_tokens (input : string) (tokens : list string) :
  tokenize (strings_ReplaceAll_space input) = Ok tokens ->
  Some (evaluateExpression input) = evaluateTokens self tokens.
Proof. intros H. rewrite evaluateExpression_stages, H. reflexivity. Qed.

Lemma evaluateExpression_value (e : string) (v : float) :
  evaluateExpression e = Ok v ->
  exists tokens post,
    tokenize (strings_ReplaceAll_space e) = Ok tokens
    /\ infixToPostfix tokens = Ok post
    /\ evaluatePostfix self post = Some (Ok v).
Proof.
  intros H. pose proof (evaluateExpression_stages e) as Hst. rewrite H in Hst.
  destruct (tokenize _) as [tokens|]; [|discriminate].
  destruct (infixToPostfix tokens) as [post|] eqn:E; [|discriminate].
  exists tokens, post. auto.
Qed.

Lemma clean_append (a b : string) :
  strings_ReplaceAll_space (a ++ b)
  = (strings_ReplaceAll_space a ++ strings_ReplaceAll_space b)%string.
Proof. apply filter_append. Qed.

Lemma clean_operator (op : string) :
  isOperator op = true -> strings_ReplaceAll_space op = op.
Proof.
  intros H. apply isOperator_cases in H. simpl in H.
  repeat (destruct H as [<-|H]; [reflexivity|]). contradiction.
Qed.

Lemma tokenize_group (e after : string) (tokens : list string) :
  tokenize e = Ok tokens ->
  tokenize ("(" ++ e ++ ")" ++ after)
  = mapResult (app (leftParen :: tokens ++ [rightParen])) (tokenize after).
Proof.
  intros H.
  change ("(" ++ e ++ ")" ++ after)%string with (String "(" (e ++ String ")" after)).
  rewrite (tokenize_operator_first "(" _ eq_refl).
  rewrite (tokenize_from_separator e after ")" tokens H eq_refl).
  destruct (tokenize after); reflexivity.
Qed.

Lemma clean_group (e after : string) :
  strings_ReplaceAll_space ("(" ++ e ++ ")" ++ after)
  = ("(" ++ strings_ReplaceAll_space e ++ ")" ++ strings_ReplaceAll_space after)%string.
Proof. now rewrite !clean_append. Qed.

Lemma tokenize_operator_number (op num : string) (a : float) :
  isOperator op = true -> strconv.ParseFloat num = Some a ->
  tokenize (op ++ num) = Ok [op; num].
Proof.
  intros Hop Ha. destruct (isOperator_char _ Hop) as (c & -> & Hc & _ & _).
  change (Str.of_char c ++ num)%string with (String c num).
  rewrite (tokenize_operator_first c num Hc).
  now rewrite (tokenize_number_alone num (ParseFloat_number_run _ _ Ha)).
Qed.

Lemma tokenize_number_operator (num op after : string) (a : float) :
  strconv.ParseFloat num = Some a -> isOperator op = true ->
  tokenize (num ++ op ++ after) = mapResult (app [num; op]) (tokenize after).
Proof.
  intros Ha Hop. destruct (isOperator_char _ Hop) as (c & -> & Hc & _ & _).
  change (Str.of_char c ++ after)%string with (String c after).
  assert (Hc' : isOperatorOrParen (string_of_rune c) = true).
  { unfold string_of_rune. destruct (nat_of_ascii c <? 128)%nat eqn:E; [exact Hc|].
    exfalso. apply isOperatorOrParen_char in Hc. simpl in Hc.
    repeat (destruct Hc as [Hc|Hc]; [injection Hc as <-; discriminate E|]).
    contradiction. }
  rewrite (tokenize_from_separator num after c [num]
             (tokenize_number_alone num (ParseFloat_number_run _ _ Ha)) Hc').
  now rewrite (string_of_rune_operator c Hc').
Qed.

(** X18.  Parentheses make an operand of any expression.  When [e] has the
    value [v], so has [(e)], and [(e)] stands on either side of an operator
    like a number of that value; a call also, so that [(sin(0))+1] has a
    value where [sin(0)+1] has none. *)
Theorem parentheses_make_operand (e num op : string) (v a : float) :
  evaluateExpression e = Ok v ->
  strconv.ParseFloat num = Some a -> isOperator op = true ->
  evaluateExpression ("(" ++ e ++ ")") = Ok v
  /\ evaluateExpression (num ++ op ++ "(" ++ e ++ ")") = applyOperator op a v
  /\ evaluateExpression ("(" ++ e ++ ")" ++ op ++ num) = applyOperator op v a.
Proof.
  intros He Ha Hop.
  destruct (evaluateExpression_value e v He) as (tokens & post & Htok & Hconv & Hval).
  pose proof (ParseFloat_number_run _ _ Ha) as Hrun.
  assert (Hn : isNumber num = true) by (unfold isNumber; now rewrite Ha).
  pose proof (isOperator_not_leftParen _ Hop) as Hleft.
  pose proof (isOperator_not_function _ Hop) as Hnf.
  split; [|split].
  - assert (Ht : tokenize (strings_ReplaceAll_space ("(" ++ e ++ ")" ++ ""))
                 = Ok (leftParen :: tokens ++ [rightParen])).
    { rewrite clean_group, (tokenize_group _ _ _ Htok). cbn [strings_ReplaceAll_space Str.filter].
      rewrite tokenize_nothing. cbn [mapResult]. now rewrite app_nil_r. }
    pose proof (evaluateExpression_tokens _ _ Ht) as H.
    unfold evaluateTokens, infixToPostfix in H.
    rewrite (infixToPostfix_loop_group _ _ [] [] [] Hconv) in H.
    cbn [infixToPostfix_loop bind fst snd drainStack app] in H.
    rewrite Hval in H. injection H as H. exact H.
  - assert (Ht : tokenize (strings_ReplaceAll_space (num ++ op ++ "(" ++ e ++ ")" ++ ""))
                 = Ok ([num; op] ++ leftParen :: tokens ++ [rightParen])).
    { rewrite !clean_append, (number_run_clean _ Hrun), (clean_operator _ Hop).
      rewrite <- !clean_append, clean_group.
      rewrite (tokenize_number_operator _ _ _ _ Ha Hop), (tokenize_group _ _ _ Htok).
      cbn [strings_ReplaceAll_space Str.filter].
      rewrite tokenize_nothing. cbn [mapResult]. now rewrite app_nil_r. }
    pose proof (evaluateExpression_tokens _ _ Ht) as H.
    unfold evaluateTokens, infixToPostfix in H. cbn [app] in H.
    rewrite (infixToPostfix_loop_number num _ _ _ Hn) in H.
    rewrite (infixToPostfix_loop_operator op _ _ _ Hop) in H.
    cbn [popOperators app] in H.
    rewrite (infixToPostfix_loop_group _ _ [] _ _ Hconv) in H. rewrite Hnf in H.
    cbn [infixToPostfix_loop bind fst snd drainStack app] in H. rewrite Hleft in H.
    change (num :: post ++ [op]) with ([num] ++ post ++ [op]) in H.
    rewrite (evaluatePostfix_operand self [num] post [op] v Hval) in H.
    rewrite (evaluatePostfix_loop_number self num a [] [] Ha) in H.
    change (evaluatePostfix_loop self [] [a]) with (Some (Ok [a])) in H. cbv iota in H.
    rewrite (evaluatePostfix_loop_binary self op a v [] [] Hop) in H.
    destruct (applyOperator op a v); cbn in H; injection H as H; exact H.
  - assert (Ht : tokenize (strings_ReplaceAll_space ("(" ++ e ++ ")" ++ op ++ num))
                 = Ok (leftParen :: tokens ++ [rightParen] ++ [op; num])).
    { rewrite clean_group, clean_append, (number_run_clean _ Hrun), (clean_operator _ Hop).
      rewrite (tokenize_group _ _ _ Htok), (tokenize_operator_number _ _ _ Hop Ha).
      cbn [mapResult app]. now rewrite <- app_assoc. }
    pose proof (evaluateExpression_tokens _ _ Ht) as H.
    unfold evaluateTokens, infixToPostfix in H. cbn [app] in H.
    rewrite (infixToPostfix_loop_group _ _ _ [] [] Hconv) in H.
    rewrite (infixToPostfix_loop_operator op _ _ _ Hop) in H.
    cbn [popOperators app] in H.
    rewrite (infixToPostfix_loop_number num _ _ _ Hn) in H.
    cbn [infixToPostfix_loop bind fst snd drainStack app] in H. rewrite Hleft in H.
    rewrite <- app_assoc in H.
    change (post ++ [num] ++ [op]) with ([] ++ post ++ [num] ++ [op]) in H.
    rewrite (evaluatePostfix_operand self [] post ([num] ++ [op]) v Hval) in H.
    change (evaluatePostfix_loop self [] []) with (Some (Ok (@nil float))) in H.
    cbv iota in H. cbn [app] in H.
    rewrite (evaluatePostfix_loop_number self num a [op] [v] Ha) in H.
    rewrite (evaluatePostfix_loop_binary self op v a [] [] Hop) in H.
    destruct (applyOperator op v a); cbn in H; injection H as H; exact H.
Qed.

End GroupLines.

(** ** A call in the last place *)

Lemma infixToPostfix_loop_rightParen_step (tokens postfix stack : list string) :
  infixToPostfix_loop (rightParen :: tokens) postfix stack
  = let (p, s) := popToLeftParen postfix stack in
    match s with
    | [] => Err errMismatchedParens
    | _ :: top :: stack' =>
        if isFunction top
        then infixToPostfix_loop tokens (p ++ [top]) stack'
        else infixToPostfix_loop tokens p (top :: stack')
    | [_] => infixToPostfix_loop tokens p []
    end.
Proof. reflexivity. Qed.

Lemma isFunction_not_leftParen (call : string) :
  isFunction call = true -> String.eqb call leftParen = false.
Proof.
  intros H. apply isFunction_not_paren in H. unfold isParen in H.
  now apply orb_false_iff in H as [H _].
Qed.

(** A call before the end of the tokens or before a right parenthesis goes
    to the output as a number does: it is the first token to leave the
    stack. *)
Lemma infixToPostfix_call_last (call : string) (out stack : list string) :
  isFunction call = true ->
  match infixToPostfix_loop [call] out stack with
  | Ok ps => drainStack (fst ps) (snd ps)
  | Err e => Err e
  end
  = match infixToPostfix_loop [] (out ++ [call]) stack with
    | Ok ps => drainStack (fst ps) (snd ps)
    | Err e => Err e
    end
  /\ forall suf,
       infixToPostfix_loop (call :: rightParen :: suf) out stack
       = infixToPostfix_loop (rightParen :: suf) (out ++ [call]) stack.
Proof.
  intros Hcall. pose proof (isFunction_not_leftParen _ Hcall) as Hleft. split.
  - rewrite (infixToPostfix_loop_function call _ _ _ Hcall).
    cbn [infixToPostfix_loop fst snd drainStack]. now rewrite Hleft.
  - intros suf. rewrite (infixToPostfix_loop_function call _ _ _ Hcall).
    rewrite !infixToPostfix_loop_rightParen_step. cbn [popToLeftParen].
    now rewrite Hleft.
Qed.

Section CallLast.

Context {M : MathLib}.
Variable recur : string -> option (result float).

Lemma evaluateTokens_rest (suf out1 operand1 operand2 stack : list string) (v : float) :
  evaluatePostfix recur operand1 = Some (Ok v) ->
  evaluatePostfix recur operand2 = Some (Ok v) ->
  match (match infixToPostfix_loop suf (out1 ++ operand1) stack with
         | Ok ps => drainStack (fst ps) (snd ps)
         | Err e => Err e
         end) with
  | Err e => Some (Err e)
  | Ok postfix => evaluatePostfix recur postfix
  end
  = match (match infixToPostfix_loop suf (out1 ++ operand2) stack with
           | Ok ps => drainStack (fst ps) (snd ps)
           | Err e => Err e
           end) with
    | Err e => Some (Err e)
    | Ok postfix => evaluatePostfix recur postfix
    end.
Proof.
  intros H1 H2.
  pose proof (infixToPostfix_rest suf (out1 ++ operand1) stack) as E1.
  pose proof (infixToPostfix_rest suf (out1 ++ operand2) stack) as E2.
  cbv beta iota delta [bind] in E1, E2. rewrite E1, E2.
  destruct (infixToPostfix_loop suf [] stack) as [[p s]|e]; [|reflexivity].
  cbn [fst snd]. destruct (Nat.eqb (openParens s) 0); [|reflexivity].
  rewrite <- !app_assoc.
  now rewrite (evaluatePostfix_operand recur out1 operand1 (p ++ s) v H1),
              (evaluatePostfix_operand recur out1 operand2 (p ++ s) v H2).
Qed.

(** X19.  A call in the last place is an operand.  At the end of the tokens
    and before a right parenthesis, a call whose value is [v] may be
    replaced by a number token of value [v]: conversion and evaluation give
    the same result.  (Before an operator it may not.) *)
Theorem call_in_last_place (pre : list string) (call t : string) (v : float) :
  isFunction call = true ->
  evaluateFunction recur call = Some (Ok v) ->
  strconv.ParseFloat t = Some v ->
  evaluateTokens recur (pre ++ [call]) = evaluateTokens recur (pre ++ [t])
  /\ forall suf,
       evaluateTokens recur (pre ++ call :: rightParen :: suf)
       = evaluateTokens recur (pre ++ t :: rightParen :: suf).
Proof.
  intros Hcall Hv Ht.
  assert (Hn : isNumber t = true) by (unfold isNumber; now rewrite Ht).
  assert (H1 : evaluatePostfix recur [call] = Some (Ok v)).
  { unfold evaluatePostfix.
    now rewrite (evaluatePostfix_loop_call recur call [] [] Hcall), Hv. }
  pose proof (evaluatePostfix_single recur t v Ht) as H2.
  split; [|intros suf]; unfold evaluateTokens, infixToPostfix;
    rewrite !infixToPostfix_loop_app;
    (destruct (infixToPostfix_loop pre [] []) as [[out stack]|e]; [|reflexivity]);
    cbv beta iota delta [bind]; cbn [fst snd];
    destruct (infixToPostfix_call_last call out stack Hcall) as [Hend Hparen].
  - rewrite Hend. rewrite (infixToPostfix_loop_number t _ _ _ Hn).
    exact (evaluateTokens_rest [] out [call] [t] stack v H1 H2).
  - rewrite Hparen. rewrite (infixToPostfix_loop_number t _ _ _ Hn).
    exact (evaluateTokens_rest (rightParen :: suf) out [call] [t] stack v H1 H2).
Qed.

End CallLast.

Section CallLines.

Context {M : MathLib}.

Lemma evaluateFunction_call (funcName arg : string) :
  In funcName functionNames -> parenScan arg 1 = Some 1 ->
  exists f,
    mathFunction funcName = Some f
    /\ evaluateFunction self (callText funcName (strings_ReplaceAll_space arg))
       = Some (match evaluateExpression arg with
               | Ok v => Ok (f v)
               | Err _ => Err (errInvalidFunctionArgument (strings_ReplaceAll_space arg))
               end).
Proof.
  intros Hname Harg.
  destruct (call_normal_form funcName arg Hname Harg) as (_ & _ & _ & Hsplit & _ & _).
  set (arg' := strings_ReplaceAll_space arg) in *.
  assert (Hargsame : evaluateExpression arg' = evaluateExpression arg).
  { apply evaluateExpression_same_body. unfold arg', strings_ReplaceAll_space.
    apply filter_filter. }
  unfold evaluateFunction. rewrite Hsplit. cbv beta iota zeta.
  rewrite TrimSuffix_closed. unfold self at 1. rewrite Hargsame.
  unfold functionNames in Hname. simpl in Hname.
  destruct Hname as [<-|[<-|[<-|[<-|[]]]]];
    [exists math_Sin|exists math_Cos|exists math_Tan|exists math_Sqrt];
    (split; [reflexivity|]);
    destruct (evaluateExpression arg) as [v|e]; reflexivity.
Qed.

(** X20.  A call after an operator is its right operand: [num op name(arg)]
    is [num op] the function of the value of [arg], and the error "invalid
    function argument" when [arg] fails. *)
Theorem call_after_operator (funcName arg op num : string) (a : float) :
  In funcName functionNames -> parenScan arg 1 = Some 1 ->
  isOperator op = true -> strconv.ParseFloat num = Some a ->
  exists f,
    mathFunction funcName = Some f
    /\ evaluateExpression (num ++ op ++ callText funcName arg)
       = match evaluateExpression arg with
         | Ok v => applyOperator op a (f v)
         | Err _ => Err (errInvalidFunctionArgument (strings_ReplaceAll_space arg))
         end.
Proof.
  intros Hname Harg Hop Ha.
  destruct (evaluateFunction_call funcName arg Hname Harg) as (f & Hf & Hcall).
  exists f. split; [exact Hf|].
  destruct (call_normal_form funcName arg Hname Harg)
    as (Hclean & Harg' & Hfun & _ & _ & Hparen).
  set (arg' := strings_ReplaceAll_space arg) in *.
  set (call' := callText funcName arg') in *.
  pose proof (ParseFloat_number_run _ _ Ha) as Hrun.
  assert (Hn : isNumber num = true) by (unfold isNumber; now rewrite Ha).
  pose proof (isOperator_not_leftParen _ Hop) as Hleft.
  assert (Ht : tokenize (strings_ReplaceAll_space (num ++ op ++ callText funcName arg))
               = Ok [num; op; call']).
  { rewrite !clean_append, (number_run_clean _ Hrun), (clean_operator _ Hop), Hclean.
    rewrite (tokenize_number_operator _ _ _ _ Ha Hop).
    pose proof (tokenize_call_first funcName arg' "" Hname Harg') as Hc.
    rewrite append_empty_r, tokenize_nothing in Hc. fold call' in Hc.
    now rewrite Hc. }
  pose proof (evaluateExpression_tokens _ _ Ht) as H.
  unfold evaluateTokens, infixToPostfix in H.
  rewrite (infixToPostfix_loop_number num _ _ _ Hn) in H.
  rewrite (infixToPostfix_loop_operator op _ _ _ Hop) in H.
  cbn [popOperators app] in H.
  rewrite (infixToPostfix_loop_function call' _ _ _ Hfun) in H.
  cbn [infixToPostfix_loop bind fst snd drainStack app] in H.
  rewrite Hparen, Hleft in H. unfold evaluatePostfix in H.
  rewrite (evaluatePostfix_loop_number self num a _ _ Ha) in H.
  rewrite (evaluatePostfix_loop_call self call' _ _ Hfun) in H.
  rewrite Hcall in H.
  destruct (evaluateExpression arg) as [v|e]; [|injection H as H; exact H].
  rewrite (evaluatePostfix_loop_binary self op a (f v) [] [] Hop) in H.
  destruct (applyOperator op a (f v)); cbn in H; injection H as H; exact H.
Qed.

End CallLines.

(** ** Parentheses that change nothing, and operands side by side *)

Section MoreGroups.

Context {M : MathLib}.

Lemma tokenize_group_alone (e : string) (tokens : list string) :
  tokenize (strings_ReplaceAll_space e) = Ok tokens ->
  tokenize (strings_ReplaceAll_space ("(" ++ e ++ ")"))
  = Ok (leftParen :: tokens ++ [rightParen]).
Proof.
  intros H.
  change ("(" ++ e ++ ")")%string with ("(" ++ e ++ ")" ++ "")%string.
  rewrite clean_group, (tokenize_group _ _ _ H).
  cbn [strings_ReplaceAll_space Str.filter].
  rewrite tokenize_nothing. cbn [mapResult]. now rewrite app_nil_r.
Qed.

Lemma infixToPostfix_group_alone (tokens post : list string) :
  infixToPostfix tokens = Ok post ->
  infixToPostfix (leftParen :: tokens ++ [rightParen]) = Ok post.
Proof.
  intros H. unfold infixToPostfix.
  now rewrite (infixToPostfix_loop_group _ _ [] [] [] H).
Qed.

(** X28.  Parentheses around a whole input change nothing, value or error,
    when the input has tokens and its parentheses are balanced: [(e)] has
    the result of [e]. *)
Theorem redundant_parentheses (e : string) (tokens post : list string) :
  tokenize (strings_ReplaceAll_space e) = Ok tokens ->
  infixToPostfix tokens = Ok post ->
  evaluateExpression ("(" ++ e ++ ")") = evaluateExpression e.
Proof.
  intros Ht Hconv.
  pose proof (evaluateExpression_tokens _ _ Ht) as He.
  pose proof (evaluateExpression_tokens _ _ (tokenize_group_alone _ _ Ht)) as Hg.
  unfold evaluateTokens in He, Hg.
  rewrite (infixToPostfix_group_alone _ _ Hconv) in Hg. rewrite Hconv in He.
  rewrite <- He in Hg. now injection Hg.
Qed.

(** X29.  Operands side by side are no product: a number next to a
    parenthesised expression, on either side, and two parenthesised
    expressions one after the other are the error "error evaluating
    expression". *)
Theorem juxtaposition_fails (e1 e2 num : string) (v1 v2 a : float) :
  evaluateExpression e1 = Ok v1 -> evaluateExpression e2 = Ok v2 ->
  strconv.ParseFloat num = Some a ->
  evaluateExpression (num ++ "(" ++ e1 ++ ")") = Err errEvaluatingExpression
  /\ evaluateExpression ("(" ++ e1 ++ ")" ++ num) = Err errEvaluatingExpression
  /\ evaluateExpression ("(" ++ e1 ++ ")" ++ "(" ++ e2 ++ ")")
     = Err errEvaluatingExpression.
Proof.
  intros He1 He2 Ha.
  destruct (evaluateExpression_value e1 v1 He1) as (tokens1 & post1 & Htok1 & Hconv1 & Hval1).
  destruct (evaluateExpression_value e2 v2 He2) as (tokens2 & post2 & Htok2 & Hconv2 & Hval2).
  pose proof (ParseFloat_number_run _ _ Ha) as Hrun.
  assert (Hn : isNumber num = true) by (unfold isNumber; now rewrite Ha).
  split; [|split].
  - assert (Ht : tokenize (strings_ReplaceAll_space (num ++ "(" ++ e1 ++ ")"))
                 = Ok (num :: leftParen :: tokens1 ++ [rightParen])).
    { change ("(" ++ e1 ++ ")")%string with ("(" ++ e1 ++ ")" ++ "")%string.
      rewrite clean_append, (number_run_clean _ Hrun), clean_group.
      rewrite (tokenize_number_first num); [|exact Hrun|reflexivity].
      rewrite (tokenize_group _ _ _ Htok1). cbn [strings_ReplaceAll_space Str.filter].
      rewrite tokenize_nothing. cbn [mapResult]. now rewrite app_nil_r. }
    pose proof (evaluateExpression_tokens _ _ Ht) as H.
    unfold evaluateTokens, infixToPostfix in H.
    rewrite (infixToPostfix_loop_number num _ _ _ Hn) in H.
    rewrite (infixToPostfix_loop_group _ _ [] _ [] Hconv1) in H.
    cbn [infixToPostfix_loop bind fst snd drainStack app] in H.
    replace (num :: post1) with ([num] ++ post1 ++ []) in H by (now rewrite app_nil_r).
    rewrite (evaluatePostfix_operand self [num] post1 [] v1 Hval1) in H.
    rewrite (evaluatePostfix_loop_number self num a [] [] Ha) in H.
    cbn in H. injection H as H. exact H.
  - assert (Ht : tokenize (strings_ReplaceAll_space ("(" ++ e1 ++ ")" ++ num))
                 = Ok ((leftParen :: tokens1 ++ [rightParen]) ++ [num])).
    { rewrite clean_group, (number_run_clean _ Hrun), (tokenize_group _ _ _ Htok1).
      now rewrite (tokenize_number_alone _ Hrun). }
    pose proof (evaluateExpression_tokens _ _ Ht) as H.
    unfold evaluateTokens, infixToPostfix in H. cbn [app] in H.
    rewrite <- app_assoc in H. cbn [app] in H.
    rewrite (infixToPostfix_loop_group _ _ _ [] [] Hconv1) in H.
    rewrite (infixToPostfix_loop_number num _ _ _ Hn) in H.
    cbn [infixToPostfix_loop bind fst snd drainStack app] in H.
    change (post1 ++ [num]) with ([] ++ post1 ++ [num]) in H.
    rewrite (evaluatePostfix_operand self [] post1 [num] v1 Hval1) in H.
    change (evaluatePostfix_loop self [] []) with (Some (Ok (@nil float))) in H.
    cbv iota in H.
    rewrite (evaluatePostfix_loop_number self num a [] [v1] Ha) in H.
    cbn in H. injection H as H. exact H.
  - assert (Ht : tokenize (strings_ReplaceAll_space ("(" ++ e1 ++ ")" ++ "(" ++ e2 ++ ")"))
                 = Ok ((leftParen :: tokens1 ++ [rightParen])
                         ++ leftParen :: tokens2 ++ [rightParen])).
    { rewrite clean_group, (tokenize_group _ _ _ Htok1).
      now rewrite (tokenize_group_alone _ _ Htok2). }
    pose proof (evaluateExpression_tokens _ _ Ht) as H.
    unfold evaluateTokens, infixToPostfix in H. cbn [app] in H.
    rewrite <- app_assoc in H. cbn [app] in H.
    rewrite (infixToPostfix_loop_group _ _ _ [] [] Hconv1) in H.
    rewrite (infixToPostfix_loop_group _ _ [] _ [] Hconv2) in H.
    cbn [infixToPostfix_loop bind fst snd drainStack app] in H.
    change (post1 ++ post2) with ([] ++ post1 ++ post2) in H.
    rewrite (evaluatePostfix_operand self [] post1 post2 v1 Hval1) in H.
    change (evaluatePostfix_loop self [] []) with (Some (Ok (@nil float))) in H.
    cbv iota in H.
    pose proof (evaluatePostfix_loop_frame self post2 [] [v2] [v1]
                  (evaluatePostfix_value self _ _ Hval2)) as Hf.
    cbn [app] in Hf. rewrite Hf in H. injection H as H. exact H.
Qed.

End MoreGroups.

(** ** Expressions with every operand in parentheses *)

Lemma parenScan_app (a b : string) (count : nat) :
  parenScan (a ++ b) count
  = match parenScan a count with
    | Some count' => parenScan b count'
    | None => None
    end.
Proof.
  revert count. induction a as [|c a IH]; intros count; [reflexivity|].
  cbn [append parenScan].
  destruct (Ascii.eqb c "("); [apply IH|].
  destruct (Ascii.eqb c ")"); [|apply IH].
  destruct count as [|[|count]]; try reflexivity. apply IH.
Qed.

Lemma parenScan_number (t : string) (count : nat) :
  isNumberRun t = true -> parenScan t count = Some count.
Proof.
  unfold isNumberRun. intros [Hall _]%andb_true_iff. revert count.
  induction t as [|c t IH]; intros count; [reflexivity|].
  cbn [Str.forallb] in Hall. apply andb_true_iff in Hall as [Hc Ht].
  cbn [parenScan].
  destruct (Ascii.eqb_spec c "(") as [->|_]; [discriminate Hc|].
  destruct (Ascii.eqb_spec c ")") as [->|_]; [discriminate Hc|].
  now apply IH.
Qed.

Lemma parenScan_operator (op : string) (count : nat) :
  isOperator op = true -> parenScan op count = Some count.
Proof.
  intros H. apply isOperator_cases in H. simpl in H.
  repeat (destruct H as [<-|H]; [reflexivity|]). contradiction.
Qed.

Lemma parenScan_group (s : string) (count : nat) :
  (forall k, parenScan s (S k) = Some (S k)) ->
  parenScan ("(" ++ s ++ ")") (S count) = Some (S count).
Proof.
  intros H. change ("(" ++ s ++ ")")%string with (String "(" (s ++ ")")).
  cbn [parenScan]. change (Ascii.eqb "(" "(") with true. cbv iota.
  rewrite parenScan_app, H. reflexivity.
Qed.

Lemma functionNames_In (funcName : string) :
  existsb (String.eqb funcName) functionNames = true -> In funcName functionNames.
Proof.
  intros H. apply existsb_exists in H as (x & Hin & Heq).
  apply String.eqb_eq in Heq. now subst.
Qed.

Lemma functionNames_scan (funcName : string) (count : nat) :
  In funcName functionNames -> parenScan funcName count = Some count.
Proof.
  intros H. simpl in H. destruct H as [<-|[<-|[<-|[<-|[]]]]]; reflexivity.
Qed.

Lemma exprText_balanced (e : expr) :
  exprWellFormed e = true -> forall k, parenScan (exprText e) (S k) = Some (S k).
Proof.
  induction e as [t|funcName arg IH|op l IHl r IHr]; cbn [exprWellFormed exprText]; intros H k.
  - unfold isNumber in H. destruct (strconv.ParseFloat t) as [v|] eqn:E; [|discriminate].
    apply parenScan_number. exact (ParseFloat_number_run _ _ E).
  - apply andb_true_iff in H as [Hname Harg]. apply functionNames_In in Hname.
    unfold callText. rewrite parenScan_app, (functionNames_scan _ _ Hname).
    apply parenScan_group. now apply IH.
  - apply andb_true_iff in H as [[Hop Hl]%andb_true_iff Hr].
    assert (Hoperand : forall x, exprWellFormed x = true ->
              (forall k, parenScan (exprText x) (S k) = Some (S k)) ->
              forall k, parenScan (operandText x (exprText x)) (S k) = Some (S k)).
    { intros x Hx Hscan k'. destruct x; cbn [operandText]; [apply Hscan|..];
        now apply parenScan_group. }
    rewrite parenScan_app, (Hoperand l Hl (IHl Hl)).
    rewrite parenScan_app, (parenScan_operator _ _ Hop).
    apply (Hoperand r Hr (IHr Hr)).
Qed.

Lemma isFunction_callText (funcName arg : string) :
  In funcName functionNames -> isFunction (callText funcName arg) = true.
Proof.
  intros H. unfold isFunction, strings_HasPrefix. simpl in H.
  destruct H as [<-|[<-|[<-|[<-|[]]]]].
  - change (callText "sin" arg) with ("sin(" ++ (arg ++ ")"))%string.
    now rewrite (prefix_append_self "sin(").
  - change (callText "cos" arg) with ("cos(" ++ (arg ++ ")"))%string.
    rewrite (prefix_append_self "cos("). now rewrite orb_true_r.
  - change (callText "tan" arg) with ("tan(" ++ (arg ++ ")"))%string.
    rewrite (prefix_append_self "tan("). now rewrite !orb_true_r.
  - change (callText "sqrt" arg) with ("sqrt(" ++ (arg ++ ")"))%string.
    rewrite (prefix_append_self "sqrt("). now rewrite !orb_true_r.
Qed.

Lemma clean_functionName (funcName : string) :
  In funcName functionNames -> strings_ReplaceAll_space funcName = funcName.
Proof.
  intros H. simpl in H. destruct H as [<-|[<-|[<-|[<-|[]]]]]; reflexivity.
Qed.

Lemma clean_parens (s : string) :
  strings_ReplaceAll_space ("(" ++ s ++ ")") = ("(" ++ strings_ReplaceAll_space s ++ ")")%string.
Proof. now rewrite !clean_append. Qed.

Lemma exprText_clean (e : expr) :
  exprWellFormed e = true -> strings_ReplaceAll_space (exprText e) = exprText e.
Proof.
  induction e as [t|funcName arg IH|op l IHl r IHr]; cbn [exprWellFormed exprText]; intros H.
  - unfold isNumber in H. destruct (strconv.ParseFloat t) as [v|] eqn:E; [|discriminate].
    apply number_run_clean. exact (ParseFloat_number_run _ _ E).
  - apply andb_true_iff in H as [Hname Harg]. apply functionNames_In in Hname.
    unfold callText. now rewrite clean_append, clean_parens, (clean_functionName _ Hname), IH.
  - apply andb_true_iff in H as [[Hop Hl]%andb_true_iff Hr].
    assert (Hoperand : forall x, strings_ReplaceAll_space (exprText x) = exprText x ->
              strings_ReplaceAll_space (operandText x (exprText x))
              = operandText x (exprText x)).
    { intros x Hx. destruct x; cbn [operandText]; [exact Hx|..];
        now rewrite clean_parens, Hx. }
    rewrite !clean_append, (clean_operator _ Hop).
    now rewrite (Hoperand l (IHl Hl)), (Hoperand r (IHr Hr)).
Qed.

Lemma tokenize_operand_last (x : expr) :
  tokenize (exprText x) = Ok (exprTokens x) ->
  tokenize (operandText x (exprText x)) = Ok (operandTokens x (exprTokens x)).
Proof.
  intros H.
  assert (Hgroup : tokenize ("(" ++ exprText x ++ ")")
                   = Ok (leftParen :: exprTokens x ++ [rightParen])).
  { change ("(" ++ exprText x ++ ")")%string with ("(" ++ exprText x ++ ")" ++ "")%string.
    rewrite (tokenize_group _ _ _ H), tokenize_nothing. cbn [mapResult].
    now rewrite app_nil_r. }
  destruct x; [exact H|exact Hgroup..].
Qed.

Lemma tokenize_operand_first (x : expr) (op rest : string) :
  exprWellFormed x = true -> isOperator op = true ->
  tokenize (exprText x) = Ok (exprTokens x) ->
  tokenize (operandText x (exprText x) ++ op ++ rest)
  = mapResult (app (operandTokens x (exprTokens x) ++ [op])) (tokenize rest).
Proof.
  intros Hx Hop H.
  assert (Hgroup : tokenize (("(" ++ exprText x ++ ")") ++ op ++ rest)
                   = mapResult (app ((leftParen :: exprTokens x ++ [rightParen]) ++ [op]))
                               (tokenize rest)).
  { replace (("(" ++ exprText x ++ ")") ++ op ++ rest)%string
      with ("(" ++ exprText x ++ ")" ++ op ++ rest)%string
      by (now rewrite !append_assoc).
    rewrite (tokenize_group _ _ _ H).
    destruct (isOperator_char _ Hop) as (c & -> & Hc & _ & _).
    change (Str.of_char c ++ rest)%string with (String c rest).
    rewrite (tokenize_operator_first c rest Hc).
    destruct (tokenize rest); cbn [mapResult]; [|reflexivity].
    now rewrite <- app_assoc. }
  destruct x as [t| |]; [|exact Hgroup..].
  cbn [exprWellFormed operandText exprText operandTokens exprTokens] in *.
  unfold isNumber in Hx. destruct (strconv.ParseFloat t) as [v|] eqn:E; [|discriminate].
  exact (tokenize_number_operator _ _ _ _ E Hop).
Qed.

Lemma exprTokens_tokenize (e : expr) :
  exprWellFormed e = true -> tokenize (exprText e) = Ok (exprTokens e).
Proof.
  induction e as [t|funcName arg IH|op l IHl r IHr]; cbn [exprWellFormed exprText exprTokens];
    intros H.
  - unfold isNumber in H. destruct (strconv.ParseFloat t) as [v|] eqn:E; [|discriminate].
    apply tokenize_number_alone. exact (ParseFloat_number_run _ _ E).
  - apply andb_true_iff in H as [Hname Harg]. apply functionNames_In in Hname.
    pose proof (tokenize_call_first funcName (exprText arg) "" Hname
                  (exprText_balanced arg Harg 0)) as Hc.
    now rewrite append_empty_r, tokenize_nothing in Hc.
  - apply andb_true_iff in H as [[Hop Hl]%andb_true_iff Hr].
    rewrite (tokenize_operand_first l op _ Hl Hop (IHl Hl)).
    rewrite (tokenize_operand_last r (IHr Hr)). cbn [mapResult].
    now rewrite <- app_assoc.
Qed.

Lemma infixToPostfix_loop_operand (x : expr) (rest out stack : list string) :
  exprWellFormed x = true ->
  infixToPostfix (exprTokens x) = Ok (exprPostfix x) ->
  match stack with
  | top :: _ => isFunction top = false
  | [] => True
  end ->
  infixToPostfix_loop (operandTokens x (exprTokens x) ++ rest) out stack
  = infixToPostfix_loop rest (out ++ exprPostfix x) stack.
Proof.
  intros Hx H Hstack.
  assert (Hgroup : infixToPostfix_loop ((leftParen :: exprTokens x ++ [rightParen]) ++ rest)
                     out stack
                   = infixToPostfix_loop rest (out ++ exprPostfix x) stack).
  { cbn [app]. rewrite <- app_assoc. cbn [app].
    rewrite (infixToPostfix_loop_group _ _ _ _ _ H).
    destruct stack as [|top stack]; [reflexivity|]. now rewrite Hstack. }
  destruct x as [t| |]; [|exact Hgroup..].
  cbn [exprWellFormed operandTokens exprTokens exprPostfix app] in *.
  now rewrite (infixToPostfix_loop_number t _ _ _ Hx).
Qed.

Lemma exprPostfix_convert (e : expr) :
  exprWellFormed e = true -> infixToPostfix (exprTokens e) = Ok (exprPostfix e).
Proof.
  induction e as [t|funcName arg IH|op l IHl r IHr];
    cbn [exprWellFormed exprTokens exprPostfix]; intros H.
  - unfold infixToPostfix. now rewrite (infixToPostfix_loop_number t _ _ _ H).
  - apply andb_true_iff in H as [Hname _]. apply functionNames_In in Hname.
    pose proof (isFunction_callText funcName (exprText arg) Hname) as Hfun.
    unfold infixToPostfix. rewrite (infixToPostfix_loop_function _ _ _ _ Hfun).
    cbn [infixToPostfix_loop bind fst snd drainStack].
    now rewrite (isFunction_not_leftParen _ Hfun).
  - apply andb_true_iff in H as [[Hop Hl]%andb_true_iff Hr].
    unfold infixToPostfix.
    rewrite (infixToPostfix_loop_operand l _ [] [] Hl (IHl Hl) I).
    cbn [app]. rewrite (infixToPostfix_loop_operator op _ _ _ Hop). cbn [popOperators].
    rewrite <- (app_nil_r (operandTokens r (exprTokens r))).
    rewrite (infixToPostfix_loop_operand r [] _ [op] Hr (IHr Hr)
               (isOperator_not_function _ Hop)).
    cbn [infixToPostfix_loop bind fst snd drainStack].
    now rewrite (isOperator_not_leftParen _ Hop), <- app_assoc.
Qed.

Section Expressions.

Context {M : MathLib}.

Lemma exprValue_postfix (e : expr) :
  exprWellFormed e = true ->
  forall stack,
    evaluatePostfix_loop self (exprPostfix e) stack
    = Some (mapResult (fun v => v :: stack) (exprValue e)).
Proof.
  induction e as [t|funcName arg IH|op l IHl r IHr];
    cbn [exprWellFormed exprPostfix exprValue] in *; intros H stack.
  - unfold isNumber in H. destruct (strconv.ParseFloat t) as [v|] eqn:E; [|discriminate].
    now rewrite (evaluatePostfix_loop_number self t v [] stack E).
  - apply andb_true_iff in H as [Hname Harg]. apply functionNames_In in Hname.
    rewrite (evaluatePostfix_loop_call self _ [] stack
               (isFunction_callText funcName (exprText arg) Hname)).
    destruct (evaluateFunction_call funcName (exprText arg) Hname
                (exprText_balanced arg Harg 0)) as (f & Hf & Hcall).
    rewrite (exprText_clean arg Harg) in Hcall. rewrite Hcall, Hf.
    assert (Harg' : evaluateExpression (exprText arg) = exprValue arg).
    { pose proof (evaluateExpression_tokens (exprText arg) (exprTokens arg)) as Ht.
      rewrite (exprText_clean arg Harg) in Ht.
      specialize (Ht (exprTokens_tokenize arg Harg)).
      unfold evaluateTokens in Ht. rewrite (exprPostfix_convert arg Harg) in Ht.
      unfold evaluatePostfix in Ht. rewrite (IH Harg []) in Ht.
      destruct (exprValue arg); cbn in Ht; injection Ht as Ht; exact Ht. }
    rewrite Harg'. destruct (exprValue arg); reflexivity.
  - apply andb_true_iff in H as [[Hop Hl]%andb_true_iff Hr].
    rewrite evaluatePostfix_loop_app, (IHl Hl stack).
    destruct (exprValue l) as [a|]; [|reflexivity]. cbn [mapResult bind].
    rewrite evaluatePostfix_loop_app, (IHr Hr (a :: stack)).
    destruct (exprValue r) as [b|]; [|reflexivity]. cbn [mapResult bind].
    rewrite (evaluatePostfix_loop_binary self op a b [] stack Hop).
    destruct (applyOperator op a b); reflexivity.
Qed.

(** X25.  An expression whose operands, numbers apart, all stand in
    parentheses has the value of its parts: a number is its float, a call
    the function of the value of its argument, and [l op r] is [op] applied
    to the values of [l] and [r]; the first error, from left to right, is
    the result. *)
Theorem parenthesised_expression (e : expr) :
  exprWellFormed e = true ->
  evaluateExpression (exprText e) = exprValue e.
Proof.
  intros H.
  pose proof (evaluateExpression_tokens (exprText e) (exprTokens e)) as Ht.
  rewrite (exprText_clean e H) in Ht. specialize (Ht (exprTokens_tokenize e H)).
  unfold evaluateTokens in Ht. rewrite (exprPostfix_convert e H) in Ht.
  unfold evaluatePostfix in Ht. rewrite (exprValue_postfix e H []) in Ht.
  destruct (exprValue e); cbn in Ht; injection Ht as Ht; exact Ht.
Qed.

End Expressions.

(** ** Operands and operators *)

Lemma isOperand_not_operator (t : string) : isOperand t = true -> isOperator t = false.
Proof.
  unfold isOperand, isOperator. intros [H|H]%orb_true_iff.
  - now rewrite (isNumber_not_operatorOrParen _ H).
  - now rewrite (isFunction_not_operatorOrParen _ H).
Qed.

Lemma isOperand_not_paren (t : string) : isOperand t = true -> isParen t = false.
Proof.
  unfold isOperand. intros [H|H]%orb_true_iff;
    [now apply isNumber_not_paren|now apply isFunction_not_paren].
Qed.

Lemma filter_length_perm {A : Type} (p : A -> bool) (a b : list A) :
  Permutation a b -> List.length (filter p a) = List.length (filter p b).
Proof.
  induction 1 as [|x a b _ IH|x y a|a b c _ IH1 _ IH2]; cbn [filter].
  - reflexivity.
  - destruct (p x); cbn [List.length]; now rewrite IH.
  - destruct (p x), (p y); reflexivity.
  - now rewrite IH1.
Qed.

Lemma filter_withoutParens (p : string -> bool) (tokens : list string) :
  (forall t, p t = true -> isParen t = false) ->
  filter p (withoutParens tokens) = filter p tokens.
Proof.
  intros Hp. unfold withoutParens.
  induction tokens as [|t tokens IH]; [reflexivity|]. cbn [filter].
  destruct (isParen t) eqn:E; cbn [negb filter]; rewrite IH.
  - destruct (p t) eqn:Ep; [|reflexivity]. rewrite (Hp _ Ep) in E. discriminate E.
  - reflexivity.
Qed.

Section Counts.

Context {M : MathLib}.

Lemma evaluatePostfix_loop_count (recur : string -> option (result float))
      (tokens : list string) (stack stack' : list float) :
  evaluatePostfix_loop recur tokens stack = Some (Ok stack') ->
  List.length stack' + operatorCount tokens = List.length stack + operandCount tokens.
Proof.
  unfold operatorCount, operandCount. revert stack.
  induction tokens as [|t tokens IH]; intros stack H.
  - injection H as <-. reflexivity.
  - cbn [evaluatePostfix_loop] in H. cbn [filter]. unfold isOperand at 1.
    destruct (isNumber t) eqn:Hn.
    { rewrite (isOperand_not_operator t) by (unfold isOperand; now rewrite Hn).
      destruct (strconv.ParseFloat t); [|discriminate].
      apply IH in H. cbn [orb List.length] in *. lia. }
    destruct (isFunction t) eqn:Hf.
    { rewrite (isOperand_not_operator t) by (unfold isOperand; now rewrite Hn, Hf).
      destruct (evaluateFunction recur t) as [[r|]|]; try discriminate.
      apply IH in H. cbn [orb List.length] in *. lia. }
    destruct (isOperator t); [|discriminate].
    destruct stack as [|b [|a stack]]; try discriminate.
    destruct (applyOperator t a b); [|discriminate].
    apply IH in H. cbn [orb List.length] in *. lia.
Qed.

(** X21.  A value needs one operand more than operators: when an input has
    a value, its tokens hold one number or call more than operators; and
    the error "error evaluating expression" tells that they do not. *)
Theorem operands_and_operators (input : string) (tokens : list string) :
  tokenize (strings_ReplaceAll_space input) = Ok tokens ->
  (forall v, evaluateExpression input = Ok v ->
             operandCount tokens = S (operatorCount tokens))
  /\ (evaluateExpression input = Err errEvaluatingExpression ->
      operandCount tokens <> S (operatorCount tokens)).
Proof.
  intros Ht. pose proof (evaluateExpression_tokens input tokens Ht) as H.
  unfold evaluateTokens in H.
  assert (Hcount : forall postfix stack,
            infixToPostfix tokens = Ok postfix ->
            evaluatePostfix_loop self postfix [] = Some (Ok stack) ->
            List.length stack + operatorCount tokens = operandCount tokens).
  { intros postfix stack Hconv Hloop.
    apply evaluatePostfix_loop_count in Hloop. cbn [List.length] in Hloop.
    pose proof (infixToPostfix_moves _ _ Hconv) as Hperm.
    unfold operatorCount, operandCount in *.
    rewrite (filter_length_perm isOperator _ _ Hperm) in Hloop.
    rewrite (filter_length_perm isOperand _ _ Hperm) in Hloop.
    rewrite (filter_withoutParens _ _ isOperand_not_paren) in Hloop.
    rewrite (filter_withoutParens _ _ isOperator_not_paren) in Hloop.
    exact Hloop. }
  split.
  - intros v Hv. rewrite Hv in H.
    destruct (infixToPostfix tokens) as [postfix|] eqn:Hconv; [|discriminate].
    unfold evaluatePostfix in H.
    destruct (evaluatePostfix_loop self postfix []) as [[stack|]|] eqn:Hloop;
      try discriminate.
    specialize (Hcount _ _ eq_refl Hloop).
    destruct stack as [|r [|r' stack]]; try discriminate. cbn [List.length] in Hcount. lia.
  - intros He. rewrite He in H.
    destruct (infixToPostfix tokens) as [postfix|e] eqn:Hconv.
    2:{ injection H as <-.
        destruct (infixToPostfix_errors _ _ Hconv) as [?|(t & ? & _)]; discriminate. }
    unfold evaluatePostfix in H.
    destruct (evaluatePostfix_loop self postfix []) as [[stack|e]|] eqn:Hloop;
      try discriminate.
    + specialize (Hcount _ _ eq_refl Hloop).
      destruct stack as [|r [|r' stack]]; try discriminate; cbn [List.length] in Hcount; lia.
    + injection H as <-.
      destruct (evaluatePostfix_loop_errors _ _ _ _ Hloop)
        as [?|[?|[[a ?]|(t & ? & _)]]]; discriminate.
Qed.

(** X22.  An input of spaces alone, the empty one also, is the error "error
    evaluating expression". *)
Theorem blank_input (input : string) :
  Str.forallb (fun c => Ascii.eqb c " ") input = true ->
  evaluateExpression input = Err errEvaluatingExpression.
Proof.
  intros H.
  assert (Hclean : strings_ReplaceAll_space input = "").
  { unfold strings_ReplaceAll_space.
    induction input as [|c input IH]; [reflexivity|].
    cbn [Str.forallb] in H. apply andb_true_iff in H as [Hc Hrest].
    cbn [Str.filter]. rewrite Hc. cbn [negb]. now apply IH. }
  pose proof (evaluateExpression_tokens input []) as Ht.
  rewrite Hclean in Ht. specialize (Ht tokenize_nothing).
  injection Ht as Ht. exact Ht.
Qed.

End Counts.

(** ** The first byte that is no plain one *)

Lemma tokenize_loop_plain_prefix (before rest number : string) (tokens : list string) :
  Str.forallb isPlainChar before = true ->
  exists number' tokens',
    tokenize_loop (before ++ rest) number tokens = tokenize_loop rest number' tokens'.
Proof.
  revert number tokens. induction before as [|c before IH]; intros number tokens H.
  - eauto.
  - cbn [Str.forallb] in H. apply andb_true_iff in H as [Hc Hrest].
    cbn [append]. rewrite tokenize_loop_step. unfold isPlainChar in Hc.
    destruct (isNumberChar c); [now apply IH|].
    cbn [orb] in Hc. rewrite Hc. now apply IH.
Qed.

Lemma parenScan_positive (s : string) (count k : nat) :
  parenScan s (S count) = Some k -> exists k', k = S k'.
Proof.
  revert count. induction s as [|c s IH]; intros count H.
  - injection H as <-. eauto.
  - cbn [parenScan] in H.
    destruct (Ascii.eqb c "("); [exact (IH _ H)|].
    destruct (Ascii.eqb c ")"); [|exact (IH _ H)].
    destruct count as [|count]; [discriminate|]. exact (IH _ H).
Qed.

Lemma functionName_start (funcName : string) :
  In funcName functionNames ->
  exists c tail,
    funcName = String c tail /\ isPlainChar c = false
    /\ forall rest, functionRegex_FindString (funcName ++ "(" ++ rest) = (funcName ++ "(")%string.
Proof.
  intros H. simpl in H.
  destruct H as [<-|[<-|[<-|[<-|[]]]]]; eexists; eexists;
    (split; [reflexivity|]); (split; [reflexivity|]); intros rest;
    unfold functionRegex_FindString.
  - change ("sin" ++ "(" ++ rest)%string with ("sin(" ++ rest)%string.
    now rewrite (prefix_append_self "sin(").
  - change ("cos" ++ "(" ++ rest)%string with ("cos(" ++ rest)%string.
    now rewrite (prefix_append_self "cos(").
  - change ("tan" ++ "(" ++ rest)%string with ("tan(" ++ rest)%string.
    now rewrite (prefix_append_self "tan(").
  - change ("sqrt" ++ "(" ++ rest)%string with ("sqrt(" ++ rest)%string.
    now rewrite (prefix_append_self "sqrt(").
Qed.

Lemma tokenize_call_unclosed (rest found : string) (tokens : list string) (n j : nat) :
  functionRegex_FindString rest = found -> found <> "" ->
  scanParens (Str.drop (String.length found) rest) 1 (String.length found) = (S n, j) ->
  tokenize_call rest tokens = Err errUnmatchedFunctionParens.
Proof.
  intros Hfind Hne Hscan. unfold tokenize_call.
  destruct rest as [|char rest]; [now subst found|].
  rewrite Hfind. destruct found as [|m0 m']; [contradiction|]. now rewrite Hscan.
Qed.

Lemma tokenize_loop_unclosed (funcName arg number : string) (tokens : list string) (k : nat) :
  In funcName functionNames -> parenScan arg 1 = Some k ->
  tokenize_loop (funcName ++ "(" ++ arg) number tokens = Err errUnmatchedFunctionParens.
Proof.
  intros Hname Harg.
  destruct (functionName_start _ Hname) as (c & tail & Hc & Hplain & Hfind).
  destruct (parenScan_positive _ _ _ Harg) as [k' ->].
  pose proof (scanParens_parenScan arg "" 0 (S k') (String.length (funcName ++ "(")) Harg)
    as Hscan.
  rewrite append_empty_r in Hscan. cbn [scanParens] in Hscan.
  assert (Hdrop : Str.drop (String.length (funcName ++ "(")) (funcName ++ "(" ++ arg) = arg).
  { rewrite <- append_assoc. apply drop_append. }
  assert (Hcall : forall tokens', tokenize_call (funcName ++ "(" ++ arg) tokens'
                                 = Err errUnmatchedFunctionParens).
  { intros tokens'.
    apply (tokenize_call_unclosed _ (funcName ++ "(") _ k'
             (String.length (funcName ++ "(") + String.length arg) (Hfind arg)).
    - rewrite Hc. discriminate.
    - rewrite Hdrop. exact Hscan. }
  set (whole := (funcName ++ "(" ++ arg)%string) in *.
  assert (Hwhole : whole = String c (tail ++ "(" ++ arg)) by (unfold whole; now rewrite Hc).
  rewrite Hwhole, tokenize_loop_step. unfold isPlainChar in Hplain.
  apply orb_false_iff in Hplain as [Hn Ho]. rewrite Hn, Ho, <- Hwhole. apply Hcall.
Qed.

Section FirstError.

Context {M : MathLib}.

Lemma tokenize_error (input : string) (e : error) :
  tokenize (strings_ReplaceAll_space input) = Err e -> evaluateExpression input = Err e.
Proof.
  intros H. pose proof (evaluateExpression_stages input) as Hst. rewrite H in Hst.
  now injection Hst.
Qed.

(** X23.  A call that is not closed is the error "unmatched function
    parentheses", whatever its argument holds and whatever stands before
    it, as long as the bytes before it are digits, points, operators and
    parentheses. *)
Theorem unclosed_call (before funcName arg : string) (k : nat) :
  Str.forallb isPlainChar (strings_ReplaceAll_space before) = true ->
  In funcName functionNames -> parenScan arg 1 = Some k ->
  evaluateExpression (before ++ funcName ++ "(" ++ arg) = Err errUnmatchedFunctionParens.
Proof.
  intros Hbefore Hname Harg. apply tokenize_error.
  rewrite !clean_append, (clean_functionName _ Hname).
  change (strings_ReplaceAll_space "(") with "(".
  destruct (tokenize_loop_plain_prefix _
              (funcName ++ "(" ++ strings_ReplaceAll_space arg) "" [] Hbefore)
    as (number & tokens & Heq).
  unfold tokenize. rewrite Heq.
  apply (tokenize_loop_unclosed _ _ _ _ k Hname).
  unfold strings_ReplaceAll_space. now rewrite parenScan_filter.
Qed.

(** X24.  The first byte that is no digit, point, operator or parenthesis
    and starts no call is reported as an invalid character, before any
    other error of the input. *)
Theorem invalid_character (before after : string) (c : ascii) :
  Str.forallb isPlainChar (strings_ReplaceAll_space before) = true ->
  isPlainChar c = false -> notSpace c = true ->
  functionRegex_FindString (String c (strings_ReplaceAll_space after)) = "" ->
  evaluateExpression (before ++ String c after) = Err (errInvalidCharacter c).
Proof.
  intros Hbefore Hplain Hspace Hfind. apply tokenize_error.
  rewrite clean_append.
  assert (Hclean : strings_ReplaceAll_space (String c after)
                   = String c (strings_ReplaceAll_space after)).
  { unfold strings_ReplaceAll_space. cbn [Str.filter].
    unfold notSpace in Hspace. now rewrite Hspace. }
  rewrite Hclean.
  destruct (tokenize_loop_plain_prefix _ (String c (strings_ReplaceAll_space after)) "" []
              Hbefore) as (number & tokens & Heq).
  unfold tokenize. rewrite Heq, tokenize_loop_step.
  unfold isPlainChar in Hplain. apply orb_false_iff in Hplain as [Hn Ho].
  rewrite Hn, Ho. unfold tokenize_call. now rewrite Hfind.
Qed.

End FirstError.

(** ** The loop of Run *)

Section RunLoop.

Context {M : MathLib} {C : Console}.

Lemma Run_turn_stop (reader : Reader) :
  (exists output, Run_turn reader = stop output) <-> readsExit reader = true.
Proof.
  unfold Run_turn, readsExit.
  destruct (ReadString_newline reader) as [[input [err|]] reader'].
  - split; [intros [output H]; discriminate H|discriminate].
  - destruct (String.eqb _ exitCommand).
    + split; [reflexivity|eauto].
    + split; [|discriminate]. intros [output H].
      destruct (evaluateExpression _); discriminate H.
Qed.

Lemma Run_turn_next (reader reader' : Reader) (output : string) :
  Run_turn reader = next output reader' ->
  reader' = snd (ReadString_newline reader) /\ readsExit reader = false.
Proof.
  unfold Run_turn, readsExit.
  destruct (ReadString_newline reader) as [[input [err|]] reader''].
  - intros H. injection H as _ <-. split; reflexivity.
  - destruct (String.eqb _ exitCommand); [discriminate|].
    destruct (evaluateExpression _); intros H; injection H as _ <-; split; reflexivity.
Qed.

(** X26.  The loop of [Run] ends at the first line that is the exit
    command, and at nothing else: within [fuel] turns it has ended exactly
    when one of the first [fuel] reads gave a line whose trimmed lower-case
    text is [exit].  No error of an expression and no error of the reader
    ends it. *)
Theorem Run_ends_at_exit (fuel : nat) (reader : Reader) :
  snd (Run_loop fuel reader) = true
  <-> exists n, n < fuel /\ readsExit (readerAfter n reader) = true.
Proof.
  revert reader. induction fuel as [|fuel IH]; intros reader.
  - cbn. split; [discriminate|]. intros (n & Hn & _). lia.
  - cbn [Run_loop]. destruct (Run_turn reader) as [output reader'|output] eqn:E.
    + destruct (Run_turn_next _ _ _ E) as [-> Hno].
      specialize (IH (snd (ReadString_newline reader))).
      destruct (Run_loop fuel (snd (ReadString_newline reader))) as [rest ended].
      cbn [snd] in *. rewrite IH. split.
      * intros (n & Hn & Hexit). exists (S n). split; [lia|exact Hexit].
      * intros (n & Hn & Hexit). destruct n as [|n].
        { cbn [readerAfter] in Hexit. congruence. }
        exists n. split; [lia|exact Hexit].
    + cbn [snd]. split; [|reflexivity]. intros _. exists 0. split; [lia|].
      cbn [readerAfter]. apply Run_turn_stop. eauto.
Qed.

(** X27.  When the reader fails at every read, as it does at the end of the
    input, the loop never ends: each turn prints the prompt and the error
    of the reader, and nothing is evaluated. *)
Theorem Run_endless_at_read_errors (reader : Reader) (err : string) :
  (forall n, exists data reader',
      ReadString_newline (readerAfter n reader) = (data, Some err, reader')) ->
  forall fuel,
    Run_loop fuel reader
    = (concat "" (repeat ("Enter calculation: Error reading input: " ++ err ++ newline)%string
                         fuel),
       false).
Proof.
  intros Hfail fuel. revert reader Hfail.
  induction fuel as [|fuel IH]; intros reader Hfail; [reflexivity|].
  cbn [Run_loop repeat concat].
  destruct (Hfail 0) as (data & reader' & Hread). cbn [readerAfter] in Hread.
  unfold Run_turn. rewrite Hread.
  assert (Hrest : forall n, exists data reader'',
             ReadString_newline (readerAfter n reader') = (data, Some err, reader'')).
  { intros n. specialize (Hfail (S n)). cbn [readerAfter] in Hfail.
    now rewrite Hread in Hfail. }
  rewrite (IH reader' Hrest).
  destruct fuel; cbn [repeat concat]; [now rewrite !append_empty_r|].
  now rewrite !append_assoc.
Qed.

End RunLoop.

(** ** Instances of the properties *)

Lemma single_number_witness :
  isNumberRun "3.5" = true
  /\ evaluateExpression (M := SampleMath) "3.5"
     = match strconv.ParseFloat "3.5" with
       | Some v => Ok v
       | None => Err (errInvalidToken "3.5")
       end.
Proof.
  assert (H : isNumberRun "3.5" = true) by (vm_compute; reflexivity).
  exact (conj H (single_number (M := SampleMath) "3.5" H)).
Defined.

Lemma one_sided_operator_witness :
  isOperator "-" = true /\ strconv.ParseFloat "5" = Some 5%float
  /\ evaluateExpression (M := SampleMath) ("-" ++ "5") = Err errInsufficientValues.
Proof.
  assert (Hop : isOperator "-" = true) by (vm_compute; reflexivity).
  assert (Hv : strconv.ParseFloat "5" = Some 5%float) by (vm_compute; reflexivity).
  exact (conj Hop (conj Hv
           (proj1 (one_sided_operator (M := SampleMath) "-" "5" 5 Hop Hv)))).
Defined.

Lemma function_call_value_witness :
  In "sqrt" functionNames /\ parenScan "16" 1 = Some 1
  /\ exists f,
       mathFunction (M := SampleMath) "sqrt" = Some f
       /\ evaluateExpression (M := SampleMath) (callText "sqrt" "16")
          = match evaluateExpression (M := SampleMath) "16" with
            | Ok v => Ok (f v)
            | Err _ => Err (errInvalidFunctionArgument (strings_ReplaceAll_space "16"))
            end.
Proof.
  assert (Hname : In "sqrt" functionNames) by (vm_compute; tauto).
  assert (Harg : parenScan "16" 1 = Some 1) by (vm_compute; reflexivity).
  exact (conj Hname (conj Harg
           (function_call_value (M := SampleMath) "sqrt" "16" Hname Harg))).
Defined.

Lemma call_before_operator_witness :
  In "sin" functionNames /\ parenScan "0" 1 = Some 1
  /\ isOperator "+" = true /\ strconv.ParseFloat "1" = Some 1%float
  /\ evaluateExpression (M := SampleMath) (callText "sin" "0" ++ "+" ++ "1")
     = Err errInsufficientValues.
Proof.
  assert (Hname : In "sin" functionNames) by (vm_compute; tauto).
  assert (Harg : parenScan "0" 1 = Some 1) by (vm_compute; reflexivity).
  assert (Hop : isOperator "+" = true) by (vm_compute; reflexivity).
  assert (Hv : strconv.ParseFloat "1" = Some 1%float) by (vm_compute; reflexivity).
  exact (conj Hname (conj Harg (conj Hop (conj Hv
           (proj2 (call_before_operator (M := SampleMath) "sin" "0" "+" "1" 1
                     Hname Harg Hop Hv)))))).
Defined.

Lemma infixToPostfix_permutation_witness :
  infixToPostfix ["("; "2"; "+"; "3"; ")"; "*"; "4"] = Ok ["2"; "3"; "+"; "4"; "*"]
  /\ Permutation ["2"; "3"; "+"; "4"; "*"]
                 (withoutParens ["("; "2"; "+"; "3"; ")"; "*"; "4"]).
Proof.
  assert (H : infixToPostfix ["("; "2"; "+"; "3"; ")"; "*"; "4"]
              = Ok ["2"; "3"; "+"; "4"; "*"]) by (vm_compute; reflexivity).
  exact (conj H (proj1 (infixToPostfix_permutation _ _ H))).
Defined.

Lemma infixToPostfix_numbers_in_order_witness :
  infixToPostfix ["1"; "+"; "2"; "*"; "3"] = Ok ["1"; "2"; "3"; "*"; "+"]
  /\ filter isNumber ["1"; "2"; "3"; "*"; "+"] = filter isNumber ["1"; "+"; "2"; "*"; "3"].
Proof.
  assert (H : infixToPostfix ["1"; "+"; "2"; "*"; "3"]
              = Ok ["1"; "2"; "3"; "*"; "+"]) by (vm_compute; reflexivity).
  exact (conj H (infixToPostfix_numbers_in_order _ _ H)).
Defined.

Lemma two_operators_group_witness :
  strconv.ParseFloat "2" = Some 2%float /\ strconv.ParseFloat "3" = Some 3%float
  /\ isOperator "-" = true
  /\ infixToPostfix ["2"; "-"; "3"; "-"; "2"]
     = Ok (if groupsLeft "-" "-" then ["2"; "3"; "-"; "2"; "-"]
           else ["2"; "3"; "2"; "-"; "-"]).
Proof.
  assert (H2 : strconv.ParseFloat "2" = Some 2%float) by (vm_compute; reflexivity).
  assert (H3 : strconv.ParseFloat "3" = Some 3%float) by (vm_compute; reflexivity).
  assert (Hop : isOperator "-" = true) by (vm_compute; reflexivity).
  exact (conj H2 (conj H3 (conj Hop
           (proj1 (two_operators_group (M := SampleMath) (fun _ => None)
                     "2" "3" "2" "-" "-" 2 3 2 H2 H3 H2 Hop Hop))))).
Defined.

Lemma tokenize_shapes_witness :
  tokenize "2.5*sin(0)" = Ok ["2.5"; "*"; "sin(0)"]
  /\ Forall (fun t => tokenShape t = true) ["2.5"; "*"; "sin(0)"].
Proof.
  assert (H : tokenize "2.5*sin(0)" = Ok ["2.5"; "*"; "sin(0)"])
    by (vm_compute; reflexivity).
  exact (conj H (tokenize_shapes _ _ H)).
Defined.

Lemma evaluateExpression_errors_witness :
  evaluateExpression (M := SampleMath) "1..2" = Err (errInvalidToken "1..2")
  /\ reachableError (errInvalidToken "1..2") = true
  /\ isNumberRun "1..2" = true /\ strconv.ParseFloat "1..2" = None.
Proof.
  assert (H : evaluateExpression (M := SampleMath) "1..2" = Err (errInvalidToken "1..2"))
    by (vm_compute; reflexivity).
  destruct (evaluateExpression_errors (M := SampleMath) _ _ H) as [Hr Ht].
  exact (conj H (conj Hr (Ht "1..2" eq_refl))).
Defined.

Lemma parenthesised_expression_witness :
  exprWellFormed (Bin "*" (Bin "+" (Num "1") (Num "2")) (Call "sqrt" (Bin "-" (Num "20") (Num "4"))))
  = true
  /\ evaluateExpression (M := SampleMath)
       (exprText (Bin "*" (Bin "+" (Num "1") (Num "2"))
                    (Call "sqrt" (Bin "-" (Num "20") (Num "4")))))
     = exprValue (M := SampleMath)
         (Bin "*" (Bin "+" (Num "1") (Num "2")) (Call "sqrt" (Bin "-" (Num "20") (Num "4")))).
Proof.
  assert (H : exprWellFormed
                (Bin "*" (Bin "+" (Num "1") (Num "2"))
                   (Call "sqrt" (Bin "-" (Num "20") (Num "4")))) = true)
    by (vm_compute; reflexivity).
  exact (conj H (parenthesised_expression (M := SampleMath) _ H)).
Defined.

Lemma exprText_sample :
  exprText (Bin "*" (Bin "+" (Num "1") (Num "2")) (Call "sqrt" (Bin "-" (Num "20") (Num "4"))))
  = "(1+2)*(sqrt(20-4))"
  /\ exprValue (M := SampleMath)
       (Bin "*" (Bin "+" (Num "1") (Num "2")) (Call "sqrt" (Bin "-" (Num "20") (Num "4"))))
     = Ok 12%float.
Proof. split; vm_compute; reflexivity. Qed.

Lemma sixDecimals_samples :
  sixDecimals 3 = "3.000000" /\ sixDecimals 0.5 = "0.500000"
  /\ sixDecimals (2 / 3) = "0.666667" /\ sixDecimals (-1 / 4194304) = "-0.000000"
  /\ sixDecimals 1234567.125 = "1234567.125000" /\ sixDecimals nan = "NaN"
  /\ sixDecimals (1 / 0) = "+Inf" /\ sixDecimals (-0) = "-0.000000".
Proof. repeat split; vm_compute; reflexivity. Qed.

Lemma Run_sample :
  Run (M := SampleMath) (C := SampleConsole) 10
      ("1+2" ++ newline ++ " (1+2)*3 " ++ newline ++ "1/0" ++ newline ++ "Exit" ++ newline
       ++ "2+2" ++ newline)%string
  = (banner
     ++ "Enter calculation: Result: 3.000000" ++ newline
     ++ "Enter calculation: Result: 9.000000" ++ newline
     ++ "Enter calculation: Error: cannot divide by zero" ++ newline
     ++ "Please check your input and try again." ++ newline
     ++ "Enter calculation: Exiting the calculator. Goodbye!" ++ newline,
     true)%string.
Proof. vm_compute. reflexivity. Qed.

Lemma Run_endless_at_read_errors_witness :
  (forall n, exists data reader',
      ReadString_newline (Console := SampleConsole) (readerAfter n ""%string)
      = (data, Some "EOF", reader'))
  /\ Run_loop (M := SampleMath) (C := SampleConsole) 2 ""%string
     = (concat "" (repeat ("Enter calculation: Error reading input: " ++ "EOF" ++ newline)%string
                          2),
        false).
Proof.
  assert (H : forall n, exists data reader',
             ReadString_newline (Console := SampleConsole) (readerAfter n ""%string)
             = (data, Some "EOF", reader')).
  { intros n. exists ""%string, ""%string. induction n as [|n IH]; [reflexivity|exact IH]. }
  exact (conj H (Run_endless_at_read_errors (M := SampleMath) (C := SampleConsole)
                   ""%string "EOF" H 2)).
Defined.

Lemma parenthesised_operand_witness :
  Forall (fun x => isFunction x = false) ["2"; "*"]
  /\ strconv.ParseFloat "3" = Some 3%float
  /\ infixToPostfix ["1"; "+"; "2"] = Ok ["1"; "2"; "+"]
  /\ evaluatePostfix (M := SampleMath) (fun _ => None) ["1"; "2"; "+"] = Some (Ok 3%float)
  /\ evaluateTokens (M := SampleMath) (fun _ => None)
       (["2"; "*"] ++ leftParen :: ["1"; "+"; "2"] ++ rightParen :: [])
     = evaluateTokens (M := SampleMath) (fun _ => None) (["2"; "*"] ++ "3" :: []).
Proof.
  assert (Hpre : Forall (fun x => isFunction x = false) ["2"; "*"])
    by (repeat constructor).
  assert (Ht : strconv.ParseFloat "3" = Some 3%float) by (vm_compute; reflexivity).
  assert (Hg : infixToPostfix ["1"; "+"; "2"] = Ok ["1"; "2"; "+"])
    by (vm_compute; reflexivity).
  assert (Hv : evaluatePostfix (M := SampleMath) (fun _ => None) ["1"; "2"; "+"]
               = Some (Ok 3%float)) by (vm_compute; reflexivity).
  exact (conj Hpre (conj Ht (conj Hg (conj Hv
           (parenthesised_operand (M := SampleMath) (fun _ => None)
              ["2"; "*"] ["1"; "+"; "2"] [] ["1"; "2"; "+"] "3" 3 Hpre Ht Hg Hv))))).
Defined.

Lemma tokenize_separator_witness :
  tokenize "12" = Ok ["12"]
  /\ isOperatorOrParen (string_of_rune "+") = true
  /\ tokenize ("12" ++ String "+" "3")
     = mapResult (app (["12"] ++ [string_of_rune "+"])) (tokenize "3").
Proof.
  assert (H : tokenize "12" = Ok ["12"]) by (vm_compute; reflexivity).
  assert (Hc : isOperatorOrParen (string_of_rune "+") = true) by (vm_compute; reflexivity).
  exact (conj H (conj Hc (tokenize_separator "12" "3" "+" ["12"] H Hc))).
Defined.

Lemma parentheses_make_operand_witness :
  evaluateExpression (M := SampleMath) "sin(0)" = Ok 0%float
  /\ strconv.ParseFloat "1" = Some 1%float /\ isOperator "+" = true
  /\ evaluateExpression (M := SampleMath) ("(" ++ "sin(0)" ++ ")" ++ "+" ++ "1")
     = applyOperator "+" 0 1.
Proof.
  assert (He : evaluateExpression (M := SampleMath) "sin(0)" = Ok 0%float)
    by (vm_compute; reflexivity).
  assert (Ha : strconv.ParseFloat "1" = Some 1%float) by (vm_compute; reflexivity).
  assert (Hop : isOperator "+" = true) by (vm_compute; reflexivity).
  exact (conj He (conj Ha (conj Hop
           (proj2 (proj2 (parentheses_make_operand (M := SampleMath)
                            "sin(0)" "1" "+" 0 1 He Ha Hop)))))).
Defined.

Lemma call_in_last_place_witness :
  isFunction "sqrt(4)" = true
  /\ evaluateFunction (M := SampleMath) self "sqrt(4)" = Some (Ok 2%float)
  /\ strconv.ParseFloat "2" = Some 2%float
  /\ evaluateTokens (M := SampleMath) self (["1"; "+"] ++ ["sqrt(4)"])
     = evaluateTokens (M := SampleMath) self (["1"; "+"] ++ ["2"]).
Proof.
  assert (Hc : isFunction "sqrt(4)" = true) by (vm_compute; reflexivity).
  assert (Hv : evaluateFunction (M := SampleMath) self "sqrt(4)" = Some (Ok 2%float))
    by (vm_compute; reflexivity).
  assert (Ht : strconv.ParseFloat "2" = Some 2%float) by (vm_compute; reflexivity).
  exact (conj Hc (conj Hv (conj Ht
           (proj1 (call_in_last_place (M := SampleMath) self ["1"; "+"] "sqrt(4)" "2" 2
                     Hc Hv Ht))))).
Defined.

Lemma call_after_operator_witness :
  In "sqrt" functionNames /\ parenScan "16" 1 = Some 1
  /\ isOperator "+" = true /\ strconv.ParseFloat "1" = Some 1%float
  /\ exists f,
       mathFunction (M := SampleMath) "sqrt" = Some f
       /\ evaluateExpression (M := SampleMath) ("1" ++ "+" ++ callText "sqrt" "16")
          = match evaluateExpression (M := SampleMath) "16" with
            | Ok v => applyOperator "+" 1 (f v)
            | Err _ => Err (errInvalidFunctionArgument (strings_ReplaceAll_space "16"))
            end.
Proof.
  assert (Hname : In "sqrt" functionNames) by (vm_compute; tauto).
  assert (Harg : parenScan "16" 1 = Some 1) by (vm_compute; reflexivity).
  assert (Hop : isOperator "+" = true) by (vm_compute; reflexivity).
  assert (Ha : strconv.ParseFloat "1" = Some 1%float) by (vm_compute; reflexivity).
  exact (conj Hname (conj Harg (conj Hop (conj Ha
           (call_after_operator (M := SampleMath) "sqrt" "16" "+" "1" 1
              Hname Harg Hop Ha))))).
Defined.

Lemma operands_and_operators_witness :
  tokenize (strings_ReplaceAll_space "1+2*3") = Ok ["1"; "+"; "2"; "*"; "3"]
  /\ evaluateExpression (M := SampleMath) "1+2*3" = Ok 7%float
  /\ operandCount ["1"; "+"; "2"; "*"; "3"] = S (operatorCount ["1"; "+"; "2"; "*"; "3"]).
Proof.
  assert (Ht : tokenize (strings_ReplaceAll_space "1+2*3") = Ok ["1"; "+"; "2"; "*"; "3"])
    by (vm_compute; reflexivity).
  assert (Hv : evaluateExpression (M := SampleMath) "1+2*3" = Ok 7%float)
    by (vm_compute; reflexivity).
  exact (conj Ht (conj Hv
           (proj1 (operands_and_operators (M := SampleMath) "1+2*3" _ Ht) 7%float Hv))).
Defined.

Lemma blank_input_witness :
  Str.forallb (fun c => Ascii.eqb c " ") "  " = true
  /\ evaluateExpression (M := SampleMath) "  " = Err errEvaluatingExpression.
Proof.
  assert (H : Str.forallb (fun c => Ascii.eqb c " ") "  " = true)
    by (vm_compute; reflexivity).
  exact (conj H (blank_input (M := SampleMath) "  " H)).
Defined.

Lemma unclosed_call_witness :
  Str.forallb isPlainChar (strings_ReplaceAll_space "2+") = true
  /\ In "sin" functionNames /\ parenScan "1+x" 1 = Some 1
  /\ evaluateExpression (M := SampleMath) ("2+" ++ "sin" ++ "(" ++ "1+x")
     = Err errUnmatchedFunctionParens.
Proof.
  assert (Hb : Str.forallb isPlainChar (strings_ReplaceAll_space "2+") = true)
    by (vm_compute; reflexivity).
  assert (Hname : In "sin" functionNames) by (vm_compute; tauto).
  assert (Harg : parenScan "1+x" 1 = Some 1) by (vm_compute; reflexivity).
  exact (conj Hb (conj Hname (conj Harg
           (unclosed_call (M := SampleMath) "2+" "sin" "1+x" 1 Hb Hname Harg)))).
Defined.

Lemma invalid_character_witness :
  Str.forallb isPlainChar (strings_ReplaceAll_space "(2+") = true
  /\ isPlainChar "x" = false /\ notSpace "x" = true
  /\ functionRegex_FindString (String "x" (strings_ReplaceAll_space "")) = ""
  /\ evaluateExpression (M := SampleMath) ("(2+" ++ String "x" "")
     = Err (errInvalidCharacter "x").
Proof.
  assert (Hb : Str.forallb isPlainChar (strings_ReplaceAll_space "(2+") = true)
    by (vm_compute; reflexivity).
  assert (Hp : isPlainChar "x" = false) by (vm_compute; reflexivity).
  assert (Hs : notSpace "x" = true) by (vm_compute; reflexivity).
  assert (Hf : functionRegex_FindString (String "x" (strings_ReplaceAll_space "")) = "")
    by (vm_compute; reflexivity).
  exact (conj Hb (conj Hp (conj Hs (conj Hf
           (invalid_character (M := SampleMath) "(2+" "" "x" Hb Hp Hs Hf))))).
Defined.

Lemma redundant_parentheses_witness :
  tokenize (strings_ReplaceAll_space "1/0") = Ok ["1"; "/"; "0"]
  /\ infixToPostfix ["1"; "/"; "0"] = Ok ["1"; "0"; "/"]
  /\ evaluateExpression (M := SampleMath) ("(" ++ "1/0" ++ ")")
     = evaluateExpression (M := SampleMath) "1/0".
Proof.
  assert (Ht : tokenize (strings_ReplaceAll_space "1/0") = Ok ["1"; "/"; "0"])
    by (vm_compute; reflexivity).
  assert (Hc : infixToPostfix ["1"; "/"; "0"] = Ok ["1"; "0"; "/"])
    by (vm_compute; reflexivity).
  exact (conj Ht (conj Hc (redundant_parentheses (M := SampleMath) "1/0" _ _ Ht Hc))).
Defined.

Lemma juxtaposition_fails_witness :
  evaluateExpression (M := SampleMath) "3+4" = Ok 7%float
  /\ strconv.ParseFloat "2" = Some 2%float
  /\ evaluateExpression (M := SampleMath) ("2" ++ "(" ++ "3+4" ++ ")")
     = Err errEvaluatingExpression.
Proof.
  assert (He : evaluateExpression (M := SampleMath) "3+4" = Ok 7%float)
    by (vm_compute; reflexivity).
  assert (Ha : strconv.ParseFloat "2" = Some 2%float) by (vm_compute; reflexivity).
  exact (conj He (conj Ha
           (proj1 (juxtaposition_fails (M := SampleMath) "3+4" "3+4" "2" 7 7 2 He He Ha)))).
Defined.

Lemma infixToPostfix_balanced_witness :
  Forall (fun t => tokenShape t = true) ["("; "2"; "+"; "3"; ")"]
  /\ forallb validToken ["("; "2"; "+"; "3"; ")"] = true
  /\ parenDepth ["("; "2"; "+"; "3"; ")"] 0 = Some 0
  /\ exists postfix, infixToPostfix ["("; "2"; "+"; "3"; ")"] = Ok postfix.
Proof.
  assert (Hshape : Forall (fun t => tokenShape t = true) ["("; "2"; "+"; "3"; ")"])
    by (repeat constructor).
  assert (Hvalid : forallb validToken ["("; "2"; "+"; "3"; ")"] = true)
    by (vm_compute; reflexivity).
  assert (Hdepth : parenDepth ["("; "2"; "+"; "3"; ")"] 0 = Some 0)
    by (vm_compute; reflexivity).
  destruct (infixToPostfix_balanced ["("; "2"; "+"; "3"; ")"] Hshape) as (_ & _ & Hok & _).
  exact (conj Hshape (conj Hvalid (conj Hdepth (Hok Hvalid Hdepth)))).
Defined.
